(** * Kaboomer: the project scaffolder, embedded and verified

    A shallow embedding of the command-line tool [kaboomer]
    (src/index.ts, version 0.1.6 and the revision that adds the [add]
    command) together with the properties its specification states.

    - Strings are [string]; file texts are kept line by line.
    - Structured payloads are values of type [json], written out by
      [JSON_stringify] the way [JSON.stringify(v, null, 4)] does.
    - The regular expression [PACKAGE_NAME_REGEX] is a value of type
      [regex], run by a derivative matcher [regex_test].
    - An absolute, normalised path is the list of its components, the
      root directory being [[]], together with the separator that may
      follow the last component ([pathname]); [join] and [dirname] are
      those of Node's [path] module on POSIX.
    - The disk is a tree ([node]); the calls of [fs/promises] that the
      program uses ([stat], [mkdir], [writeFile], [rm]) are functions
      on it that can fail with an [errno].
    - The child process that [init] starts ([git init]) is a parameter:
      it says how the child ends and which repository it leaves.
    - An [async] function is a computation in the monad [M]: it threads
      the disk and the log of requested file-system calls, and stops
      either at a [process.exit] or at a rejected promise. *)

From Stdlib Require Import Ascii ZArith Lia.
From stdpp Require Import base option list strings gmap fin_maps.

#[local] Set Warnings "-register-all".

Open Scope Z_scope.

(* ================================================================= *)
(** ** Characters and text *)

(** The double quote, the line feed and the backslash. *)
Definition dq : string := String "034"%char EmptyString.
Definition nl : string := String "010"%char EmptyString.
Definition bs : string := String "092"%char EmptyString.

(** [Array.prototype.join]: the items separated by [sep]. *)
Fixpoint join_with (sep : string) (items : list string) : string :=
  match items with
  | [] => EmptyString
  | [x] => x
  | x :: rest => x +:+ sep +:+ join_with sep rest
  end.

(** A text given line by line (the lines of a template literal). *)
Definition unlines (ls : list string) : string := join_with nl ls.

Definition code (c : ascii) : nat := nat_of_ascii c.

Definition between (lo hi c : ascii) : bool :=
  (Nat.leb (code lo) (code c)) && (Nat.leb (code c) (code hi)).

Definition is_lower (c : ascii) : bool := between "a" "z" c.
Definition is_upper (c : ascii) : bool := between "A" "Z" c.
Definition is_letter (c : ascii) : bool := is_lower c || is_upper c.

(** [toUpperCase] and [toLowerCase] on one character.  The model
    converts the ASCII letters and leaves every other character alone:
    it is the conversion of JavaScript on ASCII text, and on ASCII
    text only ([ascii_only] below); what is proved about a converted
    text is stated for ASCII text. *)
Definition toUpperCase_char (c : ascii) : ascii :=
  if is_lower c then ascii_of_nat (code c - 32) else c.

Definition toLowerCase_char (c : ascii) : ascii :=
  if is_upper c then ascii_of_nat (code c + 32) else c.

Fixpoint toLowerCase (s : string) : string :=
  match s with
  | EmptyString => EmptyString
  | String c r => String (toLowerCase_char c) (toLowerCase r)
  end.

(** [s.split("/")]: never empty, the empty string gives one empty
    piece. *)
Fixpoint split_slash (s : string) : list string :=
  match s with
  | EmptyString => [EmptyString]
  | String c r =>
      if Ascii.eqb c "/" then EmptyString :: split_slash r
      else match split_slash r with
           | [] => [String c EmptyString]
           | w :: ws => String c w :: ws
           end
  end.

Fixpoint has_slash (s : string) : bool :=
  match s with
  | EmptyString => false
  | String c r => Ascii.eqb c "/" || has_slash r
  end.

(* ================================================================= *)
(** ** JSON values and [JSON.stringify(value, null, 4)] *)

Inductive json : Type :=
| JNull
| JBool (b : bool)
| JNum (n : nat)
| JStr (s : string)
| JArr (items : list json)
| JObj (fields : list (string * json)).

Definition hex_digit (n : nat) : ascii :=
  if Nat.ltb n 10 then ascii_of_nat (48 + n) else ascii_of_nat (87 + n).

(** One character inside a JSON string: the quote and the backslash
    are escaped, control characters get their short or [\u00XX]
    form. *)
Definition json_escape_char (c : ascii) : string :=
  let n := code c in
  if Nat.eqb n 34 then bs +:+ dq
  else if Nat.eqb n 92 then bs +:+ bs
  else if Nat.eqb n 8 then bs +:+ "b"
  else if Nat.eqb n 9 then bs +:+ "t"
  else if Nat.eqb n 10 then bs +:+ "n"
  else if Nat.eqb n 12 then bs +:+ "f"
  else if Nat.eqb n 13 then bs +:+ "r"
  else if Nat.ltb n 32 then
    bs +:+ "u00" +:+ String (hex_digit (Nat.div n 16))
                      (String (hex_digit (Nat.modulo n 16)) EmptyString)
  else String c EmptyString.

Fixpoint json_escape (s : string) : string :=
  match s with
  | EmptyString => EmptyString
  | String c r => json_escape_char c +:+ json_escape r
  end.

Definition json_quote (s : string) : string := dq +:+ json_escape s +:+ dq.

Definition digit_char (n : nat) : ascii := ascii_of_nat (48 + n).

(** Decimal digits of a natural number, most significant first. *)
Fixpoint decimal_go (fuel n : nat) (acc : string) : string :=
  match fuel with
  | O => acc
  | S fuel' =>
      let acc' := String (digit_char (Nat.modulo n 10)) acc in
      if Nat.ltb n 10 then acc' else decimal_go fuel' (Nat.div n 10) acc'
  end.

Definition decimal (n : nat) : string := decimal_go (S n) n EmptyString.

(** [JSON.stringify(v, null, gap)] for a non-empty [gap], [ind] being
    the indentation reached so far.  Object members keep their
    insertion order. *)
Fixpoint json_ser (gap ind : string) (v : json) : string :=
  match v with
  | JNull => "null"
  | JBool true => "true"
  | JBool false => "false"
  | JNum n => decimal n
  | JStr s => json_quote s
  | JArr [] => "[]"
  | JArr items =>
      let ind' := ind +:+ gap in
      "[" +:+ nl +:+ ind'
          +:+ join_with ("," +:+ nl +:+ ind') (map (json_ser gap ind') items)
          +:+ nl +:+ ind +:+ "]"
  | JObj [] => "{}"
  | JObj fields =>
      let ind' := ind +:+ gap in
      "{" +:+ nl +:+ ind'
          +:+ join_with ("," +:+ nl +:+ ind')
                (map (fun kv => json_quote (fst kv) +:+ ": "
                                  +:+ json_ser gap ind' (snd kv)) fields)
          +:+ nl +:+ ind +:+ "}"
  end.

Fixpoint spaces (n : nat) : string :=
  match n with
  | O => EmptyString
  | S k => String " " (spaces k)
  end.

Definition JSON_stringify (v : json) (indent : nat) : string :=
  json_ser (spaces indent) EmptyString v.

(** Member access [obj.key]. *)
Fixpoint json_field (key : string) (fields : list (string * json)) : option json :=
  match fields with
  | [] => None
  | (k, v) :: rest => if String.eqb k key then Some v else json_field key rest
  end.

Definition json_get (key : string) (v : json) : option json :=
  match v with
  | JObj fields => json_field key fields
  | _ => None
  end.

(* ================================================================= *)
(** ** Regular expressions *)

(** An item of a character class: a range [a-z] or one character. *)
Inductive class_item : Type :=
| CRange (lo hi : ascii)
| COne (c : ascii).

Inductive regex : Type :=
| RVoid
| REps
| RClass (items : list class_item)
| RCat (r1 r2 : regex)
| RAlt (r1 r2 : regex)
| RStar (r : regex).

(** [r?] *)
Definition ROpt (r : regex) : regex := RAlt r REps.
Definition RChar (c : ascii) : regex := RClass [COne c].

Definition item_has (c : ascii) (i : class_item) : bool :=
  match i with
  | CRange lo hi => between lo hi c
  | COne d => Ascii.eqb c d
  end.

Definition class_has (items : list class_item) (c : ascii) : bool :=
  existsb (item_has c) items.

Fixpoint nullable (r : regex) : bool :=
  match r with
  | RVoid => false
  | REps => true
  | RClass _ => false
  | RCat r1 r2 => nullable r1 && nullable r2
  | RAlt r1 r2 => nullable r1 || nullable r2
  | RStar _ => true
  end.

(** The derivative of [r] by the character [c]. *)
Fixpoint deriv (c : ascii) (r : regex) : regex :=
  match r with
  | RVoid => RVoid
  | REps => RVoid
  | RClass items => if class_has items c then REps else RVoid
  | RCat r1 r2 =>
      if nullable r1 then RAlt (RCat (deriv c r1) r2) (deriv c r2)
      else RCat (deriv c r1) r2
  | RAlt r1 r2 => RAlt (deriv c r1) (deriv c r2)
  | RStar r1 => RCat (deriv c r1) (RStar r1)
  end.

(** [/^r$/.test(s)]: the whole of [s] is in the language of [r]. *)
Fixpoint regex_test (r : regex) (s : string) : bool :=
  match s with
  | EmptyString => nullable r
  | String c rest => regex_test (deriv c r) rest
  end.

(** The language of a regular expression. *)
Inductive Matches : regex -> string -> Prop :=
| MEps : Matches REps EmptyString
| MClass items c :
    class_has items c = true -> Matches (RClass items) (String c EmptyString)
| MCat r1 r2 s1 s2 :
    Matches r1 s1 -> Matches r2 s2 -> Matches (RCat r1 r2) (s1 +:+ s2)
| MAltL r1 r2 s : Matches r1 s -> Matches (RAlt r1 r2) s
| MAltR r1 r2 s : Matches r2 s -> Matches (RAlt r1 r2) s
| MStarNil r : Matches (RStar r) EmptyString
| MStarApp r s1 s2 :
    Matches r s1 -> Matches (RStar r) s2 -> Matches (RStar r) (s1 +:+ s2).

(** [[a-z0-9-~]] and [[a-z0-9-._~]] *)
Definition name_head : list class_item :=
  [CRange "a" "z"; CRange "0" "9"; COne "-"; COne "~"].
Definition name_tail : list class_item :=
  [CRange "a" "z"; CRange "0" "9"; COne "-"; COne "."; COne "_"; COne "~"].

(** [const PACKAGE_NAME_REGEX =
      /^(@[a-z0-9-~][a-z0-9-._~]*\/)?[a-z0-9-~][a-z0-9-._~]*$/] *)
Definition PACKAGE_NAME_REGEX : regex :=
  RCat (ROpt (RCat (RChar "@")
               (RCat (RClass name_head)
                  (RCat (RStar (RClass name_tail)) (RChar "/")))))
       (RCat (RClass name_head) (RStar (RClass name_tail))).

(* ================================================================= *)
(** ** Paths *)

(** The components of an absolute normalised POSIX path; [[]] is the
    root directory. *)
Abbreviation path := (list string).

(** A path as the functions of Node's [path] module return it and as
    the calls of [fs/promises] take it: the components, and whether a
    separator follows the last of them ([/home/game/] against
    [/home/game]). *)
Record pathname : Type := Pathname { components : path; trailing : bool }.

(** The path of the given components, without a trailing separator. *)
Definition Plain (p : path) : pathname := Pathname p false.

#[local] Set Warnings "-uniform-inheritance,-ambiguous-paths".
Coercion Plain : list >-> pathname.
Coercion components : pathname >-> list.

(** [path.normalize] on the components of an absolute path: empty
    and [.] components are dropped, [..] removes the component before
    it (and is dropped at the root).  [stack] holds the components
    kept so far, innermost first. *)
Fixpoint normalize_onto (stack : list string) (segs : list string) : path :=
  match segs with
  | [] => rev stack
  | seg :: rest =>
      if String.eqb seg EmptyString || String.eqb seg "." then
        normalize_onto stack rest
      else if String.eqb seg ".." then normalize_onto (tail stack) rest
      else normalize_onto (seg :: stack) rest
  end.

(** [s] ends in a separator. *)
Fixpoint ends_in_slash (s : string) : bool :=
  match s with
  | EmptyString => false
  | String c EmptyString => Ascii.eqb c "/"
  | String _ r => ends_in_slash r
  end.

(** [path.join(base, ...args)] for an absolute [base]: the arguments
    that are not empty are put behind [base], separators between them,
    and the whole is normalised.  [path.normalize] keeps the separator
    at the end of what it is given (the end of the last argument that
    is not empty, or of [base] when there is none), unless the result
    is the root directory. *)
Definition join (base : pathname) (args : list string) : pathname :=
  let segs :=
    normalize_onto [] (components base ++ concat (map split_slash args)) in
  let sep :=
    match last (List.filter (fun a => negb (String.eqb a EmptyString)) args) with
    | Some a => ends_in_slash a
    | None => trailing base
    end in
  Pathname segs (sep && negb (bool_decide (segs = []))).

(** [path.dirname], which leaves no trailing separator; the root is
    its own parent. *)
Definition dirname (p : path) : path := removelast p.

(** A component that [path.normalize] keeps as it is. *)
Definition plain (seg : string) : bool :=
  negb (String.eqb seg EmptyString || String.eqb seg "." || String.eqb seg "..").

(* ================================================================= *)
(** ** The disk *)

Inductive node : Type :=
| File (content : string)
| Dir (entries : gmap string node).

Inductive errno : Type := EEXIST | ENOENT | ENOTDIR | EISDIR | EBUSY.

(** What is found at [p] below [on]. *)
Fixpoint lookup_path (p : path) (on : option node) : option node :=
  match p with
  | [] => on
  | s :: p' =>
      match on with
      | Some (Dir es) => lookup_path p' (es !! s)
      | _ => None
      end
  end.

(** Put [x] at [p]: every directory on the way has to exist, the last
    component is created or replaced. *)
Fixpoint graft (p : path) (x : node) (on : option node) : option node :=
  match p with
  | [] => Some x
  | s :: p' =>
      match on with
      | Some (Dir es) =>
          match graft p' x (es !! s) with
          | Some c => Some (Dir (<[s := c]> es))
          | None => None
          end
      | _ => None
      end
  end.

(** Remove the entry at [p] with all that is below it; the root
    itself cannot be removed. *)
Fixpoint prune (p : path) (on : option node) : option node :=
  match p with
  | [] => None
  | s :: p' =>
      match on with
      | Some (Dir es) =>
          match p' with
          | [] => Some (Dir (delete s es))
          | _ => match prune p' (es !! s) with
                 | Some c => Some (Dir (<[s := c]> es))
                 | None => None
                 end
          end
      | _ => None
      end
  end.

(** Why the walk along [p] stops: at a regular file ([ENOTDIR]) or at
    a missing entry ([ENOENT]). *)
Fixpoint why_missing (p : path) (on : option node) : errno :=
  match on with
  | None => ENOENT
  | Some (File _) => ENOTDIR
  | Some (Dir es) =>
      match p with
      | [] => ENOENT
      | s :: p' => why_missing p' (es !! s)
      end
  end.

Definition is_dir (on : option node) : bool :=
  match on with Some (Dir _) => true | _ => false end.

Definition is_some_node (on : option node) : bool :=
  match on with Some _ => true | None => false end.

(** What [stat] finds at a path.  Behind a trailing separator only a
    directory is found: on a regular file the call fails ([ENOTDIR]),
    as it does on a missing entry ([ENOENT]). *)
Definition stat (p : pathname) (d : node) : option node :=
  let found := lookup_path p (Some d) in
  if trailing p && negb (is_dir found) then None else found.

(** No regular file stands on the way to [p]: every component of [p]
    that exists, [p] included, is a directory. *)
Fixpoint creatable (p : path) (on : option node) : bool :=
  match on with
  | None => true
  | Some (File _) => false
  | Some (Dir es) =>
      match p with
      | [] => true
      | s :: p' => creatable p' (es !! s)
      end
  end.

(* ================================================================= *)
(** ** Asynchronous computations *)

(** The calls that change the world, in the order they are issued,
    each with the components of the path it is issued on. *)
Inductive event : Type :=
| EvMkdir (p : path)
| EvWriteFile (p : path) (content : string)
| EvRm (p : path)
| EvExec (command : string) (cwd : path).

Record world : Type := World { disk : node; calls : list event }.

(** The three error reports that precede [process.exit(1)]. *)
Inductive complaint : Type := AlreadyExists | BadType | NotInProject.

Definition console_message (c : complaint) : string :=
  match c with
  | AlreadyExists =>
      "ERROR: project root seems to already exist, run with --force to overwrite."
  | BadType => "err  type must be on of 'scene', 'object' or 'component'"
  | NotInProject =>
      "err  you must execute kaboomer add inside the root of your project"
  end.

Inductive failure : Type :=
| FsError (e : errno)
| SpawnError
| TypeError.

Inductive halt : Type :=
| Exit (status : Z) (why : complaint)
| Rejected (f : failure).

Inductive result (A : Type) : Type :=
| Ret (a : A) (w : world)
| Halt (h : halt) (w : world).
Arguments Ret {A} a w.
Arguments Halt {A} h w.

Definition M (A : Type) : Type := world -> result A.

Definition ret {A} (a : A) : M A := fun w => Ret a w.

Definition bind {A B} (m : M A) (f : A -> M B) : M B :=
  fun w =>
    match m w with
    | Ret a w' => f a w'
    | Halt h w' => Halt h w'
    end.

Declare Scope async_scope.
Delimit Scope async_scope with async.
Notation "'let*' x ':=' m 'in' k" := (bind m (fun x => k))
  (at level 10, x name, m at level 100, k at level 200) : async_scope.
Notation "m ';;' k" := (bind m (fun _ => k))
  (at level 100, k at level 200, right associativity) : async_scope.
Open Scope async_scope.

Definition world_of {A} (r : result A) : world :=
  match r with
  | Ret _ w => w
  | Halt _ w => w
  end.

(** The exit status of the process: an action that completes leaves
    status 0, an unhandled rejection status 1. *)
Definition exit_status {A} (r : result A) : Z :=
  match r with
  | Ret _ _ => 0
  | Halt (Exit status _) _ => status
  | Halt (Rejected _) _ => 1
  end.

Definition call (e : event) : M unit :=
  fun w => Ret tt (World (disk w) (calls w ++ [e])).

Definition get_disk : M node := fun w => Ret (disk w) w.

Definition set_disk (d : node) : M unit :=
  fun w => Ret tt (World d (calls w)).

Definition reject {A} (f : failure) : M A := fun w => Halt (Rejected f) w.

(** [console.log(message); process.exit(status)] *)
Definition process_exit {A} (status : Z) (why : complaint) : M A :=
  fun w => Halt (Exit status why) w.

(** [for (const x of xs) await body(x)] *)
Fixpoint for_each {A} (xs : list A) (body : A -> M unit) : M unit :=
  match xs with
  | [] => ret tt
  | x :: rest => body x;; for_each rest body
  end.

(** *** The calls of [fs/promises] *)

(** [const exists = (path) => stat(path).then(() => true, () => false)] *)
Definition exists_ (p : pathname) : M bool :=
  let* d := get_disk in ret (is_some_node (stat p d)).

(** [mkdir(p)]: whatever is at the path, a regular file included and
    with or without a trailing separator, makes the call fail with
    [EEXIST]. *)
Definition mkdir (p : pathname) : M unit :=
  call (EvMkdir p);;
  let* d := get_disk in
  match lookup_path p (Some d) with
  | Some _ => reject (FsError EEXIST)
  | None =>
      match graft p (Dir ∅) (Some d) with
      | Some d' => set_disk d'
      | None => reject (FsError (why_missing (dirname p) (Some d)))
      end
  end.

(** [writeFile(p, content)].  The program writes to paths that end in
    a file name, never in a separator: [p] is the list of the
    components. *)
Definition writeFile (p : path) (content : string) : M unit :=
  call (EvWriteFile p content);;
  let* d := get_disk in
  match lookup_path p (Some d) with
  | Some (Dir _) => reject (FsError EISDIR)
  | _ =>
      match graft p (File content) (Some d) with
      | Some d' => set_disk d'
      | None => reject (FsError (why_missing (dirname p) (Some d)))
      end
  end.

(** [rm(p, { recursive: true })] *)
Definition rm (p : pathname) : M unit :=
  call (EvRm p);;
  let* d := get_disk in
  match stat p d with
  | None => reject (FsError (why_missing p (Some d)))
  | Some _ =>
      match prune p (Some d) with
      | Some d' => set_disk d'
      | None => reject (FsError EBUSY)
      end
  end.

(* ================================================================= *)
(** ** The program *)

(** [[
async function makeFolders(path: string) {
    if (!(await exists(dirname(path)))) await makeFolders(dirname(path));
    if (!(await exists(path))) await mkdir(path);
}
]]
    The recursion climbs to the parent only when the parent is
    missing, so it is bounded by the length of the path; the bound is
    the [fuel], and [makeFolders_unfold] below shows that it is never
    used up. *)
Fixpoint makeFolders_fuel (fuel : nat) (p : pathname) : M unit :=
  match fuel with
  | O => ret tt
  | S fuel' =>
      let* parent := exists_ (dirname p) in
      (if negb parent then makeFolders_fuel fuel' (dirname p) else ret tt);;
      let* here := exists_ p in
      if negb here then mkdir p else ret tt
  end.

Definition makeFolders (p : pathname) : M unit :=
  makeFolders_fuel (S (length p)) p.

(** [makeFile(path, cwd, content)]; [cwd] only serves the progress
    line on the console.  Every call of the program hands over a path
    that ends in a file name: [p] is the list of the components. *)
Definition makeFile (p : path) (cwd : path) (content : string) : M unit :=
  makeFolders (dirname p);;
  writeFile p content.

(** *** The template table *)

(** The value of a template entry: [null] for a directory, a string
    for a file text, anything else is written as JSON. *)
Inductive payload : Type :=
| PNull
| PText (text : string)
| PJson (value : json).

(** templates.empty, value of key src/scenes/main.ts (index.ts:48-50). *)
Definition empty_main_ts : string :=
  unlines
    [ "export default function scene() {";
      "    add([ text(" +:+ dq +:+ "Hello, World!" +:+ dq +:+ "), pos(width() / 2, height() / 2) ]);";
      "}" ].

(** templates.basic, value of key src/objects/message.ts (index.ts:55-61). *)
Definition basic_message_ts : string :=
  unlines
    [ "export default function message(content: string) {";
      "    return make([";
      "        text(content, { size: 50 }), //";
      "        anchor(" +:+ dq +:+ "center" +:+ dq +:+ "),";
      "        pos(width() / 2, height() / 2),";
      "    ]);";
      "}" ].

(** templates.basic, value of key src/scenes/main.ts (index.ts:62-68). *)
Definition basic_main_ts : string :=
  unlines
    [ "import message from " +:+ dq +:+ "@objects/message" +:+ dq +:+ ";";
      EmptyString;
      "export default function scene() {";
      "    add(message(" +:+ dq +:+ "Click to go to scene 2." +:+ dq +:+ "));";
      EmptyString;
      "    onClick(() => go(" +:+ dq +:+ "other" +:+ dq +:+ "));";
      "}" ].

(** templates.basic, value of key src/scenes/other.ts (index.ts:69-75). *)
Definition basic_other_ts : string :=
  unlines
    [ "import message from " +:+ dq +:+ "@objects/message" +:+ dq +:+ ";";
      EmptyString;
      "export default function scene() {";
      "    add(message(" +:+ dq +:+ "Click to go to scene 1." +:+ dq +:+ "));";
      EmptyString;
      "    onClick(() => go(" +:+ dq +:+ "main" +:+ dq +:+ "));";
      "}" ].


Inductive template_name : Type := tpl_empty | tpl_basic.

(** [const templates = { empty: {...}, basic: {...} }]; the entries
    in the order [Object.entries] yields them. *)
Definition templates (t : template_name) : list (string * payload) :=
  match t with
  | tpl_empty =>
      [ ("assets", PNull);
        ("src/objects", PNull);
        ("src/components", PNull);
        ("src/scenes/main.ts", PText empty_main_ts) ]
  | tpl_basic =>
      [ ("assets", PNull);
        ("src/components", PNull);
        ("src/objects/message.ts", PText basic_message_ts);
        ("src/scenes/main.ts", PText basic_main_ts);
        ("src/scenes/other.ts", PText basic_other_ts) ]
  end.

(** *** The fixed files of [init] *)

(** The object written to public/manifest.json (index.ts:113-129). *)
Definition manifest_json : json :=
  JObj
    [ ("lang", JStr "en-us");
      ("name", JStr "Kaboomer Game");
      ("short_name", JStr "Kaboomer Game");
      ("description", JStr "A game generated using Kaboomer.");
      ("start_url", JStr "/");
      ("background_color", JStr "#a83a32");
      ("theme_color", JStr "#a83a32");
      ("orientation", JStr "landscape");
      ("display", JStr "standalone");
      ("icons",
        JArr [ JObj [ ("src", JStr "https://kaboomjs.com/static/img/k.png");
                      ("sizes", JStr "160x160") ] ]) ].

(** Text written to src/index.ts (index.ts:149-183). *)
Definition index_ts_text : string :=
  unlines
    [ "// This is the main file that handles loading scenes and importing kaboom.";
      "// You never modify the loadScenes function, but feel free to load some";
      "// global assets using loadSprite, etc.";
      EmptyString;
      "import kaboom from " +:+ dq +:+ "kaboom" +:+ dq +:+ ";";
      "kaboom();";
      EmptyString;
      "// You can add your global asset loading calls here, if you only use an asset in a single scene, then load it in there.";
      "// For example:";
      "// import playerSpriteURL from " +:+ dq +:+ "@assets/player.png" +:+ dq +:+ ";";
      "// loadSprite(" +:+ dq +:+ "player" +:+ dq +:+ ", playerSpriteURL);";
      EmptyString;
      "async function loadScenes() {";
      "    // Get all scene files inside ./scenes";
      "    const scenes = import.meta.glob(" +:+ dq +:+ "./scenes/*.ts" +:+ dq +:+ ");";
      EmptyString;
      "    // A basic regex to match any .ts file inside ./scenes";
      "    const SCENE_FILE = /\.\/scenes\/([^.]+)\.ts/;";
      EmptyString;
      "    for (const scenePath in scenes) {";
      "        // Define the scene.";
      "        const sceneName = scenePath.replace(SCENE_FILE, " +:+ dq +:+ "$1" +:+ dq +:+ ");";
      EmptyString;
      "        scene(sceneName, async (props: any) => {";
      "            const sceneInit: { default: (props: any) => any } = (await scenes[scenePath]()) as any;";
      EmptyString;
      "            sceneInit.default(props);";
      "        });";
      "    }";
      EmptyString;
      "    go(" +:+ dq +:+ "main" +:+ dq +:+ ");";
      "}";
      EmptyString;
      "loadScenes();";
      EmptyString ].

(** Text written to src/constants.ts (index.ts:189-191). *)
Definition constants_ts_text : string :=
  unlines
    [ "// You can define constants here, that you can later access by importing '@constants'";
      EmptyString;
      EmptyString ].

(** Text written to index.html (index.ts:197-215). *)
Definition index_html_text : string :=
  unlines
    [ "<!DOCTYPE html>";
      "<html lang=" +:+ dq +:+ "en" +:+ dq +:+ ">";
      "<head>";
      "    <meta charset=" +:+ dq +:+ "UTF-8" +:+ dq +:+ ">";
      "    <meta name=" +:+ dq +:+ "viewport" +:+ dq +:+ " content=" +:+ dq +:+ "width=device-width, initial-scale=1.0" +:+ dq +:+ ">";
      "    <link rel=" +:+ dq +:+ "manifest" +:+ dq +:+ " href=" +:+ dq +:+ "manifest.json" +:+ dq +:+ ">";
      "    <title>Kaboomer Project</title>";
      "    <style>";
      "        html, body {";
      "            height: 100vh;";
      "            margin: 0;";
      "            overflow: hidden;";
      "        }";
      "    </style>";
      "</head>";
      "<body>";
      "    <script type=" +:+ dq +:+ "module" +:+ dq +:+ " src=" +:+ dq +:+ "src/index.ts" +:+ dq +:+ "></script>";
      "</body>";
      "</html>" ].

(** Text written to vite.config.js (index.ts:294-307). *)
Definition vite_config_text : string :=
  unlines
    [ "import { fileURLToPath, URL } from " +:+ dq +:+ "url" +:+ dq +:+ ";";
      "import { defineConfig } from " +:+ dq +:+ "vite" +:+ dq +:+ ";";
      EmptyString;
      "export default defineConfig({";
      "    resolve: {";
      "        alias: {";
      "            " +:+ dq +:+ "@assets" +:+ dq +:+ ": fileURLToPath(new URL(" +:+ dq +:+ "./assets" +:+ dq +:+ ", import.meta.url)),";
      "            " +:+ dq +:+ "@components" +:+ dq +:+ ": fileURLToPath(new URL(" +:+ dq +:+ "./src/components" +:+ dq +:+ ", import.meta.url)),";
      "            " +:+ dq +:+ "@objects" +:+ dq +:+ ": fileURLToPath(new URL(" +:+ dq +:+ "./src/objects" +:+ dq +:+ ", import.meta.url)),";
      "            " +:+ dq +:+ "@constants" +:+ dq +:+ ": fileURLToPath(new URL(" +:+ dq +:+ "./src/constants.ts" +:+ dq +:+ ", import.meta.url)),";
      "        },";
      "    },";
      "});";
      EmptyString ].

(** The object written to .prettierrc (index.ts:222-225). *)
Definition prettierrc_json : json :=
  JObj [ ("tabWidth", JNum 4); ("printWidth", JNum 120) ].

(** The lines of .gitignore (index.ts:235). *)
Definition gitignore_text : string :=
  join_with nl ["node_modules"; "package-lock.json"; "dist"].

(** [PACKAGE_NAME_REGEX.test(root) ? root : "unnamed-game"] *)
Definition package_name (root : string) : string :=
  if regex_test PACKAGE_NAME_REGEX root then root else "unnamed-game".

(** The object written to package.json (index.ts:244-260). *)
Definition package_json (root : string) : json :=
  JObj
    [ ("name", JStr (package_name root));
      ("version", JStr "0.0.1");
      ("description", JStr "A project scaffolded by Kaboomer.");
      ("main", JStr "dist/index.js");
      ("scripts",
        JObj [ ("dev", JStr "vite .");
               ("start", JStr "vite build && vite preview");
               ("format", JStr "prettier -w src/**") ]);
      ("type", JStr "module");
      ("dependencies", JObj [ ("kaboom", JStr "latest") ]);
      ("devDependencies",
        JObj [ ("vite", JStr "latest"); ("prettier", JStr "latest") ]);
      ("keywords", JArr []);
      ("author", JStr EmptyString);
      ("license", JStr "ISC") ].

(** The object written to tsconfig.json (index.ts:270-285). *)
Definition tsconfig_json : json :=
  JObj
    [ ("compilerOptions",
        JObj
          [ ("strict", JBool true);
            ("lib", JArr [JStr "DOM"; JStr "ESNext"]);
            ("target", JStr "ESNext");
            ("module", JStr "ESNext");
            ("types",
              JArr [ JStr "vite/client";
                     JStr "./node_modules/kaboom/dist/global.d.ts" ]);
            ("moduleResolution", JStr "Bundler");
            ("paths",
              JObj
                [ ("@assets/*", JArr [JStr "./assets/*"]);
                  ("@components/*", JArr [JStr "./src/components/*"]);
                  ("@objects/*", JArr [JStr "./src/objects/*"]);
                  ("@constants", JArr [JStr "./src/constants.ts"]) ]) ]) ].

(** *** The stubs of [add] *)

(** [[
function capitalize(str: string) {
    return str[0].toUpperCase() + str.substring(1).toLowerCase();
}
]]
    [str[0]] is [undefined] for the empty string, and calling a method
    on it throws a [TypeError]: that is [None]. *)
Definition capitalize (str : string) : option string :=
  match str with
  | EmptyString => None
  | String c rest => Some (String (toUpperCase_char c) (toLowerCase rest))
  end.

(** [[
function normalizeName(str: string) {
    return str.replace(/-[a-zA-Z]/, (m) => m[1].toUpperCase());
}
]]
    The pattern has no [g] flag: [replace] rewrites the leftmost
    match only and copies the rest of the string. *)
Fixpoint normalizeName (str : string) : string :=
  match str with
  | EmptyString => EmptyString
  | String c rest =>
      match rest with
      | String d rest' =>
          if Ascii.eqb c "-" && is_letter d
          then String (toUpperCase_char d) rest'
          else String c (normalizeName rest)
      | EmptyString => String c EmptyString
      end
  end.

(** [str] holds no hyphen that is followed by a letter: the pattern
    of [normalizeName] has no match in it. *)
Fixpoint no_hyphen_letter (str : string) : bool :=
  match str with
  | EmptyString => true
  | String c rest =>
      match rest with
      | String d _ =>
          negb (Ascii.eqb c "-" && is_letter d) && no_hyphen_letter rest
      | EmptyString => true
      end
  end.

(** The identifier the specification describes: every hyphen that is
    followed by a letter is dropped and the letter upper-cased. *)
Fixpoint spec_camelCase (str : string) : string :=
  match str with
  | EmptyString => EmptyString
  | String c rest =>
      match rest with
      | String d rest' =>
          if Ascii.eqb c "-" && is_letter d
          then String (toUpperCase_char d) (spec_camelCase rest')
          else String c (spec_camelCase rest)
      | EmptyString => String c EmptyString
      end
  end.

(** The text of a new scene (add action, type scene). *)
Definition scene_stub (variableName : string) : string :=
  unlines
    [ "export default function " +:+ variableName +:+ "() {";
      "    ";
      "}" ].

(** The text of a new object (add action, type object). *)
Definition object_stub (variableName : string) : string :=
  unlines
    [ "export default function " +:+ variableName +:+ "() {";
      "    return make([";
      "        ";
      "    ]);";
      "}" ].

(** The text of a new component (add action, type component);
    [capitalized] is [capitalize(variableName)]. *)
Definition component_stub (name variableName capitalized : string) : string :=
  unlines
    [ "import type { Comp, GameObj } from " +:+ dq +:+ "kaboom" +:+ dq +:+ ";";
      EmptyString;
      "export default function " +:+ variableName +:+ "() {";
      "    return {";
      "        id: " +:+ dq +:+ name +:+ dq +:+ ",";
      "        require: [],";
      "    } satisfies Comp & ThisType<GameObj> & Record<string, any>;";
      "    // To fully type `this` inside component you will need to";
      "    // include their respective Comp variants inside `GameObj<...>`";
      "    // For example if you have: `require: [ " +:+ dq +:+ "pos" +:+ dq
        +:+ " ]` you will need to add";
      "    // `PosComp` to `GameObj<...>`";
      "}";
      EmptyString;
      "export type " +:+ capitalized
        +:+ "Comp = { [K in Exclude<keyof ReturnType<typeof " +:+ variableName
        +:+ ">, keyof Comp>]: ReturnType<typeof " +:+ variableName +:+ ">[K] };";
      EmptyString ].

(** *** The two commands *)

(** How the child process of [exec] ends: the [error] event when it
    could not be spawned, or the [exit] event with its code ([None]
    when a signal ended it).  A child that has run may have written to
    the disk.  The one command of the program is [git init], which
    makes a repository, the entry [.git] of its working directory, and
    touches nothing else: [repository] is the tree that the child has
    left there, [None] when it has left none (git is missing, say). *)
Inductive completion : Type :=
| ChildExit (code : option Z) (repository : option node)
| ChildError.

(** The child that leaves what [child] leaves and exits with code 0. *)
Definition exit_code_zero (child : completion) : completion :=
  match child with
  | ChildExit _ repository => ChildExit (Some 0) repository
  | ChildError => ChildError
  end.

(** The options of [init]. *)
Record options : Type :=
  Options { force : bool; template : template_name; nogit : bool }.

Section Process.

(** [process.cwd()], which has no trailing separator, and what
    happens when a command is run in a directory. *)
Context (cwd : path) (exec : string -> path -> completion).

(** [[
function runCommand(command: string, cwd: string) {
  return new Promise((res, rej) => {
      const child = exec(command, { cwd });
      child.on("error", rej);
      child.on("exit", res);
  });
}
]]
    The promise is fulfilled with the exit code, whatever it is,
    and rejected only by the [error] event.  By the time the child
    exits, what it has written is on the disk. *)
Definition runCommand (command : string) (dir : pathname) : M (option Z) :=
  call (EvExec command dir);;
  match exec command dir with
  | ChildExit c repository =>
      (match repository with
       | Some tree =>
           let* d := get_disk in
           match graft (dir ++ [".git"]) tree (Some d) with
           | Some d' => set_disk d'
           | None => ret tt
           end
       | None => ret tt
       end);;
      ret c
  | ChildError => reject SpawnError
  end.

(** The action of [add <type> <name>]. *)
Definition add (type name : string) : M unit :=
  (if negb (existsb (String.eqb type) ["scene"; "object"; "component"])
   then process_exit 1 BadType else ret tt);;
  let* inside := exists_ (join cwd ["src"; "scenes"]) in
  (if negb inside then process_exit 1 NotInProject else ret tt);;
  let variableName := normalizeName name in
  if String.eqb type "scene" then
    makeFile (join cwd ["src"; "scenes"; name +:+ ".ts"]) cwd
      (scene_stub variableName)
  else if String.eqb type "object" then
    makeFile (join cwd ["src"; "objects"; name +:+ ".ts"]) cwd
      (object_stub variableName)
  else if String.eqb type "component" then
    match capitalize variableName with
    | Some capitalized =>
        makeFile (join cwd ["src"; "components"; name +:+ ".ts"]) cwd
          (component_stub name variableName capitalized)
    | None => reject TypeError
    end
  else ret tt.

(** The action of [init <dir>], first part (index.ts:107-229): the
    root, the manifest, the entries of the template and the files
    that every project gets. *)
Definition write_sources (projectRoot : pathname) (opts : options) : M unit :=
  makeFolders projectRoot;;
  makeFile (join projectRoot ["public"; "manifest.json"]) projectRoot
    (JSON_stringify manifest_json 4);;
  makeFolders (join projectRoot ["assets"]);;
  let usedTemplate := templates (template opts) in
  for_each usedTemplate (fun entry =>
    let realPath := join projectRoot (split_slash (fst entry)) in
    match snd entry with
    | PNull => makeFolders realPath
    | PText fileValue => makeFile realPath projectRoot fileValue
    | PJson fileValue =>
        makeFile realPath projectRoot (JSON_stringify fileValue 4)
    end);;
  makeFile (join projectRoot ["src"; "index.ts"]) projectRoot index_ts_text;;
  makeFile (join projectRoot ["src"; "constants.ts"]) projectRoot
    constants_ts_text;;
  makeFile (join projectRoot ["index.html"]) projectRoot index_html_text;;
  makeFile (join projectRoot [".prettierrc"]) projectRoot
    (JSON_stringify prettierrc_json 4).

(** Second part (index.ts:231-238): [if (!opts.nogit) { ... }]. *)
Definition init_git (projectRoot : pathname) (opts : options) : M unit :=
  if negb (nogit opts) then
    makeFile (join projectRoot [".gitignore"]) projectRoot gitignore_text;;
    runCommand "git init" projectRoot;;
    ret tt
  else ret tt.

(** Third part (index.ts:240-308). *)
Definition write_configs (projectRoot : pathname) (root : string) : M unit :=
  makeFile (join projectRoot ["package.json"]) projectRoot
    (JSON_stringify (package_json root) 4);;
  makeFile (join projectRoot ["tsconfig.json"]) projectRoot
    (JSON_stringify tsconfig_json 4);;
  makeFile (join projectRoot ["vite.config.js"]) projectRoot vite_config_text.

(** The action of [init <dir>] from [makeFolders(projectRoot)] to its
    end (index.ts:107-317), the three parts in the order of the
    source. *)
Definition scaffold (projectRoot : pathname) (root : string) (opts : options)
  : M unit :=
  write_sources projectRoot opts;;
  init_git projectRoot opts;;
  write_configs projectRoot root.

(** The action of [init <dir>]: the collision check (index.ts:91-99),
    then [scaffold]. *)
Definition init (root : string) (opts : options) : M unit :=
  let projectRoot := join cwd [root] in
  let* taken := exists_ projectRoot in
  (if taken then
     (if negb (force opts) then process_exit 1 AlreadyExists else ret tt);;
     rm projectRoot
   else ret tt);;
  scaffold projectRoot root opts.

End Process.

(* ================================================================= *)
(** ** Vocabulary of the specification *)

(** How a computation stopped, if it did. *)
Definition halted {A} (r : result A) : option halt :=
  match r with
  | Ret _ _ => None
  | Halt h _ => Some h
  end.

(** [emits P m]: in every world, the calls that [m] adds to the log,
    together with the way [m] ends, satisfy [P]. *)
Definition emits {A} (P : option halt -> list event -> Prop) (m : M A) : Prop :=
  forall w, exists l,
    calls (world_of (m w)) = calls w ++ l /\ P (halted (m w)) l.

(** [only Q m]: every call that [m] issues satisfies [Q]. *)
Definition only {A} (Q : event -> Prop) (m : M A) : Prop :=
  emits (fun _ l => Forall Q l) m.

(** The files of a template: its entries that are not [null], with
    the text that is written. *)
Definition template_files (t : template_name) : list (path * string) :=
  omap (fun entry =>
          match snd entry with
          | PNull => None
          | PText text => Some (split_slash (fst entry), text)
          | PJson value => Some (split_slash (fst entry), JSON_stringify value 4)
          end) (templates t).

(** The auxiliary files, the same for every template. *)
Definition auxiliary_files (root : string) (nogit : bool) : list (path * string) :=
  [ (["public"; "manifest.json"], JSON_stringify manifest_json 4);
    (["src"; "index.ts"], index_ts_text);
    (["src"; "constants.ts"], constants_ts_text);
    (["index.html"], index_html_text);
    ([".prettierrc"], JSON_stringify prettierrc_json 4) ]
  ++ (if nogit then [] else [ ([".gitignore"], gitignore_text) ])
  ++ [ (["package.json"], JSON_stringify (package_json root) 4);
       (["tsconfig.json"], JSON_stringify tsconfig_json 4);
       (["vite.config.js"], vite_config_text) ].

(** What the child of [init] has left at [.git] in the project root
    [R]: nothing with [nogit], and nothing when it could not be
    spawned. *)
Definition repository_of (exec : string -> path -> completion) (R : path)
    (opts : options) : option node :=
  if nogit opts then None
  else match exec "git init" R with
       | ChildExit _ repository => repository
       | ChildError => None
       end.

(** The files of a project, under their paths relative to the root:
    those of the two tables, and the files of the repository under
    [.git]. *)
Definition project_file (root : string) (opts : options)
    (repository : option node) (rel : path) (c : string) : Prop :=
  In (rel, c) (auxiliary_files root (nogit opts)
               ++ template_files (template opts)) \/
  exists q, rel = ".git" :: q /\ lookup_path q repository = Some (File c).

(** The base name of a path, as [path.basename] gives it: the last
    component that is not empty. *)
Definition spec_basename (s : string) : string :=
  default EmptyString
    (last (filter (fun seg => negb (String.eqb seg EmptyString)) (split_slash s))).

(** The calls of one run of [init] on the root [R]: directories are
    made on the way to [R] and below it, files are written below [R]
    and are those of the two tables, only [R] is removed and only
    [git init] is run. *)
Definition accounted (R : path) (root : string) (opts : options) (e : event) : Prop :=
  match e with
  | EvMkdir p => R `prefix_of` p \/ p `prefix_of` R
  | EvWriteFile p c =>
      exists rel, p = R ++ rel /\ rel <> [] /\
        In (rel, c) (auxiliary_files root (nogit opts)
                     ++ template_files (template opts))
  | EvRm p => p = R
  | EvExec command dir => command = "git init" /\ dir = R /\ nogit opts = false
  end.

(** The auxiliary files whose text is a constant of the program. *)
Definition invariant_files : list (path * string) :=
  [ (["public"; "manifest.json"], JSON_stringify manifest_json 4);
    (["index.html"], index_html_text);
    (["src"; "index.ts"], index_ts_text);
    (["src"; "constants.ts"], constants_ts_text);
    ([".prettierrc"], JSON_stringify prettierrc_json 4);
    (["tsconfig.json"], JSON_stringify tsconfig_json 4);
    (["vite.config.js"], vite_config_text) ].

(* ================================================================= *)
(** ** Sample worlds *)

(** A disk with the one directory /home and an empty log. *)
Definition home_world : world := World (Dir {[ "home" := Dir ∅ ]}) [].

(** A disk where /home holds a scaffolded project without objects
    and components: only src/scenes/main.ts. *)
Definition project_world : world :=
  World
    (Dir {[ "home" :=
              Dir {[ "src" :=
                       Dir {[ "scenes" :=
                                Dir {[ "main.ts" := File empty_main_ts ]} ]} ]} ]})
    [].

(** A disk where the root /home/game is taken by an earlier project. *)
Definition taken_world : world :=
  World
    (Dir {[ "home" :=
              Dir {[ "game" := Dir {[ "save.dat" := File "level 3" ]} ]} ]})
    [].

(** A disk where /home/src/scenes is a regular file. *)
Definition notes_world : world :=
  World
    (Dir {[ "home" := Dir {[ "src" := Dir {[ "scenes" := File "notes" ]} ]} ]})
    [].

(** Children that exit with a given code and leave nothing, and a
    child that cannot be spawned. *)
Definition exits_with (code : Z) : string -> path -> completion :=
  fun _ _ => ChildExit (Some code) None.
Definition cannot_spawn : string -> path -> completion :=
  fun _ _ => ChildError.

(** [git init] as it is meant to go: the child exits with code 0 and
    leaves a repository (cut down to one file here). *)
Definition sample_repository : node :=
  Dir {[ "HEAD" := File "ref: refs/heads/main" ]}.
Definition git_init : string -> path -> completion :=
  fun _ _ => ChildExit (Some 0) (Some sample_repository).

Definition default_options : options := Options false tpl_basic false.

(** The three files that [init] writes after the git step. *)
Definition config_paths (R : path) : list path :=
  [ R ++ ["package.json"]; R ++ ["tsconfig.json"]; R ++ ["vite.config.js"] ].

(** A call that comes before the git step: no command is run and
    none of the three configuration files is written. *)
Definition before_git (R : path) (e : event) : Prop :=
  match e with
  | EvExec _ _ => False
  | EvWriteFile p _ => ~ In p (config_paths R)
  | _ => True
  end.

(** A call that comes after the git step: a directory is made or one
    of the three configuration files is written; nothing is removed
    and no command is run. *)
Definition after_git (R : path) (e : event) : Prop :=
  match e with
  | EvMkdir _ => True
  | EvWriteFile p _ => In p (config_paths R)
  | _ => False
  end.

(** The calls of a run of [init] with [nogit] off, and the way it
    ends: either the run stops before the git step, or it runs
    [git init] once, [before_git] calls before it and [after_git]
    calls after it; when the child cannot be spawned the command is
    the last call and the run is rejected with [SpawnError]. *)
Definition around_git (R : path) (child : completion)
    (o : option halt) (l : list event) : Prop :=
  (o <> None /\ Forall (before_git R) l) \/
  (exists l1 l2,
      l = l1 ++ EvExec "git init" R :: l2 /\
      Forall (before_git R) l1 /\ Forall (after_git R) l2 /\
      match child with
      | ChildError => l2 = [] /\ o = Some (Rejected SpawnError)
      | ChildExit _ _ => True
      end).

(** The directories of a template: its [null] entries. *)
Definition template_dirs (t : template_name) : list path :=
  omap (fun entry =>
          match snd entry with
          | PNull => Some (split_slash (fst entry))
          | _ => None
          end) (templates t).

(** *** A computation seen from inside a directory *)

(** The call [e], issued on paths relative to [R], as it reads from
    the root of the disk. *)
Definition shift (R : path) (e : event) : event :=
  match e with
  | EvMkdir p => EvMkdir (R ++ p)
  | EvWriteFile p c => EvWriteFile (R ++ p) c
  | EvRm p => EvRm (R ++ p)
  | EvExec command dir => EvExec command (R ++ dir)
  end.

(** The result [r] with its world replaced by [w]. *)
Definition relabel {A} (r : result A) (w : world) : result A :=
  match r with
  | Ret a _ => Ret a w
  | Halt h _ => Halt h w
  end.

(** [local_at R mg ml]: run where something exists at [R], [mg] does
    to the disk below [R] what [ml] does to a disk of its own, ends
    the way [ml] ends, and issues the calls of [ml] shifted by [R]. *)
Definition local_at {A} (R : path) (mg ml : M A) : Prop :=
  forall wg wl,
    lookup_path R (Some (disk wg)) = Some (disk wl) ->
    exists d' lnew,
      graft R (disk (world_of (ml wl))) (Some (disk wg)) = Some d' /\
      calls (world_of (ml wl)) = calls wl ++ lnew /\
      mg wg = relabel (ml wl) (World d' (calls wg ++ map (shift R) lnew)).

(** *** Listing a tree *)

(** The files of a tree with their paths, down to depth [fuel]. *)
Fixpoint files_of (fuel : nat) (n : node) : list (path * string) :=
  match fuel with
  | O => []
  | S k =>
      match n with
      | File c => [([], c)]
      | Dir es =>
          flat_map (fun entry =>
                      map (fun pc => (fst entry :: fst pc, snd pc))
                          (files_of k (snd entry)))
                   (map_to_list es)
      end
  end.

(** The tree is less than [fuel] levels deep. *)
Fixpoint shallow (fuel : nat) (n : node) : bool :=
  match fuel with
  | O => false
  | S k =>
      match n with
      | File _ => true
      | Dir es => forallb (fun entry => shallow k (snd entry)) (map_to_list es)
      end
  end.

(* ================================================================= *)
(** ** Vocabulary of the further properties *)

(** The directories on the way to [p], outermost first and [p] last;
    the root of the disk is not listed. *)
Fixpoint ancestry (p : path) : list path :=
  match p with
  | [] => []
  | s :: r => [s] :: map (cons s) (ancestry r)
  end.

(** Those of them that are missing on the disk [d]. *)
Definition missing_dirs (p : path) (d : node) : list path :=
  List.filter (fun q => negb (is_some_node (lookup_path q (Some d))))
    (ancestry p).

(** The three kinds of [add] with their directories, and the text
    that [add] writes for a kind and a name. *)
Definition kinds : list (string * string) :=
  [ ("scene", "scenes"); ("object", "objects"); ("component", "components") ].

Definition stub_text (type name : string) : string :=
  if String.eqb type "scene" then scene_stub (normalizeName name)
  else if String.eqb type "object" then object_stub (normalizeName name)
  else component_stub name (normalizeName name)
         (default EmptyString (capitalize (normalizeName name))).

(** Every character of [s] satisfies [f]. *)
Fixpoint all_chars (f : ascii -> bool) (s : string) : bool :=
  match s with
  | EmptyString => true
  | String c r => f c && all_chars f r
  end.

(** Every character class of [r] lies inside [f]. *)
Fixpoint regex_over (f : ascii -> bool) (r : regex) : Prop :=
  match r with
  | RVoid | REps => True
  | RClass items => forall c, class_has items c = true -> f c = true
  | RCat r1 r2 | RAlt r1 r2 => regex_over f r1 /\ regex_over f r2
  | RStar r1 => regex_over f r1
  end.

(** The characters of a package name: those of [name_tail], the at
    sign and the slash. *)
Definition name_char (c : ascii) : bool :=
  class_has name_tail c || Ascii.eqb c "@" || Ascii.eqb c "/".

(** A name without a scope: a character of [name_head], then
    characters of [name_tail]. *)
Definition bare_name (s : string) : bool :=
  match s with
  | EmptyString => false
  | String c r => class_has name_head c && all_chars (class_has name_tail) r
  end.

(** The part of [s] before its first slash and the part after it. *)
Fixpoint until_slash (s : string) : option (string * string) :=
  match s with
  | EmptyString => None
  | String c r =>
      if Ascii.eqb c "/" then Some (EmptyString, r)
      else match until_slash r with
           | Some (a, b) => Some (String c a, b)
           | None => None
           end
  end.

(** A bare name, or an at sign, a bare name, a slash and a bare
    name. *)
Definition scoped_or_bare (s : string) : bool :=
  match s with
  | EmptyString => false
  | String c r =>
      if Ascii.eqb c "@" then
        match until_slash r with
        | Some (a, b) => bare_name a && bare_name b
        | None => false
        end
      else bare_name s
  end.

(** *** How a run of [init] ends *)

(** The git step: skipped with [nogit], failed when the child cannot
    be spawned, passed whatever the exit code. *)
Definition git_verdict (exec : string -> path -> completion)
    (R : path) (opts : options) : option halt :=
  if nogit opts then None
  else match exec "git init" R with
       | ChildError => Some (Rejected SpawnError)
       | ChildExit _ _ => None
       end.

(** The end of [init] as the disk, the options and the child decide
    it: a root that [stat] finds needs [force]; a regular file that
    [stat] does not find, the root being given with a trailing
    separator, makes [mkdir] fail; a root that is missing must not
    have a regular file on the way to it; then the git step decides. *)
Definition init_verdict (cwd : path) (exec : string -> path -> completion)
    (root : string) (opts : options) (d : node) : option halt :=
  let R := join cwd [root] in
  if is_some_node (stat R d) then
    if force opts then git_verdict exec R opts
    else Some (Exit 1 AlreadyExists)
  else if is_some_node (lookup_path R (Some d)) then
    Some (Rejected (FsError EEXIST))
  else if creatable R (Some d) then git_verdict exec R opts
  else Some (Rejected (FsError ENOTDIR)).

(** The files that [init] has written when the git step is reached:
    those of the two tables without the three of [config_paths]. *)
Definition source_files (opts : options) : list (path * string) :=
  [ (["public"; "manifest.json"], JSON_stringify manifest_json 4) ]
  ++ template_files (template opts)
  ++ [ (["src"; "index.ts"], index_ts_text);
       (["src"; "constants.ts"], constants_ts_text);
       (["index.html"], index_html_text);
       ([".prettierrc"], JSON_stringify prettierrc_json 4);
       ([".gitignore"], gitignore_text) ].

(** *** The calls of [init] *)

(** The calls that the entries of a template lead to in a project
    root that holds public and assets only, paths relative to the
    root. *)
Definition template_script (t : template_name) : list event :=
  match t with
  | tpl_empty =>
      [ EvMkdir ["src"];
        EvMkdir ["src"; "objects"];
        EvMkdir ["src"; "components"];
        EvMkdir ["src"; "scenes"];
        EvWriteFile ["src"; "scenes"; "main.ts"] empty_main_ts ]
  | tpl_basic =>
      [ EvMkdir ["src"];
        EvMkdir ["src"; "components"];
        EvMkdir ["src"; "objects"];
        EvWriteFile ["src"; "objects"; "message.ts"] basic_message_ts;
        EvMkdir ["src"; "scenes"];
        EvWriteFile ["src"; "scenes"; "main.ts"] basic_main_ts;
        EvWriteFile ["src"; "scenes"; "other.ts"] basic_other_ts ]
  end.

(** The calls of [init] in a project root that is empty, in their
    order, paths relative to the root. *)
Definition init_script (root : string) (opts : options) : list event :=
  [ EvMkdir ["public"];
    EvWriteFile ["public"; "manifest.json"] (JSON_stringify manifest_json 4);
    EvMkdir ["assets"] ]
  ++ template_script (template opts)
  ++ [ EvWriteFile ["src"; "index.ts"] index_ts_text;
       EvWriteFile ["src"; "constants.ts"] constants_ts_text;
       EvWriteFile ["index.html"] index_html_text;
       EvWriteFile [".prettierrc"] (JSON_stringify prettierrc_json 4) ]
  ++ (if nogit opts then []
      else [ EvWriteFile [".gitignore"] gitignore_text;
             EvExec "git init" [] ])
  ++ [ EvWriteFile ["package.json"] (JSON_stringify (package_json root) 4);
       EvWriteFile ["tsconfig.json"] (JSON_stringify tsconfig_json 4);
       EvWriteFile ["vite.config.js"] vite_config_text ].

(** The calls of a run of [init] that goes as far as it can on the
    disk [d]: a root that [stat] finds is removed and made again
    (without [force] it gets no call); a regular file that [stat] does
    not find, the root being given with a trailing separator, gets the
    one [mkdir] that fails; a root that is missing is made with its
    missing ancestors; then comes the script. *)
Definition init_calls (cwd : path) (root : string) (opts : options) (d : node)
  : list event :=
  let R := join cwd [root] in
  if is_some_node (stat R d) then
    if force opts
    then EvRm R :: EvMkdir R :: map (shift R) (init_script root opts)
    else []
  else if is_some_node (lookup_path R (Some d)) then [EvMkdir R]
  else map EvMkdir (missing_dirs R d) ++ map (shift R) (init_script root opts).

(** The paths that the calls of a log write to. *)
Definition written (l : list event) : list path :=
  omap (fun e => match e with EvWriteFile p _ => Some p | _ => None end) l.

(** [p] is a directory of the tree [n], and its entries are regular
    files. *)
Definition holds_files_only (p : path) (n : node) : bool :=
  match lookup_path p (Some n) with
  | Some (Dir es) =>
      forallb (fun entry => negb (is_dir (Some (snd entry)))) (map_to_list es)
  | _ => false
  end.

(** *** The closing lines of [init] *)

(** [s.split(" ")] *)
Fixpoint split_space (s : string) : list string :=
  match s with
  | EmptyString => [EmptyString]
  | String c r =>
      if Ascii.eqb c " " then EmptyString :: split_space r
      else match split_space r with
           | [] => [String c EmptyString]
           | w :: ws => String c w :: ws
           end
  end.

Fixpoint has_space (s : string) : bool :=
  match s with
  | EmptyString => false
  | String c r => Ascii.eqb c " " || has_space r
  end.

Section Hints.

(** [chalk.green], which wraps a text into colour codes. *)
Context (green : string -> string).

(** [[
const recommendedCommands = [`cd ${root}`, `npm i`, `npm run dev`];
for (const command of recommendedCommands) {
    const [commandName, ...commandArgs] = command.split(" ");
    console.log(`    ${chalk.green(commandName)} ${commandArgs.join(" ")}`);
}
]]
    (index.ts:310-317): the lines that are printed. *)
Definition recommendedCommands (root : string) : list string :=
  [ "cd " +:+ root; "npm i"; "npm run dev" ].

Definition hint_line (command : string) : string :=
  match split_space command with
  | commandName :: commandArgs =>
      "    " +:+ green commandName +:+ " " +:+ join_with " " commandArgs
  | [] => "    " +:+ green "undefined" +:+ " "
  end.

Definition hint_lines (root : string) : list string :=
  map hint_line (recommendedCommands root).

End Hints.

(** The characters of [s] are ASCII characters: on them the model of
    [toUpperCase] and [toLowerCase] is exact. *)
Definition ascii_only (s : string) : bool :=
  all_chars (fun c => Nat.ltb (code c) 128) s.

(* ================================================================= *)
(** * Properties *)

(** ** The matcher decides the language *)

Section RegexFacts.

Lemma append_nil_l (s : string) : EmptyString +:+ s = s.
Proof. reflexivity. Qed.

Lemma append_cons c (s t : string) : String c s +:+ t = String c (s +:+ t).
Proof. reflexivity. Qed.

Lemma append_empty_r (s : string) : s +:+ EmptyString = s.
Proof.
  induction s as [|c s IH]; [done | ]. by rewrite append_cons, IH.
Qed.

Lemma append_is_empty (s1 s2 : string) :
  s1 +:+ s2 = EmptyString -> s1 = EmptyString /\ s2 = EmptyString.
Proof.
  destruct s1; [ by rewrite append_nil_l | rewrite append_cons; discriminate ].
Qed.

Lemma matches_empty_nullable r s :
  Matches r s -> s = EmptyString -> nullable r = true.
Proof.
  induction 1 as [ | items c Hc | r1 r2 s1 s2 _ IH1 _ IH2 | r1 r2 s _ IH
                 | r1 r2 s _ IH | r | r s1 s2 _ _ _ _ ]; intros Hs; simpl;
    try done.
  - apply append_is_empty in Hs as [-> ->]. by rewrite IH1, IH2.
  - by rewrite IH.
  - rewrite IH by done. apply orb_true_r.
Qed.

Lemma nullable_matches_empty r :
  nullable r = true -> Matches r EmptyString.
Proof.
  induction r as [ | | items | r1 IH1 r2 IH2 | r1 IH1 r2 IH2 | r IH ];
    simpl; intros Hn; try discriminate.
  - constructor.
  - apply andb_true_iff in Hn as [H1 H2].
    change EmptyString with (EmptyString +:+ EmptyString).
    constructor; auto.
  - apply orb_true_iff in Hn as [H1 | H2];
      [apply MAltL | apply MAltR]; auto.
  - constructor.
Qed.

(** Reading one character: from the derivative back to the
    expression. *)
Lemma deriv_sound c r : forall s,
  Matches (deriv c r) s -> Matches r (String c s).
Proof.
  induction r as [ | | items | r1 IH1 r2 IH2 | r1 IH1 r2 IH2 | r IH ];
    simpl; intros s Hm.
  - inversion Hm.
  - inversion Hm.
  - destruct (class_has items c) eqn:Hc; inversion Hm; subst.
    by constructor.
  - assert (Hcat : forall t, Matches (RCat (deriv c r1) r2) t ->
                             Matches (RCat r1 r2) (String c t)).
    { intros t Ht. inversion Ht as [ | | ? ? s1 s2 Ha Hb | | | | ]; subst.
      change (String c (s1 +:+ s2)) with (String c s1 +:+ s2).
      constructor; auto. }
    destruct (nullable r1) eqn:Hn; [ | by apply Hcat ].
    inversion Hm; subst; [ by apply Hcat | ].
    change (String c s) with (EmptyString +:+ String c s).
    constructor; [ by apply nullable_matches_empty | auto ].
  - inversion Hm; subst; [apply MAltL | apply MAltR]; auto.
  - inversion Hm as [ | | ? ? s1 s2 Ha Hb | | | | ]; subst.
    change (String c (s1 +:+ s2)) with (String c s1 +:+ s2).
    apply MStarApp; auto.
Qed.

(** ... and from the expression to the derivative. *)
Lemma deriv_complete r t :
  Matches r t -> forall c s, t = String c s -> Matches (deriv c r) s.
Proof.
  induction 1 as [ | items d Hd | r1 r2 s1 s2 H1 IH1 H2 IH2 | r1 r2 s0 _ IH
                 | r1 r2 s0 _ IH | r | r s1 s2 H1 IH1 H2 IH2 ];
    intros c s Heq; simpl.
  - discriminate.
  - injection Heq as -> <-. rewrite Hd. constructor.
  - destruct s1 as [|c1 s1'].
    + rewrite append_nil_l in Heq. subst s2.
      rewrite (matches_empty_nullable _ _ H1 eq_refl).
      apply MAltR. by apply IH2.
    + rewrite append_cons in Heq. injection Heq as -> <-.
      assert (Hc : Matches (RCat (deriv c r1) r2) (s1' +:+ s2))
        by (constructor; auto).
      destruct (nullable r1); [ by apply MAltL | done ].
  - apply MAltL. by apply IH.
  - apply MAltR. by apply IH.
  - discriminate.
  - destruct s1 as [|c1 s1'].
    + rewrite append_nil_l in Heq. by apply IH2.
    + rewrite append_cons in Heq. injection Heq as -> <-.
      constructor; auto.
Qed.

Lemma regex_test_spec r s : regex_test r s = true <-> Matches r s.
Proof.
  revert r. induction s as [|c s IH]; intros r; simpl.
  - split; [ apply nullable_matches_empty
           | intros H; by eapply matches_empty_nullable ].
  - rewrite IH. split; [ apply deriv_sound | intros H; by eapply deriv_complete ].
Qed.

End RegexFacts.

(* ================================================================= *)
(** ** Paths *)

Section PathFacts.

Lemma normalize_onto_plain segs : forall stack,
  forallb plain segs = true ->
  normalize_onto stack segs = rev stack ++ segs.
Proof.
  induction segs as [|seg rest IH]; intros stack Hp; simpl.
  - by rewrite app_nil_r.
  - simpl in Hp. apply andb_true_iff in Hp as [Hseg Hrest].
    unfold plain in Hseg. apply negb_true_iff in Hseg.
    apply orb_false_iff in Hseg as [Hseg Hdd].
    rewrite Hseg, Hdd. rewrite IH by done. simpl.
    by rewrite <- app_assoc.
Qed.

Lemma normalize_onto_app a : forall stack b,
  normalize_onto stack (a ++ b)
  = normalize_onto (rev (normalize_onto stack a)) b.
Proof.
  induction a as [|seg rest IH]; intros stack b; simpl.
  - by rewrite rev_involutive.
  - destruct (String.eqb seg EmptyString || String.eqb seg ".");
      [ apply IH | ].
    destruct (String.eqb seg ".."); apply IH.
Qed.

Lemma forallb_plain_tail (stack : list string) :
  forallb plain stack = true -> forallb plain (tail stack) = true.
Proof. destruct stack; simpl; [done | ]. by intros [_ ?]%andb_true_iff. Qed.

Lemma normalize_onto_is_plain segs : forall stack,
  forallb plain stack = true ->
  forallb plain (normalize_onto stack segs) = true.
Proof.
  induction segs as [|seg rest IH]; intros stack Hs; simpl.
  - rewrite forallb_forall in *. intros x Hx. apply Hs. by apply in_rev.
  - destruct (String.eqb seg EmptyString || String.eqb seg ".") eqn:H1;
      [ by apply IH | ].
    destruct (String.eqb seg "..") eqn:H2.
    + apply IH. by apply forallb_plain_tail.
    + apply IH. simpl. rewrite Hs. unfold plain. by rewrite H1, H2.
Qed.

(** What [join] returns is normalised. *)
Lemma join_is_plain (base : pathname) args :
  forallb plain (join base args) = true.
Proof. by apply normalize_onto_is_plain. Qed.

(** The components of what [join] returns do not depend on the
    separator at the end of [base]. *)
Lemma join_components (base : pathname) args :
  components (join base args) = components (join (Plain base) args).
Proof. reflexivity. Qed.

(** Joining plain components onto a normalised path appends them. *)
Lemma join_plain (base : pathname) args :
  forallb plain base = true ->
  forallb plain (concat (map split_slash args)) = true ->
  components (join base args) = base ++ concat (map split_slash args).
Proof.
  intros Hb Ha. unfold join. cbn [components].
  rewrite normalize_onto_plain; [done | ].
  rewrite forallb_app. by rewrite Hb, Ha.
Qed.

(** Joining plain components onto any directory appends them to the
    normalised directory. *)
Lemma join_onto (base : pathname) args :
  forallb plain (concat (map split_slash args)) = true ->
  components (join base args)
  = components (join base []) ++ concat (map split_slash args).
Proof.
  intros Ha. unfold join. cbn [components map concat]. rewrite app_nil_r.
  rewrite normalize_onto_app, normalize_onto_plain by done.
  by rewrite rev_involutive.
Qed.

(** A path without a trailing separator is given by its components. *)
Lemma pathname_plain (p : pathname) : trailing p = false -> p = Plain p.
Proof. destruct p as [c t]. cbn. by intros ->. Qed.

Lemma has_slash_append (s t : string) :
  has_slash (s +:+ t) = has_slash s || has_slash t.
Proof.
  induction s as [|c s IH]; [done | ].
  rewrite append_cons. simpl. rewrite IH. by rewrite orb_assoc.
Qed.

Lemma split_slash_whole (s : string) :
  has_slash s = false -> split_slash s = [s].
Proof.
  induction s as [|c s IH]; simpl; [done | ].
  intros [Hc Hs]%orb_false_iff. rewrite Hc. by rewrite IH.
Qed.

Lemma plain_long c1 c2 c3 (s : string) :
  plain (String c1 (String c2 (String c3 s))) = true.
Proof.
  unfold plain. simpl.
  destruct (Ascii.eqb c1 "."); simpl; [ | done ].
  destruct (Ascii.eqb c2 "."); simpl; done.
Qed.

(** A file name [name.ts] is a plain component. *)
Lemma plain_ts (name : string) : plain (name +:+ ".ts") = true.
Proof.
  destruct name as [|c1 [|c2 [|c3 s]]]; rewrite ?append_cons, ?append_nil_l;
    apply plain_long.
Qed.

Lemma dirname_snoc (q : path) (s : string) : dirname (q ++ [s]) = q.
Proof. unfold dirname. by rewrite removelast_last. Qed.

(** Two paths are comparable, or they part at some component. *)
Lemma path_trichotomy (a : path) : forall b : path,
  a `prefix_of` b \/ b `prefix_of` a \/
  exists q s s' r r', s <> s' /\ a = q ++ s :: r /\ b = q ++ s' :: r'.
Proof.
  induction a as [|x a IH]; intros [|y b].
  - left. by exists [].
  - left. by exists (y :: b).
  - right; left. by exists (x :: a).
  - destruct (decide (x = y)) as [->|Hne].
    + destruct (IH b) as [[k ->] | [[k ->] | (q & s & s' & r & r' & Hs & -> & ->)]].
      * left. by exists k.
      * right; left. by exists k.
      * right; right. by exists (y :: q), s, s', r, r'.
    + right; right. by exists [], x, y, a, b.
Qed.

End PathFacts.

(* ================================================================= *)
(** ** The disk *)

Section DiskFacts.

Lemma lookup_path_None p : lookup_path p None = None.
Proof. by destruct p. Qed.

Lemma lookup_path_File p c :
  p <> [] -> lookup_path p (Some (File c)) = None.
Proof. by destruct p. Qed.

Lemma lookup_path_empty_dir p :
  p <> [] -> lookup_path p (Some (Dir ∅)) = None.
Proof.
  destruct p as [|s p]; [done | ]. intros _. simpl.
  rewrite lookup_empty. apply lookup_path_None.
Qed.

Lemma lookup_path_app a : forall b on,
  lookup_path (a ++ b) on = lookup_path b (lookup_path a on).
Proof.
  induction a as [|s a IH]; intros b on; simpl; [done | ].
  destruct on as [[c|es]|]; auto using lookup_path_None.
  all: by rewrite lookup_path_None.
Qed.

(** Below a missing entry nothing exists. *)
Lemma lookup_path_below_None a b on :
  lookup_path a on = None -> lookup_path (a ++ b) on = None.
Proof. intros H. rewrite lookup_path_app, H. apply lookup_path_None. Qed.

(** What lies above an existing entry is a directory. *)
Lemma lookup_path_above q s r on n :
  lookup_path (q ++ s :: r) on = Some n ->
  exists es, lookup_path q on = Some (Dir es).
Proof.
  rewrite lookup_path_app. simpl.
  destruct (lookup_path q on) as [[c|es]|]; try discriminate. eauto.
Qed.

Lemma lookup_path_dirname p on :
  is_some_node (lookup_path p on) = true ->
  is_some_node (lookup_path (dirname p) on) = true.
Proof.
  destruct p as [|x p0] using rev_ind; [done | ].
  rewrite dirname_snoc. rewrite lookup_path_app. simpl.
  by destruct (lookup_path p0 on) as [[c|es]|].
Qed.

Lemma graft_app a : forall b x on,
  graft (a ++ b) x on
  = match graft b x (lookup_path a on) with
    | Some y => graft a y on
    | None => None
    end.
Proof.
  induction a as [|s a IH]; intros b x on; simpl.
  - by destruct (graft b x on).
  - destruct on as [[c|es]|].
    + by destruct (graft b x None).
    + rewrite IH. by destruct (graft b x (lookup_path a (es !! s))).
    + by destruct (graft b x None).
Qed.

Lemma lookup_graft p : forall x on d',
  graft p x on = Some d' -> lookup_path p (Some d') = Some x.
Proof.
  induction p as [|s p IH]; intros x on d' Hg; simpl in *.
  - congruence.
  - destruct on as [[c|es]|]; try discriminate.
    destruct (graft p x (es !! s)) as [c'|] eqn:Hc; [ | discriminate ].
    injection Hg as <-. rewrite lookup_insert_eq. eauto.
Qed.

Lemma lookup_graft_below p r x on d' :
  graft p x on = Some d' ->
  lookup_path (p ++ r) (Some d') = lookup_path r (Some x).
Proof.
  intros Hg. rewrite lookup_path_app. by rewrite (lookup_graft _ _ _ _ Hg).
Qed.

(** Grafting leaves alone what lies on another branch. *)
Lemma lookup_graft_aside q : forall s s' r r' x on d',
  s <> s' ->
  graft (q ++ s :: r) x on = Some d' ->
  lookup_path (q ++ s' :: r') (Some d') = lookup_path (q ++ s' :: r') on.
Proof.
  induction q as [|t q IH]; intros s s' r r' x on d' Hne Hg; simpl in *.
  - destruct on as [[c|es]|]; try discriminate.
    destruct (graft r x (es !! s)) as [c'|]; [ | discriminate ].
    injection Hg as <-. by rewrite lookup_insert_ne.
  - destruct on as [[c|es]|]; try discriminate.
    destruct (graft (q ++ s :: r) x (es !! t)) as [c'|] eqn:Hc;
      [ | discriminate ].
    injection Hg as <-. rewrite lookup_insert_eq.
    destruct (es !! t) as [n|] eqn:Ht.
    + eapply IH; eauto.
    + destruct q; discriminate.
Qed.

(** An entry can be put wherever something already is ... *)
Lemma graft_over p : forall x on n,
  lookup_path p on = Some n -> is_Some (graft p x on).
Proof.
  induction p as [|s p IH]; intros x on n Hl; simpl in *; [ eauto | ].
  destruct on as [[c|es]|]; try discriminate.
  destruct (IH x _ _ Hl) as [c' ->]. eauto.
Qed.

(** ... and directly inside an existing directory. *)
Lemma graft_into q s x on es :
  lookup_path q on = Some (Dir es) ->
  exists d', graft (q ++ [s]) x on = Some d' /\
             graft q (Dir (<[s := x]> es)) on = Some d'.
Proof.
  intros Hl. rewrite graft_app, Hl. simpl.
  destruct (graft_over q (Dir (<[s := x]> es)) _ _ Hl) as [d' Hd'].
  eauto.
Qed.

Lemma creatable_prefix q : forall r on,
  creatable (q ++ r) on = true -> creatable q on = true.
Proof.
  induction q as [|s q IH]; intros r on Hc; simpl in *.
  - destruct on as [[c|es]|]; try done. by destruct r.
  - destruct on as [[c|es]|]; try done. eauto.
Qed.

Lemma creatable_lookup p : forall on n,
  creatable p on = true -> lookup_path p on = Some n ->
  exists es, n = Dir es.
Proof.
  induction p as [|s p IH]; intros on n Hc Hl; simpl in *.
  - subst on. destruct n; [done | eauto].
  - destruct on as [[c|es]|]; try done. eauto.
Qed.

Lemma prune_gone p : forall on d',
  prune p on = Some d' -> lookup_path p (Some d') = None.
Proof.
  induction p as [|s p IH]; intros on d' Hp; simpl in *; [done | ].
  destruct on as [[c|es]|]; try discriminate.
  destruct p as [|s' p'].
  - injection Hp as <-. by rewrite lookup_delete_eq.
  - destruct (prune (s' :: p') (es !! s)) as [c'|] eqn:Hc; [ | discriminate ].
    injection Hp as <-. rewrite lookup_insert_eq. eauto.
Qed.

Lemma prune_over p : forall on n,
  p <> [] -> lookup_path p on = Some n -> is_Some (prune p on).
Proof.
  induction p as [|s p IH]; intros on n Hne Hl; [done | ]. simpl in *.
  destruct on as [[c|es]|]; try discriminate.
  destruct p as [|s' p']; [ eauto | ].
  destruct (IH (es !! s) n) as [c' ->]; [done | done | eauto].
Qed.

End DiskFacts.

(* ================================================================= *)
(** ** Running computations *)

Section AsyncFacts.

Lemma bind_Ret {A B} (m : M A) (f : A -> M B) w a w' :
  m w = Ret a w' -> bind m f w = f a w'.
Proof. unfold bind. by intros ->. Qed.

Lemma bind_Halt {A B} (m : M A) (f : A -> M B) w h w' :
  m w = Halt h w' -> bind m f w = Halt h w'.
Proof. unfold bind. by intros ->. Qed.

Lemma bind_ext {A B} (m : M A) (f g : A -> M B) w :
  (forall a w', f a w' = g a w') -> bind m f w = bind m g w.
Proof. intros H. unfold bind. by destruct (m w). Qed.

Lemma bind_ext_l {A B} (m m' : M A) (f : A -> M B) w :
  m w = m' w -> bind m f w = bind m' f w.
Proof. intros H. unfold bind. by rewrite H. Qed.

Lemma bind_assoc {A B C} (m : M A) (f : A -> M B) (g : B -> M C) w :
  bind (bind m f) g w = bind m (fun a => bind (f a) g) w.
Proof. unfold bind. by destruct (m w). Qed.

(** On a path without a trailing separator [stat] is the lookup. *)
Lemma stat_Plain (p : path) d : stat p d = lookup_path p (Some d).
Proof. reflexivity. Qed.

(** What [stat] finds is what is there. *)
Lemma stat_found (p : pathname) d n :
  stat p d = Some n -> lookup_path p (Some d) = Some n.
Proof.
  unfold stat. cbn zeta.
  by destruct (trailing p && negb (is_dir (lookup_path p (Some d)))).
Qed.

(** [stat] fails where nothing is, and on a regular file behind a
    trailing separator. *)
Lemma stat_None (p : pathname) d :
  stat p d = None <->
  lookup_path p (Some d) = None \/
  (trailing p = true /\ exists c, lookup_path p (Some d) = Some (File c)).
Proof.
  unfold stat. cbn zeta.
  destruct (trailing p), (lookup_path p (Some d)) as [[c|es]|]; cbn;
    split; try done; eauto.
  - intros [H | [_ [c H]]]; done.
  - intros [H | [H _]]; done.
  - intros [H | [H _]]; done.
Qed.

Lemma stat_missing (p : pathname) d :
  lookup_path p (Some d) = None -> stat p d = lookup_path p (Some d).
Proof. unfold stat. cbn zeta. intros ->. by destruct (trailing p). Qed.

Lemma stat_dir (p : pathname) d :
  is_dir (lookup_path p (Some d)) = true -> stat p d = lookup_path p (Some d).
Proof. unfold stat. cbn zeta. intros ->. by rewrite andb_false_r. Qed.

Lemma exists_stat (p : pathname) w :
  exists_ p w = Ret (is_some_node (stat p (disk w))) w.
Proof. reflexivity. Qed.

Lemma exists_untrailed (p : pathname) w :
  trailing p = false ->
  exists_ p w = Ret (is_some_node (lookup_path p (Some (disk w)))) w.
Proof. intros Ht. rewrite exists_stat. unfold stat. by rewrite Ht. Qed.

Lemma exists_run (p : path) w :
  exists_ p w = Ret (is_some_node (lookup_path p (Some (disk w)))) w.
Proof. reflexivity. Qed.

(** [mkdir] does not look at a trailing separator. *)
Lemma mkdir_Plain (p : pathname) : mkdir p = mkdir (Plain p).
Proof. reflexivity. Qed.

Lemma mkdir_run (p : path) w :
  mkdir p w =
  let w1 := World (disk w) (calls w ++ [EvMkdir p]) in
  match lookup_path p (Some (disk w)) with
  | Some _ => Halt (Rejected (FsError EEXIST)) w1
  | None =>
      match graft p (Dir ∅) (Some (disk w)) with
      | Some d' => Ret tt (World d' (calls w ++ [EvMkdir p]))
      | None =>
          Halt (Rejected (FsError (why_missing (dirname p) (Some (disk w))))) w1
      end
  end.
Proof.
  unfold mkdir, bind, call, get_disk. simpl.
  destruct (lookup_path p (Some (disk w))); [done | ].
  by destruct (graft p (Dir ∅) (Some (disk w))).
Qed.

Lemma writeFile_run p c w :
  writeFile p c w =
  let w1 := World (disk w) (calls w ++ [EvWriteFile p c]) in
  match lookup_path p (Some (disk w)) with
  | Some (Dir _) => Halt (Rejected (FsError EISDIR)) w1
  | _ =>
      match graft p (File c) (Some (disk w)) with
      | Some d' => Ret tt (World d' (calls w ++ [EvWriteFile p c]))
      | None =>
          Halt (Rejected (FsError (why_missing (dirname p) (Some (disk w))))) w1
      end
  end.
Proof.
  unfold writeFile, bind, call, get_disk. simpl.
  destruct (lookup_path p (Some (disk w))) as [[c'|es]|]; try done.
  all: by destruct (graft p (File c) (Some (disk w))).
Qed.

(** On what [stat] finds, [rm] does not look at a trailing
    separator. *)
Lemma rm_Plain (p : pathname) w :
  is_some_node (stat p (disk w)) = true -> rm p w = rm (Plain p) w.
Proof.
  intros Hs. unfold rm, bind, call, get_disk. cbn [disk calls].
  rewrite stat_Plain.
  destruct (stat p (disk w)) as [n|] eqn:Hn; [ | done ].
  by rewrite (stat_found _ _ _ Hn).
Qed.

Lemma rm_run (p : path) w :
  rm p w =
  let w1 := World (disk w) (calls w ++ [EvRm p]) in
  match lookup_path p (Some (disk w)) with
  | None => Halt (Rejected (FsError (why_missing p (Some (disk w))))) w1
  | Some _ =>
      match prune p (Some (disk w)) with
      | Some d' => Ret tt (World d' (calls w ++ [EvRm p]))
      | None => Halt (Rejected (FsError EBUSY)) w1
      end
  end.
Proof.
  unfold rm, bind, call, get_disk. simpl. rewrite stat_Plain.
  destruct (lookup_path p (Some (disk w))); [ | done ].
  by destruct (prune p (Some (disk w))).
Qed.

(** [runCommand] carried out: the call is logged; a child that has
    run has left its repository in the directory. *)
Lemma runCommand_run (exec : string -> path -> completion) cmd
    (dir : pathname) w :
  runCommand exec cmd dir w =
  let l := calls w ++ [EvExec cmd dir] in
  match exec cmd dir with
  | ChildExit c repository =>
      Ret c (World match repository with
                   | Some tree =>
                       default (disk w)
                         (graft (dir ++ [".git"]) tree (Some (disk w)))
                   | None => disk w
                   end l)
  | ChildError => Halt (Rejected SpawnError) (World (disk w) l)
  end.
Proof.
  unfold runCommand, bind, call, get_disk, set_disk, ret, reject.
  cbn [disk calls].
  destruct (exec cmd dir) as [c [tree|]|]; try done.
  cbn [disk calls].
  by destruct (graft (dir ++ [".git"]) tree (Some (disk w))).
Qed.

Lemma mkdir_inv (p : path) w w' :
  mkdir p w = Ret tt w' ->
  lookup_path p (Some (disk w)) = None /\
  graft p (Dir ∅) (Some (disk w)) = Some (disk w') /\
  calls w' = calls w ++ [EvMkdir p].
Proof.
  rewrite mkdir_run. simpl.
  destruct (lookup_path p (Some (disk w))); [done | ].
  destruct (graft p (Dir ∅) (Some (disk w))); [ | done ].
  by intros [= <-].
Qed.

End AsyncFacts.

(* ================================================================= *)
(** ** [makeFolders] *)

Section MakeFolders.

Lemma makeFolders_fuel_S n (p : pathname) :
  makeFolders_fuel (S n) p =
  (let* parent := exists_ (dirname p) in
   (if negb parent then makeFolders_fuel n (dirname p) else ret tt);;
   let* here := exists_ p in
   if negb here then mkdir p else ret tt).
Proof. reflexivity. Qed.

(** The fuel never runs out: [makeFolders] satisfies the recursive
    equation of the source function, on every path and in every
    world. *)
Lemma makeFolders_equation (p : pathname) w :
  makeFolders p w =
  (let* parent := exists_ (dirname p) in
   (if negb parent then makeFolders (dirname p) else ret tt);;
   let* here := exists_ p in
   if negb here then mkdir p else ret tt) w.
Proof.
  unfold makeFolders at 1. rewrite makeFolders_fuel_S.
  destruct p as [c t]. cbn [components].
  destruct c as [|s q _] using rev_ind.
  - reflexivity.
  - rewrite dirname_snoc, length_app. simpl.
    by rewrite Nat.add_1_r.
Qed.

(** The equation on a path without a trailing separator. *)
Lemma makeFolders_unfold (p : path) w :
  makeFolders p w =
  (let* parent := exists_ (dirname p) in
   (if negb parent then makeFolders (dirname p) else ret tt);;
   let* here := exists_ p in
   if negb here then mkdir p else ret tt) w.
Proof. apply (makeFolders_equation p). Qed.

(** The same equation with the binds carried out. *)
Lemma makeFolders_step (p : path) w :
  makeFolders p w =
  match (if is_some_node (lookup_path (dirname p) (Some (disk w)))
         then Ret tt w else makeFolders (dirname p) w) with
  | Ret _ w1 =>
      if is_some_node (lookup_path p (Some (disk w1)))
      then Ret tt w1 else mkdir p w1
  | Halt h w1 => Halt h w1
  end.
Proof.
  rewrite makeFolders_unfold. unfold bind at 1 2. rewrite exists_run.
  destruct (is_some_node (lookup_path (dirname p) (Some (disk w)))); simpl.
  - unfold bind. rewrite exists_run.
    by destruct (is_some_node (lookup_path p (Some (disk w)))).
  - destruct (makeFolders (dirname p) w) as [[] w1|h w1]; [ | done ].
    unfold bind. rewrite exists_run.
    by destruct (is_some_node (lookup_path p (Some (disk w1)))).
Qed.

(** After [makeFolders(path)] the path exists. *)
Lemma makeFolders_exists (p : path) w w' :
  makeFolders p w = Ret tt w' ->
  is_some_node (lookup_path p (Some (disk w'))) = true.
Proof.
  rewrite makeFolders_step.
  destruct (if is_some_node (lookup_path (dirname p) (Some (disk w)))
            then Ret tt w else makeFolders (dirname p) w)
    as [[] w1|h w1]; [ | done ].
  destruct (is_some_node (lookup_path p (Some (disk w1)))) eqn:He.
  - by intros [= <-].
  - intros (_ & Hg & _)%mkdir_inv.
    by rewrite (lookup_graft _ _ _ _ Hg).
Qed.

(** On a path that exists [makeFolders] does nothing. *)
Lemma makeFolders_present (p : path) w :
  is_some_node (lookup_path p (Some (disk w))) = true ->
  makeFolders p w = Ret tt w.
Proof.
  intros He. rewrite makeFolders_step.
  rewrite (lookup_path_dirname _ _ He). by rewrite He.
Qed.

(** A second call changes nothing and issues no call. *)
Lemma makeFolders_again (p : path) w w' :
  makeFolders p w = Ret tt w' -> makeFolders p w' = Ret tt w'.
Proof.
  intros H. apply makeFolders_present. by eapply makeFolders_exists.
Qed.

(** [makeFolders(path)] changes nothing off the way to [path]. *)
Lemma makeFolders_frame (p : path) : forall w w' x,
  makeFolders p w = Ret tt w' ->
  ~ x `prefix_of` p ->
  lookup_path x (Some (disk w')) = lookup_path x (Some (disk w)).
Proof.
  induction p as [|s q IH] using rev_ind; intros w w' x Hrun Hx.
  - rewrite makeFolders_present in Hrun by done. by injection Hrun as <-.
  - rewrite makeFolders_step, dirname_snoc in Hrun.
    assert (Hq : ~ x `prefix_of` q).
    { intros [k ->]. apply Hx. exists (k ++ [s]). by rewrite app_assoc. }
    destruct (if is_some_node (lookup_path q (Some (disk w)))
              then Ret tt w else makeFolders q w) as [[] w1|h w1] eqn:Hup;
      [ | done ].
    assert (H1 : lookup_path x (Some (disk w1)) = lookup_path x (Some (disk w))).
    { destruct (is_some_node (lookup_path q (Some (disk w)))).
      - by injection Hup as <-.
      - by eapply IH. }
    rewrite <- H1.
    destruct (is_some_node (lookup_path (q ++ [s]) (Some (disk w1)))) eqn:He.
    { by injection Hrun as <-. }
    apply mkdir_inv in Hrun as (Hnone & Hg & _).
    destruct (path_trichotomy (q ++ [s]) x)
      as [[k ->] | [Hpre | (a & t & t' & r & r' & Hne & Hp & ->)]].
    + rewrite (lookup_graft_below _ _ _ _ _ Hg).
      rewrite lookup_path_below_None by done.
      apply lookup_path_empty_dir. intros ->. apply Hx.
      exists []. by rewrite !app_nil_r.
    + done.
    + rewrite Hp in Hg. by eapply lookup_graft_aside.
Qed.

(** When no regular file is in the way, [makeFolders(path)] succeeds
    and leaves a directory at [path]. *)
Lemma makeFolders_ok (p : path) : forall w,
  creatable p (Some (disk w)) = true ->
  exists w', makeFolders p w = Ret tt w' /\
             is_dir (lookup_path p (Some (disk w'))) = true.
Proof.
  induction p as [|s q IH] using rev_ind; intros w Hc.
  - exists w. split; [ by apply makeFolders_present | ].
    simpl in *. by destruct (disk w).
  - rewrite makeFolders_step, dirname_snoc.
    pose proof (creatable_prefix _ _ _ Hc) as Hcq.
    assert (Hup : exists w1,
      (if is_some_node (lookup_path q (Some (disk w)))
       then Ret tt w else makeFolders q w) = Ret tt w1 /\
      is_dir (lookup_path q (Some (disk w1))) = true /\
      lookup_path (q ++ [s]) (Some (disk w1))
      = lookup_path (q ++ [s]) (Some (disk w))).
    { destruct (lookup_path q (Some (disk w))) as [n|] eqn:Hq; simpl.
      - exists w. destruct (creatable_lookup _ _ _ Hcq Hq) as [es ->].
        by rewrite Hq.
      - destruct (IH w Hcq) as (w1 & Hrun & Hd). exists w1.
        split; [done | split; [done | ]].
        eapply makeFolders_frame; [done | ].
        intros [k Hk]. apply (f_equal length) in Hk.
        rewrite !length_app in Hk. simpl in Hk. lia. }
    destruct Hup as (w1 & -> & Hd & Hsame).
    destruct (lookup_path (q ++ [s]) (Some (disk w1))) as [n|] eqn:Hp; simpl.
    + exists w1. split; [done | ]. rewrite Hp.
      symmetry in Hsame.
      by destruct (creatable_lookup _ _ _ Hc Hsame) as [es ->].
    + destruct (lookup_path q (Some (disk w1))) as [[c|es]|] eqn:Hq;
        try done.
      destruct (graft_into q s (Dir ∅) _ _ Hq) as (d' & Hg & _).
      rewrite mkdir_run, Hp, Hg. simpl. eexists. split; [done | ].
      simpl. by rewrite (lookup_graft _ _ _ _ Hg).
Qed.

(** A path that is missing is created as an empty directory. *)
Lemma makeFolders_fresh (p : path) w w' :
  lookup_path p (Some (disk w)) = None ->
  makeFolders p w = Ret tt w' ->
  lookup_path p (Some (disk w')) = Some (Dir ∅).
Proof.
  intros Hnone. rewrite makeFolders_step.
  destruct (if is_some_node (lookup_path (dirname p) (Some (disk w)))
            then Ret tt w else makeFolders (dirname p) w)
    as [[] w1|h w1] eqn:Hup; [ | done ].
  assert (H1 : lookup_path p (Some (disk w1)) = None).
  { destruct (is_some_node (lookup_path (dirname p) (Some (disk w)))).
    - by injection Hup as <-.
    - rewrite <- Hnone. eapply makeFolders_frame; [done | ].
      destruct p as [|s q _] using rev_ind; [done | ].
      rewrite dirname_snoc. intros [k Hk]. apply (f_equal length) in Hk.
      rewrite !length_app in Hk. simpl in Hk. lia. }
  rewrite H1. simpl. intros (_ & Hg & _)%mkdir_inv.
  by rewrite (lookup_graft _ _ _ _ Hg).
Qed.

(** *** A trailing separator *)

(** Either [stat] finds what is at the path, or the path ends in a
    separator and names a regular file. *)
Lemma stat_cases (p : pathname) d :
  stat p d = lookup_path p (Some d) \/
  (trailing p = true /\ exists c, lookup_path p (Some d) = Some (File c)).
Proof.
  unfold stat. cbn zeta.
  destruct (trailing p), (lookup_path p (Some d)) as [[c|es]|]; cbn; eauto.
Qed.

(** The equation of [makeFolders] with the binds carried out, on any
    path. *)
Lemma makeFolders_step_stat (p : pathname) w :
  makeFolders p w =
  match (if is_some_node (lookup_path (dirname p) (Some (disk w)))
         then Ret tt w else makeFolders (dirname p) w) with
  | Ret _ w1 =>
      if is_some_node (stat p (disk w1)) then Ret tt w1 else mkdir p w1
  | Halt h w1 => Halt h w1
  end.
Proof.
  rewrite makeFolders_equation. unfold bind at 1 2. rewrite exists_run.
  destruct (is_some_node (lookup_path (dirname p) (Some (disk w)))); simpl.
  - unfold bind. rewrite exists_stat.
    by destruct (is_some_node (stat p (disk w))).
  - destruct (makeFolders (dirname p) w) as [[] w1|h w1]; [ | done ].
    unfold bind. rewrite exists_stat.
    by destruct (is_some_node (stat p (disk w1))).
Qed.

(** Making the parent leaves a missing path missing. *)
Lemma makeFolders_parent (p : path) w w1 :
  lookup_path p (Some (disk w)) = None ->
  (if is_some_node (lookup_path (dirname p) (Some (disk w)))
   then Ret tt w else makeFolders (dirname p) w) = Ret tt w1 ->
  lookup_path p (Some (disk w1)) = None.
Proof.
  intros Hnone Hup.
  destruct (is_some_node (lookup_path (dirname p) (Some (disk w)))).
  - by injection Hup as <-.
  - rewrite <- Hnone. eapply makeFolders_frame; [done | ].
    destruct p as [|s q _] using rev_ind; [done | ].
    rewrite dirname_snoc. intros [k Hk]. apply (f_equal length) in Hk.
    rewrite !length_app in Hk. simpl in Hk. lia.
Qed.

(** Where [stat] finds what is at the path, the separator at the end
    of the path plays no part in [makeFolders]. *)
Lemma makeFolders_Plain (p : pathname) w :
  stat p (disk w) = lookup_path p (Some (disk w)) ->
  makeFolders p w = makeFolders (Plain p) w.
Proof.
  intros Hs. rewrite makeFolders_step_stat, (makeFolders_step p).
  destruct (lookup_path p (Some (disk w))) as [n|] eqn:Hp.
  - assert (Hd : is_some_node (lookup_path (dirname p) (Some (disk w))) = true)
      by (apply lookup_path_dirname; by rewrite Hp).
    rewrite Hd. by rewrite Hs, Hp.
  - destruct (if is_some_node (lookup_path (dirname p) (Some (disk w)))
              then Ret tt w else makeFolders (dirname p) w)
      as [[] w1|h w1] eqn:Hup; [ | done ].
    pose proof (makeFolders_parent _ _ _ Hp Hup) as H1.
    assert (H2 : stat p (disk w1) = None) by (apply stat_None; by left).
    by rewrite H1, H2.
Qed.

(** On a regular file behind a trailing separator [makeFolders]
    fails: [stat] does not find the file, and [mkdir] does. *)
Lemma makeFolders_behind_file (p : pathname) w c :
  trailing p = true ->
  lookup_path p (Some (disk w)) = Some (File c) ->
  makeFolders p w
  = Halt (Rejected (FsError EEXIST)) (World (disk w) (calls w ++ [EvMkdir p])).
Proof.
  intros Ht Hp. rewrite makeFolders_step_stat.
  assert (Hd : is_some_node (lookup_path (dirname p) (Some (disk w))) = true)
    by (apply lookup_path_dirname; by rewrite Hp).
  rewrite Hd.
  assert (Hs : stat p (disk w) = None) by (apply stat_None; right; eauto).
  rewrite Hs. cbn [is_some_node].
  rewrite mkdir_Plain, mkdir_run, Hp. reflexivity.
Qed.

End MakeFolders.

(* ================================================================= *)
(** ** Reasoning about the calls a computation issues *)

Section Emits.

Context {A : Type}.

Lemma emits_ext (P : option halt -> list event -> Prop) (m m' : M A) :
  (forall w, m w = m' w) -> emits P m' -> emits P m.
Proof. intros He H w. rewrite He. apply H. Qed.

Lemma emits_weaken (P P' : option halt -> list event -> Prop) (m : M A) :
  emits P m -> (forall o l, P o l -> P' o l) -> emits P' m.
Proof. intros H HP w. destruct (H w) as (l & Hl & Hp). eauto. Qed.

Lemma emits_ret (P : option halt -> list event -> Prop) (a : A) :
  P None [] -> emits P (ret a).
Proof. intros HP w. exists []. simpl. by rewrite app_nil_r. Qed.

Lemma emits_reject (P : option halt -> list event -> Prop) f :
  P (Some (Rejected f)) [] -> emits P (reject f : M A).
Proof. intros HP w. exists []. simpl. by rewrite app_nil_r. Qed.

Lemma emits_process_exit (P : option halt -> list event -> Prop) n why :
  P (Some (Exit n why)) [] -> emits P (process_exit n why : M A).
Proof. intros HP w. exists []. simpl. by rewrite app_nil_r. Qed.

(** Sequencing: a run of [bind m f] is a run of [m] that halts, or a
    run of [m] that returns followed by a run of [f]. *)
Lemma emits_bind {B} (P1 P2 P : option halt -> list event -> Prop)
      (m : M B) (f : B -> M A) :
  emits P1 m ->
  (forall b, emits P2 (f b)) ->
  (forall h l1, P1 (Some h) l1 -> P (Some h) l1) ->
  (forall l1 o l2, P1 None l1 -> P2 o l2 -> P o (l1 ++ l2)) ->
  emits P (bind m f).
Proof.
  intros Hm Hf Hhalt Hseq w. unfold bind.
  destruct (Hm w) as (l1 & Hl1 & Hp1).
  destruct (m w) as [b w1|h w1]; simpl in *.
  - destruct (Hf b w1) as (l2 & Hl2 & Hp2).
    exists (l1 ++ l2). rewrite Hl2, Hl1, app_assoc. eauto.
  - exists l1. eauto.
Qed.

End Emits.

Section Only.

Context (Q : event -> Prop).

Lemma only_ret {A} (a : A) : only Q (ret a).
Proof. by apply emits_ret. Qed.

Lemma only_reject {A} f : only Q (reject f : M A).
Proof. by apply emits_reject. Qed.

Lemma only_process_exit {A} n why : only Q (process_exit n why : M A).
Proof. by apply emits_process_exit. Qed.

Lemma only_bind {A B} (m : M A) (f : A -> M B) :
  only Q m -> (forall a, only Q (f a)) -> only Q (bind m f).
Proof.
  intros Hm Hf. eapply emits_bind; [exact Hm | exact Hf | done | ].
  intros l1 o l2 H1 H2. simpl in *. by apply Forall_app.
Qed.

Lemma only_call e : Q e -> only Q (call e).
Proof. intros He w. exists [e]. simpl. split; [done | by constructor]. Qed.

Lemma only_get_disk : only Q get_disk.
Proof. intros w. exists []. simpl. by rewrite app_nil_r. Qed.

Lemma only_set_disk d : only Q (set_disk d).
Proof. intros w. exists []. simpl. by rewrite app_nil_r. Qed.

Lemma only_exists (p : pathname) : only Q (exists_ p).
Proof. intros w. exists []. simpl. by rewrite app_nil_r. Qed.

Lemma only_mkdir (p : pathname) : Q (EvMkdir p) -> only Q (mkdir p).
Proof.
  intros Hq. unfold mkdir.
  apply only_bind; [ by apply only_call | intros _ ].
  apply only_bind; [ apply only_get_disk | intros d ].
  destruct (lookup_path p (Some d)); [ apply only_reject | ].
  destruct (graft p (Dir ∅) (Some d));
    [ apply only_set_disk | apply only_reject ].
Qed.

Lemma only_writeFile p c : Q (EvWriteFile p c) -> only Q (writeFile p c).
Proof.
  intros Hq. unfold writeFile.
  apply only_bind; [ by apply only_call | intros _ ].
  apply only_bind; [ apply only_get_disk | intros d ].
  destruct (lookup_path p (Some d)) as [[c'|es]|]; try apply only_reject.
  all: destruct (graft p (File c) (Some d));
    [ apply only_set_disk | apply only_reject ].
Qed.

Lemma only_rm (p : pathname) : Q (EvRm p) -> only Q (rm p).
Proof.
  intros Hq. unfold rm.
  apply only_bind; [ by apply only_call | intros _ ].
  apply only_bind; [ apply only_get_disk | intros d ].
  destruct (stat p d); [ | apply only_reject ].
  destruct (prune p (Some d)); [ apply only_set_disk | apply only_reject ].
Qed.

(** What the child writes is no call of the program. *)
Lemma only_runCommand (exec : string -> path -> completion) cmd
    (dir : pathname) :
  Q (EvExec cmd dir) -> only Q (runCommand exec cmd dir).
Proof.
  intros Hq. unfold runCommand.
  apply only_bind; [ by apply only_call | intros _ ].
  destruct (exec cmd dir) as [c [tree|]|]; [ | | apply only_reject ].
  - apply only_bind; [ | intros _; apply only_ret ].
    apply only_bind; [ apply only_get_disk | intros d ].
    destruct (graft (dir ++ [".git"]) tree (Some d));
      [ apply only_set_disk | apply only_ret ].
  - apply only_bind; [ apply only_ret | intros _; apply only_ret ].
Qed.

(** [makeFolders(path)] creates directories on the way to [path]
    and nothing else. *)
Lemma only_makeFolders (p : pathname) :
  (forall q, q `prefix_of` p -> Q (EvMkdir q)) -> only Q (makeFolders p).
Proof.
  destruct p as [c t]. cbn [components]. revert t.
  induction c as [|s q IH] using rev_ind; intros t Hq.
  - unfold makeFolders. cbn [components length].
    rewrite makeFolders_fuel_S. cbn [makeFolders_fuel].
    apply only_bind; [ apply only_exists | intros parent ].
    apply only_bind; [ destruct parent; apply only_ret | intros _ ].
    apply only_bind; [ apply only_exists | intros here ].
    destruct here; simpl; [ apply only_ret | ].
    by apply only_mkdir, Hq.
  - eapply emits_ext; [ apply makeFolders_equation | ].
    cbn [components]. rewrite dirname_snoc.
    apply only_bind; [ apply only_exists | intros parent ].
    apply only_bind.
    { destruct parent; simpl; [ apply only_ret | ].
      apply (IH false). intros q' [k ->]. apply Hq.
      exists (k ++ [s]). by rewrite app_assoc. }
    intros _. apply only_bind; [ apply only_exists | intros here ].
    destruct here; simpl; [ apply only_ret | ].
    by apply only_mkdir, Hq.
Qed.

Lemma only_makeFile (p : path) (cwd : path) c :
  (forall q, q `prefix_of` dirname p -> Q (EvMkdir q)) ->
  Q (EvWriteFile p c) ->
  only Q (makeFile p cwd c).
Proof.
  intros Hd Hf. unfold makeFile.
  apply only_bind; [ by apply only_makeFolders | intros _ ].
  by apply only_writeFile.
Qed.

Lemma only_for_each {A} (xs : list A) (body : A -> M unit) :
  (forall x, In x xs -> only Q (body x)) -> only Q (for_each xs body).
Proof.
  induction xs as [|x xs IH]; intros Hb; simpl.
  - apply only_ret.
  - apply only_bind; [ apply Hb; by left | intros _ ].
    apply IH. intros y Hy. apply Hb. by right.
Qed.

End Only.

(** Reading [only] off a run. *)
Lemma only_run {A} (Q : event -> Prop) (m : M A) w l :
  only Q m -> calls (world_of (m w)) = calls w ++ l -> Forall Q l.
Proof.
  intros H Hl. destruct (H w) as (l' & Hl' & HQ).
  rewrite Hl in Hl'. by apply app_inv_head in Hl' as ->.
Qed.

(* ================================================================= *)
(** ** The calls of [init] *)

Section InitCalls.

Lemma components_Plain (p : path) : components (Plain p) = p.
Proof. reflexivity. Qed.

(** Joining arguments that are plain components and do not end in a
    separator gives a path without a trailing separator: the
    components of the base and those of the arguments. *)
Lemma join_under (R : pathname) args segs :
  forallb plain R = true ->
  concat (map split_slash args) = segs ->
  forallb plain segs = true ->
  trailing (join R args) = false ->
  join R args = Plain (R ++ segs).
Proof.
  intros HR <- Hs Ht. rewrite (pathname_plain _ Ht). f_equal.
  by apply join_plain.
Qed.

Lemma dirname_under (R rel : path) :
  rel <> [] -> dirname (R ++ rel) = R ++ dirname rel.
Proof. intros H. unfold dirname. by rewrite removelast_app. Qed.

Lemma prefix_of_app_cases (q R x : path) :
  q `prefix_of` R ++ x -> R `prefix_of` q \/ q `prefix_of` R.
Proof.
  intros [k Hk]. apply app_eq_inv in Hk as [(k' & -> & _) | (k' & -> & _)].
  - right. by exists k'.
  - left. by exists k'.
Qed.

Lemma template_files_empty :
  template_files tpl_empty = [ (["src"; "scenes"; "main.ts"], empty_main_ts) ].
Proof. reflexivity. Qed.

Lemma template_files_basic :
  template_files tpl_basic =
  [ (["src"; "objects"; "message.ts"], basic_message_ts);
    (["src"; "scenes"; "main.ts"], basic_main_ts);
    (["src"; "scenes"; "other.ts"], basic_other_ts) ].
Proof. reflexivity. Qed.

Context (R : path) (root : string) (opts : options).
Hypothesis R_plain : forallb plain R = true.

Lemma accounted_makeFolders rel :
  only (accounted R root opts) (makeFolders (R ++ rel)).
Proof.
  apply only_makeFolders. intros q Hq. simpl.
  by apply prefix_of_app_cases in Hq.
Qed.

(** With or without a trailing separator. *)
Lemma accounted_makeFolders_root (P : pathname) :
  components P = R -> only (accounted R root opts) (makeFolders P).
Proof.
  intros HP. apply only_makeFolders. intros q Hq. simpl.
  right. by rewrite <- HP.
Qed.

Lemma accounted_makeFile rel (cwd : path) c :
  rel <> [] ->
  In (rel, c) (auxiliary_files root (nogit opts)
               ++ template_files (template opts)) ->
  only (accounted R root opts) (makeFile (R ++ rel) cwd c).
Proof.
  intros Hne Hin. apply only_makeFile.
  - intros q Hq. simpl. rewrite dirname_under in Hq by done.
    by apply prefix_of_app_cases in Hq.
  - simpl. eauto.
Qed.

End InitCalls.

(** Rewrites [join R args] into [R ++ segs] for a normalised [R] and
    constant [args]. *)
Ltac join_norm HR :=
  repeat match goal with
    | |- context [join ?R ?args] =>
        let segs := eval vm_compute in (concat (map split_slash args)) in
        rewrite (join_under R args segs HR eq_refl eq_refl eq_refl)
    end;
  rewrite ?components_Plain.

(** Membership in a list that is given by its elements. *)
Ltac in_list := cbn [In]; repeat first [ left; reflexivity | right ].

Ltac in_parts :=
  solve [ in_list
        | apply in_or_app; left; in_parts
        | apply in_or_app; right; in_parts ].

Ltac in_table :=
  unfold auxiliary_files; rewrite ?template_files_empty, ?template_files_basic;
  in_parts.

(** One step through a sequence of [makeFolders] and [makeFile]
    calls below the root. *)
Ltac accounted_step :=
  lazymatch goal with
  | |- only _ (bind _ _) => apply only_bind; [ | intros ? ]
  | |- only _ (ret _) => apply only_ret
  | |- only _ (makeFolders (Plain (_ ++ _))) => by apply accounted_makeFolders
  | |- only _ (makeFile (_ ++ _) _ _) =>
      apply accounted_makeFile; [ done | in_table ]
  end.

Section InitAccounted.

Context (cwd : path) (exec : string -> path -> completion).

Lemma write_sources_accounted (R : pathname) root opts :
  forallb plain R = true ->
  only (accounted R root opts) (write_sources R opts).
Proof.
  intros HR. unfold write_sources.
  apply only_bind; [ by apply accounted_makeFolders_root | intros _ ].
  destruct opts as [f [|] g]; cbn [template templates for_each fst snd];
    join_norm HR; repeat accounted_step.
Qed.

Lemma init_git_accounted (R : pathname) root opts :
  forallb plain R = true ->
  only (accounted R root opts) (init_git exec R opts).
Proof.
  intros HR. unfold init_git.
  destruct opts as [f t [|]]; cbn [nogit negb]; [ apply only_ret | ].
  join_norm HR. accounted_step; [ accounted_step | ].
  accounted_step; [ | apply only_ret ].
  by apply only_runCommand.
Qed.

Lemma write_configs_accounted (R : pathname) root opts :
  forallb plain R = true ->
  only (accounted R root opts) (write_configs R root).
Proof.
  intros HR. unfold write_configs. join_norm HR.
  repeat accounted_step.
Qed.

Lemma scaffold_accounted (R : pathname) root opts :
  forallb plain R = true ->
  only (accounted R root opts) (scaffold exec R root opts).
Proof.
  intros HR. unfold scaffold.
  apply only_bind; [ by apply write_sources_accounted | intros _ ].
  apply only_bind; [ by apply init_git_accounted | intros _ ].
  by apply write_configs_accounted.
Qed.

(** Every call of [init] is accounted for. *)
Lemma init_accounted root opts :
  only (accounted (join cwd [root]) root opts) (init cwd exec root opts).
Proof.
  unfold init. set (R := join cwd [root]).
  assert (HR : forallb plain R = true) by apply join_is_plain.
  apply only_bind; [ apply only_exists | intros taken ].
  apply only_bind; [ | intros _; by apply scaffold_accounted ].
  destruct taken; [ | apply only_ret ].
  apply only_bind; [ | intros _; by apply only_rm ].
  destruct (negb (force opts)); [ apply only_process_exit | apply only_ret ].
Qed.

End InitAccounted.


(* ================================================================= *)
(** ** The project root of [init] *)

Section InitRoot.

Context (cwd : path) (exec : string -> path -> completion).

Lemma bind_ext_both {A B} (m m' : M A) (f g : A -> M B) w :
  m w = m' w -> (forall a w', f a w' = g a w') -> bind m f w = bind m' g w.
Proof. intros Hm Hf. unfold bind. rewrite Hm. by destruct (m' w). Qed.

(** The collision check of [init], carried out. *)
Lemma init_run root opts w :
  init cwd exec root opts w
  = if is_some_node (stat (join cwd [root]) (disk w)) then
      if force opts then
        match rm (join cwd [root]) w with
        | Ret _ w1 => scaffold exec (join cwd [root]) root opts w1
        | Halt h w1 => Halt h w1
        end
      else Halt (Exit 1 AlreadyExists) w
    else scaffold exec (join cwd [root]) root opts w.
Proof.
  unfold init.
  rewrite (bind_Ret _ _ w _ w (exists_stat _ w)).
  destruct (is_some_node (stat (join cwd [root]) (disk w))).
  - destruct (force opts); cbn [negb].
    + unfold bind at 1 2. cbn [ret].
      by destruct (rm (join cwd [root]) w) as [[] w1|h w1].
    + reflexivity.
  - reflexivity.
Qed.

(** [scaffold] halts where [makeFolders(projectRoot)] halts. *)
Lemma scaffold_Halt (R : pathname) root opts w h w1 :
  makeFolders R w = Halt h w1 ->
  scaffold exec R root opts w = Halt h w1.
Proof.
  intros Hmk. unfold scaffold, write_sources.
  apply bind_Halt. by apply bind_Halt.
Qed.

(** After [makeFolders(projectRoot)] the separator at the end of the
    root plays no part: the paths below the root are joined from its
    components. *)
Lemma scaffold_Plain (R : pathname) root opts w :
  makeFolders R w = makeFolders (Plain R) w ->
  scaffold exec R root opts w = scaffold exec (Plain R) root opts w.
Proof.
  intros Hmk. unfold scaffold, write_sources. rewrite !bind_assoc.
  apply bind_ext_both; [ exact Hmk | ].
  intros _ w'. destruct opts as [f [|] g]; reflexivity.
Qed.

(** A root that is given with a trailing separator and names a
    regular file: [stat] does not find it, so the collision check
    passes and nothing is removed, whatever the options; then [mkdir]
    fails on it. *)
Lemma init_behind_file root opts w c :
  trailing (join cwd [root]) = true ->
  lookup_path (join cwd [root]) (Some (disk w)) = Some (File c) ->
  init cwd exec root opts w
  = Halt (Rejected (FsError EEXIST))
      (World (disk w) (calls w ++ [EvMkdir (join cwd [root])])).
Proof.
  intros Ht Hc. rewrite init_run.
  assert (Hs : stat (join cwd [root]) (disk w) = None)
    by (apply stat_None; right; eauto).
  rewrite Hs. cbn [is_some_node].
  apply scaffold_Halt. by eapply makeFolders_behind_file.
Qed.

(** In every other case [init] runs as on the root without the
    separator. *)
Lemma init_Plain root opts w :
  stat (join cwd [root]) (disk w)
  = lookup_path (join cwd [root]) (Some (disk w)) ->
  let R : path := join cwd [root] in
  init cwd exec root opts w
  = if is_some_node (lookup_path R (Some (disk w))) then
      if force opts then
        match rm R w with
        | Ret _ w1 => scaffold exec R root opts w1
        | Halt h w1 => Halt h w1
        end
      else Halt (Exit 1 AlreadyExists) w
    else scaffold exec R root opts w.
Proof.
  intros Hs R. rewrite init_run, Hs. fold R.
  destruct (lookup_path R (Some (disk w))) as [n|] eqn:Hn; cbn [is_some_node].
  - destruct (force opts); [ | done ].
    rewrite rm_Plain by (by rewrite Hs; fold R; rewrite Hn). fold R.
    destruct (rm R w) as [[] w1|h w1] eqn:Hrm; [ | done ].
    apply scaffold_Plain, makeFolders_Plain.
    revert Hrm. rewrite rm_run, Hn.
    destruct (prune R (Some (disk w))) as [d1|] eqn:Hd1; [ | done ].
    intros [= <-]. cbn [disk]. apply stat_missing.
    by eapply prune_gone.
  - apply scaffold_Plain, makeFolders_Plain. by apply stat_missing.
Qed.

(** The two lemmas together: every run of [init] is one or the
    other. *)
Lemma init_root_cases root opts w :
  let R : path := join cwd [root] in
  (trailing (join cwd [root]) = true /\
   stat (join cwd [root]) (disk w) = None /\
   (exists c, lookup_path R (Some (disk w)) = Some (File c)) /\
   init cwd exec root opts w
   = Halt (Rejected (FsError EEXIST)) (World (disk w) (calls w ++ [EvMkdir R])))
  \/
  (stat (join cwd [root]) (disk w) = lookup_path R (Some (disk w)) /\
   init cwd exec root opts w
   = if is_some_node (lookup_path R (Some (disk w))) then
       if force opts then
         match rm R w with
         | Ret _ w1 => scaffold exec R root opts w1
         | Halt h w1 => Halt h w1
         end
       else Halt (Exit 1 AlreadyExists) w
     else scaffold exec R root opts w).
Proof.
  intros R.
  destruct (stat_cases (join cwd [root]) (disk w)) as [Hs | (Ht & c & Hc)].
  - right. split; [ done | ]. by apply init_Plain.
  - left. split; [ done | ].
    split; [ apply stat_None; right; eauto | ].
    split; [ by exists c | ]. by eapply init_behind_file.
Qed.

End InitRoot.
(* ================================================================= *)
(** ** Where [init] writes (claim C8) *)

(** C8, amended.  In every run of [init], every file is written
    strictly below the project root [join cwd [root]], and every
    directory is created at the root, below it, or on the way to it
    (the missing ancestors that [makeFolders(projectRoot)] creates). *)
Theorem init_writes_around_root (cwd : path)
    (exec : string -> path -> completion) root opts w l :
  calls (world_of (init cwd exec root opts w)) = calls w ++ l ->
  Forall (fun e =>
            match e with
            | EvWriteFile p _ => exists rel, rel <> [] /\ p = join cwd [root] ++ rel
            | EvMkdir p =>
                join cwd [root] `prefix_of` p \/ p `prefix_of` join cwd [root]
            | _ => True
            end) l.
Proof.
  intros Hl.
  pose proof (only_run _ _ _ _ (init_accounted cwd exec root opts) Hl) as Hall.
  eapply Forall_impl; [ exact Hall | ].
  intros [p|p c|p|cmd dir]; simpl; try done.
  intros (rel & -> & Hne & _). eauto.
Qed.

Lemma init_writes_around_root_witness :
  calls (world_of (init ["home"] git_init "a/b" default_options home_world))
  = calls home_world
    ++ calls (world_of (init ["home"] git_init "a/b" default_options home_world))
  /\ Forall (fun e =>
            match e with
            | EvWriteFile p _ =>
                exists rel, rel <> [] /\ p = join ["home"] ["a/b"] ++ rel
            | EvMkdir p =>
                join ["home"] ["a/b"] `prefix_of` p \/
                p `prefix_of` join ["home"] ["a/b"]
            | _ => True
            end)
       (calls (world_of (init ["home"] git_init "a/b" default_options home_world))).
Proof.
  split; [ reflexivity | ].
  apply (init_writes_around_root ["home"] git_init "a/b" default_options
           home_world).
  reflexivity.
Defined.

(** C8 as stated fails: [init a/b] in /home, where /home/a is
    missing, creates the directory /home/a, which is not below the
    project root /home/a/b. *)
Lemma init_creates_ancestor_of_root :
  In (EvMkdir ["home"; "a"])
     (calls (world_of (init ["home"] git_init "a/b" default_options home_world)))
  /\ ~ join ["home"] ["a/b"] `prefix_of` ["home"; "a"].
Proof.
  split.
  - vm_compute. left. reflexivity.
  - intros [k Hk]. vm_compute in Hk. discriminate.
Qed.

(* ================================================================= *)
(** ** What [init] writes (claims C10 and C2) *)

Section InitTexts.

(** A file written by [init] below the root is in the tables, under
    its path relative to the root. *)
Lemma written_in_table (cwd : path) (exec : string -> path -> completion) root
    opts w l rel c :
  calls (world_of (init cwd exec root opts w)) = calls w ++ l ->
  In (EvWriteFile (join cwd [root] ++ rel) c) l ->
  In (rel, c) (auxiliary_files root (nogit opts)
               ++ template_files (template opts)).
Proof.
  intros Hl Hin.
  pose proof (only_run _ _ _ _ (init_accounted cwd exec root opts) Hl) as Hall.
  rewrite Forall_forall in Hall.
  apply list_elem_of_In, Hall in Hin. simpl in Hin.
  destruct Hin as (rel' & Heq & _ & Hin).
  by apply app_inv_head in Heq as ->.
Qed.

(** Under the paths of [invariant_files] the tables hold the texts
    of [invariant_files], whatever the root and the options. *)
Lemma table_invariant root opts rel c :
  In (rel, c) (auxiliary_files root (nogit opts)
               ++ template_files (template opts)) ->
  In rel (map fst invariant_files) ->
  In (rel, c) invariant_files.
Proof.
  unfold invariant_files.
  destruct opts as [f [|] [|]]; unfold auxiliary_files;
    rewrite ?template_files_empty, ?template_files_basic;
    cbn [nogit template app In map fst]; intros H1 H2;
    repeat (destruct H1 as [H1|H1];
            [ injection H1 as <- <-;
              first [ solve [ repeat first [ left; reflexivity | right ] ]
                    | exfalso; clear - H2;
                      repeat (destruct H2 as [H2|H2]; [ discriminate H2 | ]);
                      exact H2 ]
            | ]);
    destruct H1.
Qed.

Lemma invariant_files_functional rel c1 c2 :
  In (rel, c1) invariant_files -> In (rel, c2) invariant_files -> c1 = c2.
Proof.
  unfold invariant_files. cbn [In]. intros H1 H2.
  repeat (destruct H1 as [H1|H1];
          [ injection H1 as <- <-;
            repeat (destruct H2 as [H2|H2];
                    [ first [ discriminate H2 | by injection H2 ] | ]);
            destruct H2
          | ]).
  destruct H1.
Qed.

Lemma table_package root opts c :
  In (["package.json"], c)
     (auxiliary_files root (nogit opts) ++ template_files (template opts)) ->
  c = JSON_stringify (package_json root) 4.
Proof.
  destruct opts as [f [|] [|]]; unfold auxiliary_files;
    rewrite ?template_files_empty, ?template_files_basic;
    cbn [nogit template app In]; intros H1;
    repeat (destruct H1 as [H1|H1];
            [ first [ discriminate H1 | by injection H1 ] | ]);
    destruct H1.
Qed.

(** The matcher on three sample roots. *)
Lemma package_name_samples :
  package_name "My Game" = "unnamed-game" /\
  package_name "my-game" = "my-game" /\
  package_name "@scope/pkg" = "@scope/pkg".
Proof. by vm_compute. Qed.

End InitTexts.

(** Finds an event in a computed log. *)
Ltac in_log := vm_compute; repeat first [ left; reflexivity | right ].

(** C10.  For any two runs of [init] (any working directories, roots,
    templates, options, disks and children), the texts written to the
    manifest, index.html, src/index.ts, src/constants.ts, .prettierrc,
    tsconfig.json and vite.config.js are the same in both runs (the
    constants of [invariant_files]); the text of package.json is
    [JSON_stringify (package_json root) 4], which depends on the root
    argument and on nothing else. *)
Theorem fixed_files_identical
    (cwd1 : path) (exec1 : string -> path -> completion) root1 opts1 w1 l1
    (cwd2 : path) (exec2 : string -> path -> completion) root2 opts2 w2 l2 :
  calls (world_of (init cwd1 exec1 root1 opts1 w1)) = calls w1 ++ l1 ->
  calls (world_of (init cwd2 exec2 root2 opts2 w2)) = calls w2 ++ l2 ->
  (forall rel c1 c2,
      In rel (map fst invariant_files) ->
      In (EvWriteFile (join cwd1 [root1] ++ rel) c1) l1 ->
      In (EvWriteFile (join cwd2 [root2] ++ rel) c2) l2 ->
      c1 = c2 /\ In (rel, c1) invariant_files) /\
  (forall c,
      In (EvWriteFile (join cwd1 [root1] ++ ["package.json"]) c) l1 ->
      c = JSON_stringify (package_json root1) 4) /\
  JSON_stringify (package_json "my-game") 4
  <> JSON_stringify (package_json "My Game") 4.
Proof.
  intros Hl1 Hl2. split; [ | split ].
  - intros rel c1 c2 Hrel H1 H2.
    pose proof (table_invariant _ _ _ _
                  (written_in_table _ _ _ _ _ _ _ _ Hl1 H1) Hrel) as T1.
    pose proof (table_invariant _ _ _ _
                  (written_in_table _ _ _ _ _ _ _ _ Hl2 H2) Hrel) as T2.
    split; [ by eapply invariant_files_functional | done ].
  - intros c Hc. eapply table_package.
    by eapply written_in_table.
  - vm_compute. discriminate.
Qed.

Lemma fixed_files_identical_witness :
  let run1 := init ["home"] git_init "my-game" default_options home_world in
  let run2 := init [] cannot_spawn "My Game" (Options true tpl_empty false)
                taken_world in
  (calls (world_of run1) = calls home_world ++ calls (world_of run1) /\
   calls (world_of run2) = calls taken_world ++ calls (world_of run2) /\
   In ["index.html"] (map fst invariant_files) /\
   In (EvWriteFile (join ["home"] ["my-game"] ++ ["index.html"]) index_html_text)
      (calls (world_of run1)) /\
   In (EvWriteFile (join [] ["My Game"] ++ ["index.html"]) index_html_text)
      (calls (world_of run2))) /\
  (index_html_text = index_html_text /\
   In (["index.html"], index_html_text) invariant_files).
Proof.
  intros run1 run2.
  assert (H1 : In (EvWriteFile (join ["home"] ["my-game"] ++ ["index.html"])
                     index_html_text) (calls (world_of run1))) by in_log.
  assert (H2 : In (EvWriteFile (join [] ["My Game"] ++ ["index.html"])
                     index_html_text) (calls (world_of run2))) by in_log.
  assert (H3 : In ["index.html"] (map fst invariant_files)) by in_log.
  split; [ exact (conj eq_refl (conj eq_refl (conj H3 (conj H1 H2)))) | ].
  exact (proj1 (fixed_files_identical
                  ["home"] git_init "my-game" default_options home_world
                  (calls (world_of run1))
                  [] cannot_spawn "My Game" (Options true tpl_empty false)
                  taken_world (calls (world_of run2)) eq_refl eq_refl)
           ["index.html"] index_html_text index_html_text H3 H1 H2).
Defined.

(** C2, amended.  The package descriptor that [init] writes is
    [package_json root]; its member [name] is the [root] argument
    itself, as given on the command line, exactly when the whole of
    [root] (not its base name) matches [PACKAGE_NAME_REGEX], and the
    fallback [unnamed-game] otherwise.  Root [My Game] gives the
    fallback; roots [my-game] and [@scope/pkg] are used as they are. *)
Theorem package_name_from_root (cwd : path)
    (exec : string -> path -> completion) root opts w l c :
  calls (world_of (init cwd exec root opts w)) = calls w ++ l ->
  In (EvWriteFile (join cwd [root] ++ ["package.json"]) c) l ->
  c = JSON_stringify (package_json root) 4 /\
  (exists name,
      json_get "name" (package_json root) = Some (JStr name) /\
      (name = root <-> Matches PACKAGE_NAME_REGEX root) /\
      (~ Matches PACKAGE_NAME_REGEX root -> name = "unnamed-game")) /\
  (package_name "My Game" = "unnamed-game" /\
   package_name "my-game" = "my-game" /\
   package_name "@scope/pkg" = "@scope/pkg").
Proof.
  intros Hl Hin. split; [ | split; [ | apply package_name_samples ] ].
  - eapply table_package. by eapply written_in_table.
  - exists (package_name root). split; [ reflexivity | ].
    unfold package_name.
    destruct (regex_test PACKAGE_NAME_REGEX root) eqn:Ht.
    + apply regex_test_spec in Ht. by split.
    + assert (Hn : ~ Matches PACKAGE_NAME_REGEX root).
      { intros Hm. apply regex_test_spec in Hm. congruence. }
      split; [ | done ]. split; [ | done ].
      intros <-. by vm_compute in Ht.
Qed.

Lemma package_name_from_root_witness :
  let run := init ["home"] git_init "my-game" default_options home_world in
  let c := JSON_stringify (package_json "my-game") 4 in
  (calls (world_of run) = calls home_world ++ calls (world_of run) /\
   In (EvWriteFile (join ["home"] ["my-game"] ++ ["package.json"]) c)
      (calls (world_of run))) /\
  (c = JSON_stringify (package_json "my-game") 4 /\
   (exists name,
       json_get "name" (package_json "my-game") = Some (JStr name) /\
       (name = "my-game" <-> Matches PACKAGE_NAME_REGEX "my-game") /\
       (~ Matches PACKAGE_NAME_REGEX "my-game" -> name = "unnamed-game")) /\
   (package_name "My Game" = "unnamed-game" /\
    package_name "my-game" = "my-game" /\
    package_name "@scope/pkg" = "@scope/pkg")).
Proof.
  intros run c.
  assert (H : In (EvWriteFile (join ["home"] ["my-game"] ++ ["package.json"]) c)
                 (calls (world_of run))) by in_log.
  split; [ exact (conj eq_refl H) | ].
  exact (package_name_from_root ["home"] git_init "my-game"
           default_options home_world (calls (world_of run)) c eq_refl H).
Defined.

(** C2 as stated fails: for the root [games/my-game] the base name
    [my-game] matches the pattern, yet the descriptor is named
    [unnamed-game], not [my-game]. *)
Lemma package_name_is_not_basename :
  spec_basename "games/my-game" = "my-game" /\
  Matches PACKAGE_NAME_REGEX (spec_basename "games/my-game") /\
  json_get "name" (package_json "games/my-game") = Some (JStr "unnamed-game") /\
  In (EvWriteFile (join ["home"] ["games/my-game"] ++ ["package.json"])
        (JSON_stringify (package_json "games/my-game") 4))
     (calls (world_of (init ["home"] git_init "games/my-game"
                         default_options home_world))).
Proof.
  split; [ by vm_compute | ].
  split; [ apply regex_test_spec; by vm_compute | ].
  split; [ by vm_compute | in_log ].
Qed.

(* ================================================================= *)
(** ** The identifier of a stub (claim C3) *)

(** [normalizeName] rewrites the leftmost hyphen that is followed by
    a letter and copies everything after it, further hyphens
    included. *)
Lemma normalizeName_first_match a d r :
  no_hyphen_letter a = true -> is_letter d = true ->
  normalizeName (a +:+ String "-" (String d r))
  = a +:+ String (toUpperCase_char d) r.
Proof.
  intros Ha Hd. induction a as [|c a IH].
  - rewrite !append_nil_l. cbn [normalizeName]. by rewrite Hd.
  - rewrite !append_cons. cbn [normalizeName no_hyphen_letter] in *.
    destruct a as [|d' a'].
    + rewrite append_nil_l in *.
      replace (Ascii.eqb c "-" && is_letter "-") with false
        by (by rewrite andb_false_r).
      by rewrite IH.
    + rewrite append_cons in *.
      apply andb_true_iff in Ha as [Hc Ha]. apply negb_true_iff in Hc.
      rewrite Hc. by rewrite IH.
Qed.

(** Without such a hyphen the name is left as it is. *)
Lemma normalizeName_no_match a :
  no_hyphen_letter a = true -> normalizeName a = a.
Proof.
  induction a as [|c a IH]; [ done | ].
  cbn [normalizeName no_hyphen_letter]. destruct a as [|d a']; [ done | ].
  intros [Hc Ha]%andb_true_iff. apply negb_true_iff in Hc.
  rewrite Hc. by rewrite IH.
Qed.

(** C3, the part that holds and the input where the code departs from
    it.  [add scene boss-fight] in a project writes
    src/scenes/boss-fight.ts, the file name keeping the raw name, with
    a function called [bossFight].  With two hyphens only the first
    is rewritten: [add scene big-boss-fight] writes a function called
    [bigBoss-fight], where the specification asks for
    [bigBossFight]. *)
Theorem normalizeName_rewrites_first_hyphen_only :
  normalizeName "boss-fight" = "bossFight" /\
  calls (world_of (add ["home"] "scene" "boss-fight" project_world))
  = [ EvWriteFile ["home"; "src"; "scenes"; "boss-fight.ts"]
        (scene_stub "bossFight") ] /\
  normalizeName "big-boss-fight" = "bigBoss-fight" /\
  spec_camelCase "big-boss-fight" = "bigBossFight" /\
  calls (world_of (add ["home"] "scene" "big-boss-fight" project_world))
  = [ EvWriteFile ["home"; "src"; "scenes"; "big-boss-fight.ts"]
        (scene_stub "bigBoss-fight") ].
Proof. repeat split; by vm_compute. Qed.

(* ================================================================= *)
(** ** [add] outside a project (claim C7) *)

(** C7, amended.  When [type] is not one of scene, object, component,
    or when nothing at all is found at src/scenes under the working
    directory, [add] reports the matching error and ends the process
    with status 1; it issues no file-system call and leaves the disk
    as it was.  (The test of the code is that [stat] succeeds on
    src/scenes: whatever is found there passes it, a regular file
    included.) *)
Theorem add_refuses (cwd : path) type name w :
  existsb (String.eqb type) ["scene"; "object"; "component"] = false \/
  lookup_path (join cwd ["src"; "scenes"]) (Some (disk w)) = None ->
  add cwd type name w
  = Halt (Exit 1 (if existsb (String.eqb type) ["scene"; "object"; "component"]
                  then NotInProject else BadType)) w /\
  exit_status (add cwd type name w) = 1.
Proof.
  intros H.
  assert (Hrun : add cwd type name w
                 = Halt (Exit 1 (if existsb (String.eqb type)
                                      ["scene"; "object"; "component"]
                                 then NotInProject else BadType)) w).
  { unfold add.
    destruct (existsb (String.eqb type) ["scene"; "object"; "component"]).
    - destruct H as [H|H]; [ done | ].
      cbn [negb]. rewrite (bind_Ret _ _ w tt w) by reflexivity.
      rewrite (bind_Ret _ _ w false w)
        by (rewrite exists_untrailed by reflexivity; by rewrite H).
      reflexivity.
    - reflexivity. }
  split; [ exact Hrun | ]. by rewrite Hrun.
Qed.

Lemma add_refuses_witness :
  (existsb (String.eqb "scene") ["scene"; "object"; "component"] = false \/
   lookup_path (join ["home"] ["src"; "scenes"]) (Some (disk home_world)) = None) /\
  (add ["home"] "scene" "boss-fight" home_world
   = Halt (Exit 1 (if existsb (String.eqb "scene") ["scene"; "object"; "component"]
                   then NotInProject else BadType)) home_world /\
   exit_status (add ["home"] "scene" "boss-fight" home_world) = 1).
Proof.
  assert (H : existsb (String.eqb "scene") ["scene"; "object"; "component"] = false \/
              lookup_path (join ["home"] ["src"; "scenes"])
                (Some (disk home_world)) = None)
    by (right; by vm_compute).
  split; [ exact H | ].
  exact (add_refuses ["home"] "scene" "boss-fight" home_world H).
Defined.

(** C7 as stated fails: in [notes_world] no scenes directory is
    present, src/scenes being a regular file, yet [add object x] does
    not refuse.  It completes, having made the directory src/objects
    and written x.ts into it. *)
Lemma add_accepts_a_file_named_scenes :
  lookup_path ["home"; "src"; "scenes"] (Some (disk notes_world))
  = Some (File "notes") /\
  add ["home"] "object" "x" notes_world
  = Ret tt (world_of (add ["home"] "object" "x" notes_world)) /\
  exit_status (add ["home"] "object" "x" notes_world) = 0 /\
  calls (world_of (add ["home"] "object" "x" notes_world))
  = [ EvMkdir ["home"; "src"; "objects"];
      EvWriteFile ["home"; "src"; "objects"; "x.ts"] (object_stub "x") ] /\
  lookup_path ["home"; "src"; "objects"; "x.ts"]
    (Some (disk (world_of (add ["home"] "object" "x" notes_world))))
  = Some (File (object_stub "x")).
Proof. repeat split; by vm_compute. Qed.

(* ================================================================= *)
(** ** The collision check of [init] (claim C4) *)

(** C4, amended.  What counts is whether [stat] succeeds on the
    project root as [join] returns it.  When it does (something is at
    the root, a directory if the root argument ends in a separator):
    without [force], [init] reports that the root already exists and
    ends the process with status 1, having issued no file-system call
    and with the disk as it was; with [force], the first call is the
    removal of the root, after which nothing is left at the root or
    below it, and only then does the scaffolding run (the root
    directory of the file system cannot be removed).  When the root
    argument ends in a separator and names a regular file, [stat]
    fails: whatever [force] is, nothing is reported and nothing is
    removed, and the run fails with [EEXIST] at the [mkdir] of the
    root, its one call. *)
Theorem init_collision (cwd : path) (exec : string -> path -> completion) root
    opts w :
  (is_some_node (stat (join cwd [root]) (disk w)) = true ->
   (force opts = false ->
      init cwd exec root opts w = Halt (Exit 1 AlreadyExists) w /\
      exit_status (init cwd exec root opts w) = 1) /\
   (force opts = true -> components (join cwd [root]) <> [] ->
      exists d1,
        prune (join cwd [root]) (Some (disk w)) = Some d1 /\
        (forall rel, lookup_path (join cwd [root] ++ rel) (Some d1) = None) /\
        init cwd exec root opts w
        = scaffold exec (join cwd [root]) root opts
            (World d1 (calls w ++ [EvRm (join cwd [root])])))) /\
  (forall c,
      trailing (join cwd [root]) = true ->
      lookup_path (join cwd [root]) (Some (disk w)) = Some (File c) ->
      is_some_node (stat (join cwd [root]) (disk w)) = false /\
      init cwd exec root opts w
      = Halt (Rejected (FsError EEXIST))
          (World (disk w) (calls w ++ [EvMkdir (join cwd [root])]))).
Proof.
  set (P := join cwd [root]). split.
  - intros He. split.
    + intros Hf.
      assert (Hrun : init cwd exec root opts w = Halt (Exit 1 AlreadyExists) w)
        by (by rewrite init_run; fold P; rewrite He, Hf).
      split; [ exact Hrun | ]. by rewrite Hrun.
    + intros Hf HR.
      destruct (stat P (disk w)) as [n|] eqn:Hs; [ | done ].
      pose proof (stat_found _ _ _ Hs) as Hl.
      destruct (prune_over P _ _ HR Hl) as [d1 Hd1].
      exists d1. split; [ done | ]. split.
      * intros rel. apply lookup_path_below_None. by eapply prune_gone.
      * rewrite init_run. fold P. rewrite Hs, Hf. cbn [is_some_node].
        rewrite rm_Plain by (by rewrite Hs).
        by rewrite rm_run, Hl, Hd1.
  - intros c Ht Hc. split.
    + assert (Hs : stat P (disk w) = None) by (apply stat_None; right; eauto).
      by rewrite Hs.
    + by eapply init_behind_file.
Qed.

Lemma init_collision_witness :
  is_some_node (stat (join ["home"] ["game"]) (disk taken_world)) = true /\
  (init ["home"] git_init "game" (Options false tpl_basic false) taken_world
   = Halt (Exit 1 AlreadyExists) taken_world /\
   exit_status (init ["home"] git_init "game"
                  (Options false tpl_basic false) taken_world) = 1) /\
  (exists d1,
      prune (join ["home"] ["game"]) (Some (disk taken_world)) = Some d1 /\
      (forall rel, lookup_path (join ["home"] ["game"] ++ rel) (Some d1) = None) /\
      init ["home"] git_init "game" (Options true tpl_basic false) taken_world
      = scaffold git_init (join ["home"] ["game"]) "game"
          (Options true tpl_basic false)
          (World d1 (calls taken_world ++ [EvRm (join ["home"] ["game"])]))).
Proof.
  assert (He : is_some_node (stat (join ["home"] ["game"]) (disk taken_world))
               = true)
    by (by vm_compute).
  split; [ exact He | ]. split.
  - exact (proj1 (proj1 (init_collision ["home"] git_init "game"
                           (Options false tpl_basic false) taken_world) He)
             eq_refl).
  - apply (proj2 (proj1 (init_collision ["home"] git_init "game"
                           (Options true tpl_basic false) taken_world) He)
             eq_refl).
    by vm_compute.
Defined.

(** C4 as stated fails: in [taken_world] the regular file
    /home/game/save.dat exists, and the root argument
    [game/save.dat/] names it, with a separator at its end.  Without
    [force] the run does not end with the report that the root
    exists: it asks for the directory to be made and is rejected with
    [EEXIST].  With [force] nothing is removed: the run is the same,
    and the file is still there. *)
Lemma init_does_not_see_a_file_behind_a_separator :
  let run f := init ["home"] git_init "game/save.dat/"
                 (Options f tpl_basic false) taken_world in
  join ["home"] ["game/save.dat/"] = Pathname ["home"; "game"; "save.dat"] true /\
  lookup_path ["home"; "game"; "save.dat"] (Some (disk taken_world))
  = Some (File "level 3") /\
  (forall f,
      run f = Halt (Rejected (FsError EEXIST))
                (World (disk taken_world)
                   [EvMkdir ["home"; "game"; "save.dat"]])) /\
  run false <> Halt (Exit 1 AlreadyExists) taken_world /\
  ~ In (EvRm ["home"; "game"; "save.dat"]) (calls (world_of (run true))) /\
  lookup_path ["home"; "game"; "save.dat"] (Some (disk (world_of (run true))))
  = Some (File "level 3").
Proof.
  intros run. split; [ by vm_compute | ]. split; [ by vm_compute | ].
  split; [ intros []; by vm_compute | ].
  split; [ by vm_compute | ]. split; [ | by vm_compute ].
  vm_compute. intros [H|[]]. discriminate H.
Qed.

(* ================================================================= *)
(** ** [makeFolders] is recursive and idempotent (claim C6) *)

(** C6, amended.  For every path that no regular file blocks (none
    stands at the path or on the way to it), with or without a
    separator at its end, [makeFolders] succeeds; afterwards the path
    and every ancestor of it is a directory, and nothing off the way
    to the path has changed.  A second call on the same path succeeds
    as well, issues no call and leaves the disk as it is. *)
Theorem makeFolders_recursive_idempotent (p : pathname) w :
  creatable p (Some (disk w)) = true ->
  exists w',
    makeFolders p w = Ret tt w' /\
    (forall q, q `prefix_of` p ->
               is_dir (lookup_path q (Some (disk w'))) = true) /\
    (forall x, ~ x `prefix_of` p ->
               lookup_path x (Some (disk w')) = lookup_path x (Some (disk w))) /\
    makeFolders p w' = Ret tt w'.
Proof.
  intros Hc. destruct (makeFolders_ok p w Hc) as (w' & Hrun & Hdir).
  assert (Hs : stat p (disk w) = lookup_path p (Some (disk w))).
  { destruct (stat_cases p (disk w)) as [H | (_ & c & H)]; [ done | ].
    by destruct (creatable_lookup _ _ _ Hc H). }
  exists w'. rewrite (makeFolders_Plain _ _ Hs).
  rewrite (makeFolders_Plain p w') by (by apply stat_dir).
  split; [ done | ]. split; [ | split ].
  - intros q [k Hk]. destruct k as [|s r].
    + rewrite app_nil_r in Hk. by rewrite <- Hk.
    + rewrite Hk in Hdir.
      destruct (lookup_path (q ++ s :: r) (Some (disk w'))) as [n|] eqn:Hl;
        [ | done ].
      by destruct (lookup_path_above _ _ _ _ _ Hl) as [es ->].
  - intros x Hx. by eapply makeFolders_frame.
  - by eapply makeFolders_again.
Qed.

Lemma makeFolders_recursive_idempotent_witness :
  creatable (Pathname ["home"; "a"; "b"; "c"] true) (Some (disk home_world))
  = true /\
  exists w',
    makeFolders (Pathname ["home"; "a"; "b"; "c"] true) home_world = Ret tt w' /\
    (forall q, q `prefix_of` ["home"; "a"; "b"; "c"] ->
               is_dir (lookup_path q (Some (disk w'))) = true) /\
    (forall x, ~ x `prefix_of` ["home"; "a"; "b"; "c"] ->
               lookup_path x (Some (disk w'))
               = lookup_path x (Some (disk home_world))) /\
    makeFolders (Pathname ["home"; "a"; "b"; "c"] true) w' = Ret tt w'.
Proof.
  assert (H : creatable (Pathname ["home"; "a"; "b"; "c"] true)
                (Some (disk home_world)) = true)
    by (by vm_compute).
  split; [ exact H | ].
  exact (makeFolders_recursive_idempotent
           (Pathname ["home"; "a"; "b"; "c"] true) home_world H).
Defined.

(** C6 as stated fails, not every path is made a directory: on the
    regular file /home/game/save.dat [makeFolders] returns without a
    call and the path is still a regular file; below that file it
    fails with [ENOTDIR]; behind a separator it fails on the file
    with [EEXIST]. *)
Lemma makeFolders_does_not_make_every_path :
  makeFolders ["home"; "game"; "save.dat"] taken_world = Ret tt taken_world /\
  is_dir (lookup_path ["home"; "game"; "save.dat"] (Some (disk taken_world)))
  = false /\
  makeFolders ["home"; "game"; "save.dat"; "slot"] taken_world
  = Halt (Rejected (FsError ENOTDIR))
      (World (disk taken_world)
         [EvMkdir ["home"; "game"; "save.dat"; "slot"]]) /\
  makeFolders (Pathname ["home"; "game"; "save.dat"] true) taken_world
  = Halt (Rejected (FsError EEXIST))
      (World (disk taken_world) [EvMkdir ["home"; "game"; "save.dat"]]).
Proof. repeat split; by vm_compute. Qed.

(* ================================================================= *)
(** ** [add] in a project that lacks the directory of the kind
       (claim C9) *)

Section AddFacts.

Lemma join_snoc (cwd : path) args seg :
  has_slash seg = false -> plain seg = true ->
  components (join cwd (args ++ [seg])) = join cwd args ++ [seg].
Proof.
  intros Hs Hp. unfold join. cbn [components Plain].
  rewrite map_app, concat_app. cbn [map concat].
  rewrite (split_slash_whole _ Hs), app_nil_r, app_assoc.
  rewrite normalize_onto_app, normalize_onto_plain, rev_involutive; [ done | ].
  cbn [forallb]. by rewrite Hp.
Qed.

Lemma normalizeName_nonempty name :
  name <> EmptyString -> exists c r, normalizeName name = String c r.
Proof.
  destruct name as [|c [|d r]]; [ done | | ]; intros _; cbn [normalizeName].
  - eauto.
  - destruct (Ascii.eqb c "-" && is_letter d); eauto.
Qed.


Context (cwd : path).


Lemma add_component_run name w :
  is_some_node (lookup_path (join cwd ["src"; "scenes"]) (Some (disk w))) = true ->
  add cwd "component" name w
  = match capitalize (normalizeName name) with
    | Some capitalized =>
        makeFile (join cwd ["src"; "components"; name +:+ ".ts"]) cwd
          (component_stub name (normalizeName name) capitalized)
    | None => reject TypeError
    end w.
Proof.
  intros He. unfold add.
  rewrite (bind_Ret _ _ w tt w) by reflexivity.
  rewrite (bind_Ret _ _ w true w)
    by (rewrite exists_untrailed by reflexivity; by rewrite He).
  rewrite (bind_Ret _ _ w tt w) by reflexivity.
  reflexivity.
Qed.


End AddFacts.




(* ================================================================= *)
(** ** The git step of [init] (claim C1) *)

(** A file below the root that is not one of the three configuration
    files. *)
Ltac not_config :=
  cbn [before_git config_paths In];
  intros [H|[H|[H|[]]]]; apply app_inv_head in H; discriminate H.

Ltac before_git_step :=
  lazymatch goal with
  | |- only _ (bind _ _) => apply only_bind; [ | intros ? ]
  | |- only _ (ret _) => apply only_ret
  | |- only _ (makeFolders _) => apply only_makeFolders; intros; exact I
  | |- only _ (makeFile _ _ _) =>
      apply only_makeFile; [ intros; exact I | not_config ]
  end.

Section GitStep.

Context (cwd : path) (exec : string -> path -> completion).

Lemma write_sources_before_git (R : pathname) opts :
  forallb plain R = true -> only (before_git R) (write_sources R opts).
Proof.
  intros HR. unfold write_sources.
  destruct opts as [f [|] g]; cbn [template templates for_each fst snd];
    join_norm HR; repeat before_git_step.
Qed.

Lemma write_configs_after_git (R : pathname) root :
  forallb plain R = true -> only (after_git R) (write_configs R root).
Proof.
  intros HR. unfold write_configs. join_norm HR.
  repeat lazymatch goal with
    | |- only _ (bind _ _) => apply only_bind; [ | intros ? ]
    | |- only _ (makeFile _ _ _) =>
        apply only_makeFile;
        [ intros; exact I | cbn [after_git config_paths]; in_list ]
    end.
Qed.

Lemma around_git_prefix R child o l1 l2 :
  Forall (before_git R) l1 -> around_git R child o l2 ->
  around_git R child o (l1 ++ l2).
Proof.
  intros H1 [[Ho H2] | (a & b & -> & Ha & Hb & Hc)].
  - left. split; [ done | by apply Forall_app ].
  - right. exists (l1 ++ a), b. rewrite <- app_assoc.
    split; [ done | ]. split; [ by apply Forall_app | done ].
Qed.

Lemma init_git_around (R : pathname) opts :
  forallb plain R = true -> nogit opts = false ->
  emits (fun o l =>
           (o <> None /\ Forall (before_git R) l) \/
           (exists l1, l = l1 ++ [EvExec "git init" R] /\
                       Forall (before_git R) l1 /\
                       match exec "git init" R with
                       | ChildError => o = Some (Rejected SpawnError)
                       | ChildExit _ _ => o = None
                       end))
        (init_git exec R opts).
Proof.
  intros HR Hg. unfold init_git. rewrite Hg. cbn [negb]. join_norm HR.
  eapply emits_bind with
    (P1 := fun _ l => Forall (before_git R) l)
    (P2 := fun o l =>
             l = [EvExec "git init" R] /\
             match exec "git init" R with
             | ChildError => o = Some (Rejected SpawnError)
             | ChildExit _ _ => o = None
             end).
  - apply only_makeFile; [ intros; exact I | not_config ].
  - intros _ w. exists [EvExec "git init" R].
    unfold bind. rewrite runCommand_run. cbn zeta.
    by destruct (exec "git init" R) as [c tree|].
  - intros h l1 H1. left. by split.
  - intros l1 o l2 H1 [-> H2]. right. by exists l1.
Qed.

Lemma scaffold_around (R : pathname) root opts :
  forallb plain R = true -> nogit opts = false ->
  emits (around_git R (exec "git init" R)) (scaffold exec R root opts).
Proof.
  intros HR Hg. unfold scaffold.
  eapply emits_bind with (P1 := fun _ l => Forall (before_git R) l)
                         (P2 := around_git R (exec "git init" R)).
  - by apply write_sources_before_git.
  - intros _.
    eapply emits_bind with (P2 := fun _ l => Forall (after_git R) l).
    + by apply init_git_around.
    + intros _. by apply write_configs_after_git.
    + intros h l1 [H|(a & -> & Ha & Hc)]; [ by left | ].
      right. exists a, []. split; [ done | ]. split; [ done | ].
      split; [ by constructor | ].
      destruct (exec "git init" R); [ done | by split ].
    + intros l1 o l2 [[Ho _]|(a & -> & Ha & Hc)] H2; [ done | ].
      right. exists a, l2. rewrite <- app_assoc.
      split; [ done | ]. split; [ done | ]. split; [ done | ].
      by destruct (exec "git init" R).
  - intros h l1 H1. left. by split.
  - intros l1 o l2 H1 H2. by apply around_git_prefix.
Qed.

Lemma init_around root opts :
  nogit opts = false ->
  emits (around_git (join cwd [root]) (exec "git init" (join cwd [root])))
        (init cwd exec root opts).
Proof.
  intros Hg. unfold init. set (R := join cwd [root]).
  assert (HR : forallb plain R = true) by apply join_is_plain.
  eapply emits_bind with (P1 := fun _ l => Forall (before_git R) l)
                         (P2 := around_git R (exec "git init" R)).
  - apply only_exists.
  - intros taken.
    eapply emits_bind with (P1 := fun _ l => Forall (before_git R) l)
                           (P2 := around_git R (exec "git init" R)).
    + destruct taken; [ | apply only_ret ].
      apply only_bind; [ | intros _; by apply only_rm ].
      destruct (negb (force opts));
        [ apply only_process_exit | apply only_ret ].
    + intros _. by apply scaffold_around.
    + intros h l1 H1. left. by split.
    + intros l1 o l2 H1 H2. by apply around_git_prefix.
  - intros h l1 H1. left. by split.
  - intros l1 o l2 H1 H2. by apply around_git_prefix.
Qed.

(** The exit code of the child does not matter: the run is the one
    of the child that leaves the same and exits with code 0. *)
Lemma init_git_exit_ignored (R : pathname) opts w :
  init_git exec R opts w
  = init_git (fun command dir => exit_code_zero (exec command dir)) R opts w.
Proof.
  unfold init_git. destruct (negb (nogit opts)); [ | done ].
  apply bind_ext. intros _ w1.
  unfold bind. rewrite !runCommand_run. cbn zeta. unfold exit_code_zero.
  by destruct (exec "git init" R) as [c tree|].
Qed.

Lemma scaffold_exit_ignored (R : pathname) root opts w :
  scaffold exec R root opts w
  = scaffold (fun command dir => exit_code_zero (exec command dir)) R root opts w.
Proof.
  unfold scaffold. apply bind_ext. intros _ w1.
  apply bind_ext_l. apply init_git_exit_ignored.
Qed.

Lemma init_exit_ignored root opts w :
  init cwd exec root opts w
  = init cwd (fun command dir => exit_code_zero (exec command dir)) root opts w.
Proof.
  unfold init. apply bind_ext. intros taken w1.
  apply bind_ext. intros _ w2. apply scaffold_exit_ignored.
Qed.

End GitStep.

(* ================================================================= *)
(** ** Running below a directory *)

Section GraftFacts.

(** Putting back what is there changes nothing. *)
Lemma graft_same R : forall on x,
  lookup_path R on = Some x -> graft R x on = on.
Proof.
  induction R as [|s R IH]; intros on x Hl; simpl in *; [ done | ].
  destruct on as [[c|es]|]; try discriminate.
  rewrite (IH _ _ Hl). destruct (es !! s) as [n|] eqn:Hs.
  - by rewrite insert_id.
  - by rewrite lookup_path_None in Hl.
Qed.

(** The second of two grafts at one place wins. *)
Lemma graft_graft R : forall on x y d1,
  graft R y on = Some d1 -> graft R x (Some d1) = graft R x on.
Proof.
  induction R as [|s R IH]; intros on x y d1 Hg; simpl in *; [ done | ].
  destruct on as [[c|es]|]; try discriminate.
  destruct (graft R y (es !! s)) as [c1|] eqn:Hc; [ | discriminate ].
  injection Hg as <-. rewrite lookup_insert_eq.
  destruct (es !! s) as [n|] eqn:Hs.
  - rewrite (IH _ x _ _ Hc). destruct (graft R x (Some n)); [ | done ].
    by rewrite insert_insert_eq.
  - destruct R as [|s' R'].
    + simpl in *. by rewrite insert_insert_eq.
    + discriminate.
Qed.

Lemma why_missing_app R : forall x on n,
  lookup_path R on = Some n ->
  why_missing (R ++ x) on = why_missing x (Some n).
Proof.
  induction R as [|s R IH]; intros x on n Hl; simpl in *.
  - by subst.
  - destruct on as [[c|es]|]; try discriminate. eauto.
Qed.

End GraftFacts.

Section Local.

Context (R : path).

Lemma local_ext {A} (mg mg' ml ml' : M A) :
  (forall w, mg w = mg' w) -> (forall w, ml w = ml' w) ->
  local_at R mg' ml' -> local_at R mg ml.
Proof. intros Hg Hl H wg wl Hw. rewrite Hg, Hl. by apply H. Qed.

Lemma local_ret {A} (a : A) : local_at R (ret a) (ret a).
Proof.
  intros wg wl Hw. exists (disk wg), []. simpl.
  rewrite (graft_same _ _ _ Hw), !app_nil_r. by destruct wg.
Qed.

Lemma local_bind {A B} (mg ml : M A) (fg fl : A -> M B) :
  local_at R mg ml -> (forall a, local_at R (fg a) (fl a)) ->
  local_at R (bind mg fg) (bind ml fl).
Proof.
  intros Hm Hf wg wl Hw. unfold bind.
  destruct (Hm wg wl Hw) as (d1 & l1 & Hg1 & Hl1 & Hrun1). rewrite Hrun1.
  destruct (ml wl) as [a wl1|h wl1]; simpl in *.
  - set (wg1 := World d1 (calls wg ++ map (shift R) l1)).
    assert (Hw1 : lookup_path R (Some (disk wg1)) = Some (disk wl1))
      by (by eapply lookup_graft).
    destruct (Hf a wg1 wl1 Hw1) as (d2 & l2 & Hg2 & Hl2 & Hrun2).
    exists d2, (l1 ++ l2). split; [ | split ].
    + by rewrite <- (graft_graft _ _ _ _ _ Hg1).
    + by rewrite Hl2, Hl1, app_assoc.
    + rewrite Hrun2. subst wg1. simpl.
      by rewrite map_app, app_assoc.
  - exists d1, l1. done.
Qed.

Lemma local_exists rel : local_at R (exists_ (R ++ rel)) (exists_ rel).
Proof.
  intros wg wl Hw. exists (disk wg), []. rewrite !exists_run. simpl.
  rewrite (graft_same _ _ _ Hw), !app_nil_r, lookup_path_app, Hw.
  by destruct wg.
Qed.

Lemma local_mkdir rel : local_at R (mkdir (R ++ rel)) (mkdir rel).
Proof.
  intros wg wl Hw. rewrite !mkdir_run. cbn zeta.
  rewrite lookup_path_app, Hw.
  destruct (lookup_path rel (Some (disk wl))) as [n|] eqn:Hl.
  - exists (disk wg), [EvMkdir rel]. simpl.
    by rewrite (graft_same _ _ _ Hw).
  - rewrite graft_app, Hw.
    destruct (graft rel (Dir ∅) (Some (disk wl))) as [sub'|] eqn:Hg.
    + destruct (graft_over R sub' _ _ Hw) as [d' Hd'].
      exists d', [EvMkdir rel]. simpl. by rewrite Hd'.
    + exists (disk wg), [EvMkdir rel]. simpl.
      rewrite (graft_same _ _ _ Hw). split; [ done | ]. split; [ done | ].
      destruct rel as [|s rel']; [ done | ].
      rewrite dirname_under by done.
      by rewrite (why_missing_app _ _ _ _ Hw).
Qed.

Lemma local_writeFile rel c :
  rel <> [] -> local_at R (writeFile (R ++ rel) c) (writeFile rel c).
Proof.
  intros Hne wg wl Hw. rewrite !writeFile_run. cbn zeta.
  rewrite lookup_path_app, Hw, graft_app, Hw, (dirname_under _ _ Hne),
    (why_missing_app _ _ _ _ Hw).
  destruct (lookup_path rel (Some (disk wl))) as [[c'|es]|];
    try (destruct (graft rel (File c) (Some (disk wl))) as [sub'|] eqn:Hg);
    simpl;
    first [ destruct (graft_over R sub' _ _ Hw) as [d' Hd'];
            exists d', [EvWriteFile rel c]; simpl; by rewrite Hd'
          | exists (disk wg), [EvWriteFile rel c]; simpl;
            by rewrite (graft_same _ _ _ Hw) ].
Qed.

Lemma local_makeFolders rel :
  local_at R (makeFolders (R ++ rel)) (makeFolders rel).
Proof.
  induction rel as [|s q IH] using rev_ind.
  - intros wg wl Hw. rewrite app_nil_r.
    rewrite !makeFolders_present by (by rewrite ?Hw).
    by apply (local_ret tt).
  - eapply local_ext;
      [ intros w; apply makeFolders_unfold
      | intros w; apply makeFolders_unfold | ].
    rewrite app_assoc, !dirname_snoc.
    apply local_bind; [ apply local_exists | intros parent ].
    apply local_bind.
    { destruct parent; [ apply local_ret | apply IH ]. }
    intros _. rewrite <- app_assoc.
    apply local_bind; [ apply local_exists | intros here ].
    destruct here; [ apply local_ret | apply local_mkdir ].
Qed.

Lemma local_makeFile rel (cwd1 : path) (cwd2 : path) c :
  rel <> [] ->
  local_at R (makeFile (R ++ rel) cwd1 c) (makeFile rel cwd2 c).
Proof.
  intros Hne. unfold makeFile. rewrite dirname_under by done.
  apply local_bind; [ apply local_makeFolders | intros _ ].
  by apply local_writeFile.
Qed.

(** The repository that the child leaves in the directory [R] is
    the one it leaves in the directory seen from inside. *)
Lemma local_runCommand (exec : string -> path -> completion)
    (exec' : string -> path -> completion) cmd :
  exec cmd R = exec' cmd [] ->
  local_at R (runCommand exec cmd R) (runCommand exec' cmd []).
Proof.
  intros He wg wl Hw. rewrite !runCommand_run. cbn zeta.
  cbn [components Plain]. rewrite He.
  destruct (exec' cmd []) as [c [tree|]|]; cbn [world_of relabel disk calls].
  - cbn [app]. rewrite (graft_app R), Hw.
    destruct (graft [".git"] tree (Some (disk wl))) as [dl|] eqn:Hg;
      cbn [default].
    + destruct (graft_over R dl _ _ Hw) as [d' Hd'].
      exists d', [EvExec cmd []]. rewrite Hd'. cbn [default map shift].
      by rewrite app_nil_r.
    + exists (disk wg), [EvExec cmd []]. cbn [map shift].
      by rewrite (graft_same _ _ _ Hw), app_nil_r.
  - exists (disk wg), [EvExec cmd []]. cbn [map shift].
    by rewrite (graft_same _ _ _ Hw), app_nil_r.
  - exists (disk wg), [EvExec cmd []]. cbn [map shift].
    by rewrite (graft_same _ _ _ Hw), app_nil_r.
Qed.

End Local.

(* ================================================================= *)
(** ** [init] on a fresh root (claim C5) *)

(** [join_norm] for a goal that has the root [R] and the root [[]]. *)
Ltac join_norm2 HR :=
  repeat match goal with
    | |- context [join ?R ?args] =>
        let segs := eval vm_compute in (concat (map split_slash args)) in
        first [ rewrite (join_under R args segs HR eq_refl eq_refl eq_refl)
              | rewrite (join_under R args segs eq_refl eq_refl eq_refl eq_refl) ]
    end;
  rewrite ?components_Plain; cbn [app].

Ltac local_step :=
  lazymatch goal with
  | |- local_at _ (bind _ _) (bind _ _) => apply local_bind; [ | intros ? ]
  | |- local_at _ (ret _) (ret _) => apply local_ret
  | |- local_at _ (makeFolders (Plain (_ ++ _))) (makeFolders _) =>
      apply local_makeFolders
  | |- local_at _ (makeFile (_ ++ _) _ _) (makeFile _ _ _) =>
      apply local_makeFile; discriminate
  end.

Section ScaffoldLocal.

Context (R : path) (R_plain : forallb plain R = true).

Lemma local_makeFolders_root : local_at R (makeFolders R) (makeFolders []).
Proof.
  pose proof (local_makeFolders R []) as H. by rewrite app_nil_r in H.
Qed.

Lemma write_sources_local opts :
  local_at R (write_sources R opts) (write_sources [] opts).
Proof.
  unfold write_sources.
  apply local_bind; [ apply local_makeFolders_root | intros _ ].
  destruct opts as [f [|] g]; cbn [template templates for_each fst snd];
    join_norm2 R_plain; repeat local_step.
Qed.

Lemma init_git_local (exec : string -> path -> completion)
    (exec' : string -> path -> completion) opts :
  exec "git init" R = exec' "git init" [] ->
  local_at R (init_git exec R opts) (init_git exec' [] opts).
Proof.
  intros He. unfold init_git.
  destruct (negb (nogit opts)); [ | apply local_ret ].
  join_norm2 R_plain. local_step; [ local_step | ].
  local_step; [ by apply local_runCommand | apply local_ret ].
Qed.

Lemma write_configs_local root :
  local_at R (write_configs R root) (write_configs [] root).
Proof. unfold write_configs. join_norm2 R_plain. repeat local_step. Qed.

Lemma scaffold_local (exec : string -> path -> completion)
    (exec' : string -> path -> completion) root opts :
  exec "git init" R = exec' "git init" [] ->
  local_at R (scaffold exec R root opts) (scaffold exec' [] root opts).
Proof.
  intros He. unfold scaffold.
  apply local_bind; [ apply write_sources_local | intros _ ].
  apply local_bind; [ by apply init_git_local | intros _ ].
  apply write_configs_local.
Qed.

(** [scaffold] starts with [makeFolders(projectRoot)]: it runs the
    same from the world that [makeFolders] leaves. *)
Lemma scaffold_after_makeFolders (exec : string -> path -> completion) root
    opts w w1 :
  makeFolders R w = Ret tt w1 ->
  scaffold exec R root opts w = scaffold exec R root opts w1.
Proof.
  intros Hmk. pose proof (makeFolders_again _ _ _ Hmk) as Hmk1.
  assert (Hbb : forall (m : M unit) (f g : unit -> M unit) v v1,
             m v = Ret tt v1 -> bind (bind m f) g v = bind (f tt) g v1).
  { intros m f g v v1 Hm. unfold bind. by rewrite Hm. }
  unfold scaffold, write_sources.
  by rewrite (Hbb _ _ _ _ _ Hmk), (Hbb _ _ _ _ _ Hmk1).
Qed.

End ScaffoldLocal.

(** *** The tree that [scaffold] builds in an empty directory *)

Section Listing.

(** [files_of] lists the files of a shallow tree, each once under
    its path. *)
Lemma files_of_spec fuel : forall n rel c,
  shallow fuel n = true ->
  lookup_path rel (Some n) = Some (File c) <-> In (rel, c) (files_of fuel n).
Proof.
  induction fuel as [|k IH]; intros n rel c Hs; [ discriminate Hs | ].
  destruct n as [c0|es]; cbn [files_of shallow] in *.
  - destruct rel as [|s rel]; cbn [lookup_path In].
    + split; [ intros [= ->]; by left | intros [[= ->]|[]]; done ].
    + split; [ done | intros [[=]|[]] ].
  - rewrite forallb_forall in Hs. rewrite in_flat_map. split.
    + destruct rel as [|s rel]; [ done | ]. cbn [lookup_path].
      destruct (es !! s) as [ch|] eqn:Hch;
        [ | by rewrite lookup_path_None ].
      intros Hl. exists (s, ch).
      assert (Hin : In (s, ch) (map_to_list es))
        by (by apply list_elem_of_In, elem_of_map_to_list).
      split; [ done | ]. apply in_map_iff. exists (rel, c).
      split; [ done | ]. apply IH; [ by apply (Hs (s, ch)) | done ].
    + intros ([s ch] & Hin & Hmap).
      apply in_map_iff in Hmap as ([rel' c'] & [= <- <-] & Hrel).
      cbn [lookup_path fst snd] in *.
      pose proof (Hs _ Hin) as Hsh. apply list_elem_of_In in Hin.
      apply elem_of_map_to_list in Hin. rewrite Hin.
      by apply IH.
Qed.

Lemma template_dirs_empty :
  template_dirs tpl_empty
  = [ ["assets"]; ["src"; "objects"]; ["src"; "components"] ].
Proof. reflexivity. Qed.

Lemma template_dirs_basic :
  template_dirs tpl_basic = [ ["assets"]; ["src"; "components"] ].
Proof. reflexivity. Qed.

End Listing.

(** Two lists given by their elements have the same elements. *)
Ltac same_elements :=
  let H := fresh "H" in
  split; intros H; cbn [In] in H;
  repeat (destruct H as [H|H]; [ rewrite <- H; solve [ in_list ] | ]);
  destruct H.

Section EmptyDir.

(** In an empty directory, with a child that exits and leaves
    nothing, [scaffold] completes, and the files of the tree it leaves
    are those of the two tables. *)
Lemma scaffold_in_empty_dir_bare (exec : string -> path -> completion) root
    opts :
  (nogit opts = false -> exists code, exec "git init" [] = ChildExit code None) ->
  let r := scaffold exec [] root opts (World (Dir ∅) []) in
  halted r = None /\
  (forall rel c,
      lookup_path rel (Some (disk (world_of r))) = Some (File c) <->
      In (rel, c) (auxiliary_files root (nogit opts)
                   ++ template_files (template opts))) /\
  (forall rel, In rel (template_dirs (template opts)) ->
               is_dir (lookup_path rel (Some (disk (world_of r)))) = true).
Proof.
  intros Hexec.
  destruct opts as [f t g].
  assert (Hc : g = false -> exists code, exec "git init" [] = ChildExit code None)
    by exact Hexec.
  clear Hexec.
  unfold scaffold, write_sources, init_git, write_configs, runCommand,
    auxiliary_files.
  cbn [components Plain].
  destruct t, g;
    try (destruct (Hc eq_refl) as [code ->]); clear Hc;
    cbn [template nogit templates for_each fst snd negb];
    rewrite ?template_files_empty, ?template_files_basic,
      ?template_dirs_empty, ?template_dirs_basic;
    cbn [app];
    generalize empty_main_ts basic_message_ts basic_main_ts basic_other_ts
      index_ts_text constants_ts_text index_html_text vite_config_text
      gitignore_text (JSON_stringify manifest_json 4)
      (JSON_stringify prettierrc_json 4) (JSON_stringify tsconfig_json 4)
      (JSON_stringify (package_json root) 4);
    intros t1 t2 t3 t4 t5 t6 t7 t8 t9 t10 t11 t12 t13;
    lazymatch goal with
    | |- halted ?x = None /\ _ =>
        let r := fresh "r" in
        set (r := x);
        let l := eval vm_compute in (files_of 4 (disk (world_of r))) in
        assert (Hfiles : files_of 4 (disk (world_of r)) = l)
          by (vm_compute; reflexivity);
        assert (Hshallow : shallow 4 (disk (world_of r)) = true)
          by (vm_compute; reflexivity);
        (split;
         [ vm_compute; reflexivity
         | (split;
            [ intros rel c;
              rewrite (files_of_spec 4 _ rel c Hshallow), Hfiles;
              clear; same_elements
            | intros rel Hin; cbn [In] in Hin;
              repeat (destruct Hin as [Hin|Hin];
                      [ rewrite <- Hin; vm_compute; reflexivity | ]);
              destruct Hin ]) ])
    end.
Qed.

(** The repository that the child leaves is put at [.git] into the
    tree that [scaffold] builds without it; the run ends the same and
    issues the same calls. *)
Lemma scaffold_in_empty_dir_repository (exec : string -> path -> completion)
    root opts code tree :
  nogit opts = false ->
  exec "git init" [] = ChildExit code (Some tree) ->
  let r0 := scaffold (fun _ _ => ChildExit code None) [] root opts
              (World (Dir ∅) []) in
  let r := scaffold exec [] root opts (World (Dir ∅) []) in
  halted r = halted r0 /\
  calls (world_of r) = calls (world_of r0) /\
  graft [".git"] tree (Some (disk (world_of r0))) = Some (disk (world_of r)).
Proof.
  intros Hg He. destruct opts as [f t g]. cbn [nogit] in Hg. subst g.
  unfold scaffold, write_sources, init_git, write_configs, runCommand.
  cbn [components Plain]. rewrite He.
  destruct t;
    cbn [template nogit templates for_each fst snd negb];
    generalize empty_main_ts basic_message_ts basic_main_ts basic_other_ts
      index_ts_text constants_ts_text index_html_text vite_config_text
      gitignore_text (JSON_stringify manifest_json 4)
      (JSON_stringify prettierrc_json 4) (JSON_stringify tsconfig_json 4)
      (JSON_stringify (package_json root) 4);
    intros t1 t2 t3 t4 t5 t6 t7 t8 t9 t10 t11 t12 t13;
    (split; [ vm_compute; reflexivity | ]);
    (split; vm_compute; reflexivity).
Qed.

(** No file of the tables lies under [.git]. *)
Lemma table_not_in_repository root opts q c :
  ~ In (".git" :: q, c) (auxiliary_files root (nogit opts)
                         ++ template_files (template opts)).
Proof.
  destruct opts as [f t g]. unfold auxiliary_files.
  destruct t, g; rewrite ?template_files_empty, ?template_files_basic;
    cbn [template nogit app In]; intros H;
    repeat (destruct H as [H|H]; [ discriminate H | ]); exact H.
Qed.

(** In an empty directory, with a child that exits, [scaffold]
    completes, and the files of the tree it leaves are those of the
    two tables and those of the repository that the child has left
    under [.git]. *)
Lemma scaffold_in_empty_dir (exec : string -> path -> completion) root opts :
  (nogit opts = false ->
   exists code repository, exec "git init" [] = ChildExit code repository) ->
  let r := scaffold exec [] root opts (World (Dir ∅) []) in
  halted r = None /\
  (forall rel c,
      lookup_path rel (Some (disk (world_of r))) = Some (File c) <->
      project_file root opts (repository_of exec [] opts) rel c) /\
  (forall rel, In rel (template_dirs (template opts)) ->
               is_dir (lookup_path rel (Some (disk (world_of r)))) = true).
Proof.
  intros Hexec. unfold project_file, repository_of.
  assert (Hno : forall rel c (T : Prop),
             (lookup_path rel (Some (disk
                 (world_of (scaffold exec [] root opts (World (Dir ∅) [])))))
              = Some (File c) <-> T) ->
             (lookup_path rel (Some (disk
                 (world_of (scaffold exec [] root opts (World (Dir ∅) [])))))
              = Some (File c) <->
              T \/ exists q, rel = ".git" :: q /\ lookup_path q None = Some (File c))).
  { intros rel c T ->. split; [ by left | ].
    intros [H | (q & _ & H)]; [ done | ]. by rewrite lookup_path_None in H. }
  destruct (nogit opts) eqn:Hg.
  - destruct (scaffold_in_empty_dir_bare exec root opts) as (Hh & Hf & Hd).
    { by rewrite Hg. }
    cbn zeta. rewrite Hg in Hf. split; [ done | ]. split; [ | done ].
    intros rel c. by apply Hno.
  - destruct (Hexec eq_refl) as (code & [tree|] & He); rewrite He.
    + set (exec0 := fun (_ : string) (_ : path) => ChildExit code None).
      destruct (scaffold_in_empty_dir_bare exec0 root opts) as (Hh & Hf & Hd).
      { intros _. by exists code. }
      destruct (scaffold_in_empty_dir_repository exec root opts code tree Hg He)
        as (Hh' & _ & Hgr).
      fold exec0 in Hh', Hgr. cbn zeta in *. rewrite Hg in Hf.
      set (d0 := disk (world_of (scaffold exec0 [] root opts (World (Dir ∅) []))))
        in *.
      set (d := disk (world_of (scaffold exec [] root opts (World (Dir ∅) []))))
        in *.
      split; [ congruence | ].
      assert (Haside : forall s q, s <> ".git" ->
                lookup_path (s :: q) (Some d) = lookup_path (s :: q) (Some d0)).
      { intros s q Hs.
        apply (lookup_graft_aside [] ".git" s [] q tree (Some d0) d);
          [ congruence | exact Hgr ]. }
      split.
      * intros [|s q] c.
        { split.
          - intros Hl. exfalso. cbn [lookup_path] in Hl.
            revert Hgr. cbn [graft]. destruct d0; [ done | ].
            intros [= Hd0]. congruence.
          - intros [H | (q & H & _)]; [ | done ].
            apply Hf in H. cbn [lookup_path] in H.
            revert Hgr. cbn [graft]. destruct d0; [ | done ]. done. }
        destruct (decide (s = ".git")) as [->|Hs].
        { change (".git" :: q) with ([".git"] ++ q) at 1.
          rewrite (lookup_graft_below [".git"] q _ _ _ Hgr). split.
          - intros Hl. right. by exists q.
          - intros [H | (q' & [= <-] & H)]; [ | done ].
            exfalso. apply (table_not_in_repository root opts q c).
            by rewrite Hg. }
        rewrite (Haside s q Hs), Hf. split; [ by left | ].
        intros [H | (q' & [= -> _] & _)]; done.
      * intros rel Hin. pose proof (Hd rel Hin) as Hdir.
        destruct rel as [|s q]; [ | ].
        { cbn [lookup_path is_dir] in *. revert Hgr. cbn [graft].
          destruct d0; [ done | ]. by intros [= <-]. }
        rewrite Haside; [ done | ].
        intros ->. clear - Hin.
        destruct (template opts); cbn in Hin;
          repeat (destruct Hin as [Hin|Hin]; [ discriminate Hin | ]); done.
    + destruct (scaffold_in_empty_dir_bare exec root opts) as (Hh & Hf & Hd).
      { intros _. by exists code. }
      cbn zeta. rewrite Hg in Hf. split; [ done | ]. split; [ | done ].
      intros rel c. by apply Hno.
Qed.

End EmptyDir.

(** C5, amended.  For each of the two templates and either value of
    [nogit]: when nothing exists at the project root, no regular file
    stands on the way to it and (unless [nogit]) the child [git init]
    can be spawned, [init] completes, and the files below the root
    are then exactly the auxiliary files (the ignore-file among them
    unless [nogit]) and the files of the chosen template, each with
    its text, together with the files of the repository that the
    child has left under [.git]; the directories of the template
    exist. *)
Theorem init_on_fresh_root (cwd : path) (exec : string -> path -> completion)
    root opts w :
  lookup_path (join cwd [root]) (Some (disk w)) = None ->
  creatable (join cwd [root]) (Some (disk w)) = true ->
  (nogit opts = false ->
     exists code repository,
       exec "git init" (join cwd [root]) = ChildExit code repository) ->
  exists w',
    init cwd exec root opts w = Ret tt w' /\
    (forall rel c,
        lookup_path (join cwd [root] ++ rel) (Some (disk w')) = Some (File c) <->
        project_file root opts (repository_of exec (join cwd [root]) opts) rel c) /\
    (forall rel,
        In rel (template_dirs (template opts)) ->
        is_dir (lookup_path (join cwd [root] ++ rel) (Some (disk w'))) = true).
Proof.
  intros Hfresh Hc Hexec.
  assert (Hinit : init cwd exec root opts w
                  = scaffold exec (Plain (join cwd [root])) root opts w).
  { rewrite init_Plain by (by apply stat_missing). cbn zeta.
    by rewrite Hfresh. }
  set (R := components (join cwd [root])) in *.
  assert (HR : forallb plain R = true) by apply join_is_plain.
  destruct (makeFolders_ok R w Hc) as (w1 & Hmk & _).
  pose proof (makeFolders_fresh _ _ _ Hfresh Hmk) as Hroot.
  rewrite Hinit, (scaffold_after_makeFolders R exec root opts w w1 Hmk).
  set (exec' := fun (_ : string) (_ : path) => exec "git init" R).
  destruct (scaffold_local R HR exec exec' root opts eq_refl
              w1 (World (Dir ∅) []) Hroot) as (d' & lnew & Hg & _ & Hrun).
  destruct (scaffold_in_empty_dir exec' root opts Hexec)
    as (Hh & Hfiles & Hdirs).
  destruct (scaffold exec' [] root opts (World (Dir ∅) [])) as [[] wl|h wl];
    [ | discriminate Hh ].
  cbn [relabel world_of] in *.
  eexists. split; [ exact Hrun | ]. cbn [disk]. split.
  - intros rel c. rewrite (lookup_graft_below _ _ _ _ _ Hg). apply Hfiles.
  - intros rel Hin. rewrite (lookup_graft_below _ _ _ _ _ Hg). by apply Hdirs.
Qed.

Lemma init_on_fresh_root_witness :
  (lookup_path (join ["home"] ["game"]) (Some (disk home_world)) = None /\
   creatable (join ["home"] ["game"]) (Some (disk home_world)) = true /\
   (nogit default_options = false ->
      exists code repository,
        git_init "git init" (join ["home"] ["game"])
        = ChildExit code repository)) /\
  exists w',
    init ["home"] git_init "game" default_options home_world = Ret tt w' /\
    (forall rel c,
        lookup_path (join ["home"] ["game"] ++ rel) (Some (disk w'))
        = Some (File c) <->
        project_file "game" default_options
          (repository_of git_init (join ["home"] ["game"]) default_options)
          rel c) /\
    (forall rel,
        In rel (template_dirs (template default_options)) ->
        is_dir (lookup_path (join ["home"] ["game"] ++ rel) (Some (disk w')))
        = true).
Proof.
  assert (H1 : lookup_path (join ["home"] ["game"]) (Some (disk home_world))
               = None) by (vm_compute; reflexivity).
  assert (H2 : creatable (join ["home"] ["game"]) (Some (disk home_world))
               = true) by (vm_compute; reflexivity).
  assert (H3 : nogit default_options = false ->
               exists code repository,
                 git_init "git init" (join ["home"] ["game"])
                 = ChildExit code repository)
    by (intros _; exists (Some 0), (Some sample_repository); reflexivity).
  split; [ exact (conj H1 (conj H2 H3)) | ].
  exact (init_on_fresh_root ["home"] git_init "game" default_options
           home_world H1 H2 H3).
Defined.

(** C5 as stated fails: on the fresh root /home/game, with the
    default options and a child that goes as [git init] goes, the run
    completes and leaves the file .git/HEAD below the root, which is
    none of the auxiliary files and no file of the template. *)
Lemma init_leaves_the_repository_too :
  let run := init ["home"] git_init "game" default_options home_world in
  lookup_path ["home"; "game"] (Some (disk home_world)) = None /\
  halted run = None /\
  lookup_path ["home"; "game"; ".git"; "HEAD"] (Some (disk (world_of run)))
  = Some (File "ref: refs/heads/main") /\
  ~ In [".git"; "HEAD"]
       (map fst (auxiliary_files "game" (nogit default_options)
                 ++ template_files (template default_options))).
Proof.
  intros run. split; [ by vm_compute | ]. split; [ by vm_compute | ].
  split; [ by vm_compute | ].
  unfold auxiliary_files, default_options. cbn [nogit template].
  rewrite template_files_basic. cbn [app map fst In].
  intros H. repeat (destruct H as [H|H]; [ discriminate H | ]). exact H.
Qed.
(* ================================================================= *)
(** ** [makeFolders] and [makeFile]: failures and calls *)

Section MakeFoldersFailures.

Lemma ancestry_snoc (q : path) (s : string) :
  ancestry (q ++ [s]) = ancestry q ++ [q ++ [s]].
Proof.
  induction q as [|t q IH]; [done | ].
  simpl. rewrite IH, map_app. done.
Qed.

Lemma why_missing_File q on c :
  lookup_path q on = Some (File c) -> why_missing q on = ENOTDIR.
Proof.
  intros H. pose proof (why_missing_app q [] on _ H) as E.
  by rewrite app_nil_r in E.
Qed.

Lemma graft_below_File q s r x on c :
  lookup_path q on = Some (File c) -> graft (q ++ s :: r) x on = None.
Proof. intros H. by rewrite graft_app, H. Qed.

(** A path that exists has all its ancestors. *)
Lemma lookup_path_prefix q r on :
  is_some_node (lookup_path (q ++ r) on) = true ->
  is_some_node (lookup_path q on) = true.
Proof.
  rewrite lookup_path_app. destruct (lookup_path q on); [done | ].
  by rewrite lookup_path_None.
Qed.

Lemma missing_dirs_present p d :
  is_some_node (lookup_path p (Some d)) = true -> missing_dirs p d = [].
Proof.
  unfold missing_dirs.
  induction p as [|s q IH] using rev_ind; intros He; [done | ].
  rewrite ancestry_snoc, List.filter_app. simpl. rewrite He. simpl.
  rewrite IH; [done | ]. by eapply lookup_path_prefix.
Qed.

(** Below a regular file [makeFolders] stops at the first [mkdir],
    which fails with [ENOTDIR]. *)
Lemma makeFolders_below_File (q : path) s c w : forall r,
  lookup_path q (Some (disk w)) = Some (File c) ->
  makeFolders (q ++ s :: r) w
  = Halt (Rejected (FsError ENOTDIR))
      (World (disk w) (calls w ++ [EvMkdir (q ++ [s])])).
Proof.
  intros r Hq. induction r as [|t r IH] using rev_ind.
  - rewrite makeFolders_step, dirname_snoc, Hq. simpl.
    rewrite lookup_path_app, Hq. simpl.
    rewrite mkdir_run, lookup_path_app, Hq. simpl.
    rewrite (graft_below_File q s [] _ _ c Hq), dirname_snoc.
    by rewrite (why_missing_File _ _ _ Hq).
  - replace (q ++ s :: r ++ [t]) with ((q ++ s :: r) ++ [t])
      by (by rewrite <- app_assoc).
    rewrite makeFolders_step, dirname_snoc.
    rewrite (lookup_path_app q (s :: r)), Hq. simpl.
    by rewrite IH.
Qed.

(** A path that is not [creatable] has a regular file on it. *)
Lemma not_creatable_File p : forall on,
  creatable p on = false ->
  exists q r c, p = q ++ r /\ lookup_path q on = Some (File c).
Proof.
  induction p as [|s p IH]; intros [[c|es]|] Hc; try done.
  - by exists [], [], c.
  - by exists [], (s :: p), c.
  - destruct (IH _ Hc) as (q & r & c & -> & Hq).
    by exists (s :: q), r, c.
Qed.

(** When [makeFolders] fails, a regular file stands at a proper
    prefix of the path. *)
Lemma makeFolders_Halt (p : path) w h w' :
  makeFolders p w = Halt h w' ->
  exists q s r c,
    p = q ++ s :: r /\ lookup_path q (Some (disk w)) = Some (File c).
Proof.
  intros Hrun.
  destruct (creatable p (Some (disk w))) eqn:Hc.
  - destruct (makeFolders_ok p w Hc) as (w1 & Hok & _). congruence.
  - destruct (not_creatable_File _ _ Hc) as (q & r & c & -> & Hq).
    destruct r as [|s r]; [ | by exists q, s, r, c ].
    rewrite app_nil_r in Hrun.
    rewrite makeFolders_present in Hrun; [done | by rewrite Hq].
Qed.

(** The calls of a [makeFolders] that returns: one [mkdir] for each
    directory that was missing, the outermost first. *)
Lemma makeFolders_calls (p : path) : forall w w',
  makeFolders p w = Ret tt w' ->
  calls w' = calls w ++ map EvMkdir (missing_dirs p (disk w)).
Proof.
  induction p as [|s q IH] using rev_ind; intros w w' Hrun.
  - rewrite makeFolders_present in Hrun by done. injection Hrun as <-.
    by rewrite app_nil_r.
  - destruct (is_some_node (lookup_path (q ++ [s]) (Some (disk w)))) eqn:He.
    { rewrite makeFolders_present in Hrun by done. injection Hrun as <-.
      by rewrite missing_dirs_present, app_nil_r. }
    unfold missing_dirs. rewrite ancestry_snoc, List.filter_app. simpl.
    rewrite He. simpl. fold (missing_dirs q (disk w)).
    rewrite makeFolders_step, dirname_snoc in Hrun.
    destruct (is_some_node (lookup_path q (Some (disk w)))) eqn:Hq.
    + rewrite He in Hrun. apply mkdir_inv in Hrun as (_ & _ & ->).
      by rewrite missing_dirs_present.
    + destruct (makeFolders q w) as [[] w1|h w1] eqn:Hup; [ | done ].
      assert (Hfresh : lookup_path q (Some (disk w1)) = Some (Dir ∅)).
      { eapply makeFolders_fresh; [ | done ].
        by destruct (lookup_path q (Some (disk w))). }
      rewrite lookup_path_app, Hfresh in Hrun. simpl in Hrun.
      apply mkdir_inv in Hrun as (_ & _ & ->).
      rewrite (IH _ _ Hup), map_app, <- app_assoc. done.
Qed.

End MakeFoldersFailures.

(** X1. [makeFolders] fails in two situations and in no other.
    Below a regular file, one that stands at a proper prefix of the
    path, it is rejected with [ENOTDIR] at the [mkdir] of the entry
    just below that file.  On a regular file that the path names with
    a separator at its end, it is rejected with [EEXIST] at the
    [mkdir] of the path, [stat] not having found the file.  Either
    way that [mkdir] is its one call, and the disk is left as it was:
    no directory is created before the failure. *)
Theorem makeFolders_fails_at_a_file (p : pathname) w :
  (forall h w',
      makeFolders p w = Halt h w' ->
      (exists q s r c,
          components p = q ++ s :: r /\
          lookup_path q (Some (disk w)) = Some (File c) /\
          h = Rejected (FsError ENOTDIR) /\
          w' = World (disk w) (calls w ++ [EvMkdir (q ++ [s])])) \/
      (exists c,
          trailing p = true /\
          lookup_path p (Some (disk w)) = Some (File c) /\
          h = Rejected (FsError EEXIST) /\
          w' = World (disk w) (calls w ++ [EvMkdir p]))) /\
  (forall q s r c,
      components p = q ++ s :: r ->
      lookup_path q (Some (disk w)) = Some (File c) ->
      makeFolders p w
      = Halt (Rejected (FsError ENOTDIR))
          (World (disk w) (calls w ++ [EvMkdir (q ++ [s])]))) /\
  (forall c,
      trailing p = true ->
      lookup_path p (Some (disk w)) = Some (File c) ->
      makeFolders p w
      = Halt (Rejected (FsError EEXIST))
          (World (disk w) (calls w ++ [EvMkdir p]))).
Proof.
  split; [ | split ].
  - intros h w' Hrun.
    destruct (stat_cases p (disk w)) as [Hs | (Ht & c & Hc)].
    + left. rewrite (makeFolders_Plain _ _ Hs) in Hrun.
      destruct (makeFolders_Halt _ _ _ _ Hrun) as (q & s & r & c & Hp & Hq).
      rewrite Hp, (makeFolders_below_File q s c w r Hq) in Hrun.
      injection Hrun as <- <-. by exists q, s, r, c.
    + right. rewrite (makeFolders_behind_file _ _ _ Ht Hc) in Hrun.
      injection Hrun as <- <-. by exists c.
  - intros q s r c Hp Hq.
    rewrite makeFolders_Plain, Hp;
      [ exact (makeFolders_below_File q s c w r Hq) | ].
    apply stat_missing. rewrite Hp, lookup_path_app, Hq. done.
  - intros c Ht Hc. by apply makeFolders_behind_file with (c := c).
Qed.

Lemma ancestry_prefix p : forall q,
  In q (ancestry p) -> exists r, p = q ++ r.
Proof.
  induction p as [|s p IH]; intros q; [done | ].
  simpl. intros [<-|Hin]; [ by exists p | ].
  apply in_map_iff in Hin as (q' & <- & Hin).
  destruct (IH _ Hin) as (r & ->). by exists r.
Qed.

(** A [makeFolders] that returns has run as on the path without its
    trailing separator. *)
Lemma makeFolders_Ret (p : pathname) w w' :
  makeFolders p w = Ret tt w' -> makeFolders (Plain p) w = Ret tt w'.
Proof.
  intros Hrun. rewrite <- Hrun. symmetry. apply makeFolders_Plain.
  destruct (stat_cases p (disk w)) as [Hs | (Ht & c & Hc)]; [ done | ].
  by rewrite (makeFolders_behind_file _ _ _ Ht Hc) in Hrun.
Qed.

(** X2. A [makeFolders] that returns, on a path with or without a
    separator at its end, has issued exactly one [mkdir] for each
    directory on the way to the path that was missing, the outermost
    first, and no other call; each of them is a directory afterwards,
    and when the path itself was missing it is an empty one. *)
Theorem makeFolders_creates_missing_dirs (p : pathname) w w' :
  makeFolders p w = Ret tt w' ->
  calls w' = calls w ++ map EvMkdir (missing_dirs p (disk w)) /\
  Forall (fun q => lookup_path q (Some (disk w)) = None /\
                   is_dir (lookup_path q (Some (disk w'))) = true)
    (missing_dirs p (disk w)) /\
  (lookup_path p (Some (disk w)) = None ->
   lookup_path p (Some (disk w')) = Some (Dir ∅)).
Proof.
  intros Hrun%makeFolders_Ret. revert Hrun.
  generalize (components p). clear p. intros p Hrun.
  split; [ by apply makeFolders_calls | ].
  split; [ | intros Hnone; by eapply makeFolders_fresh ].
  apply List.Forall_forall. intros q Hin.
  apply List.filter_In in Hin as [Hin Hmiss].
  destruct (ancestry_prefix _ _ Hin) as (r & ->).
  split; [ by destruct (lookup_path q (Some (disk w))) | ].
  pose proof (makeFolders_exists _ _ _ Hrun) as He.
  destruct r as [|s r].
  - rewrite app_nil_r in Hrun.
    rewrite (makeFolders_fresh q w w'); [done | | done].
    by destruct (lookup_path q (Some (disk w))).
  - destruct (lookup_path (q ++ s :: r) (Some (disk w'))) as [n|] eqn:Hn;
      [ | done ].
    destruct (lookup_path_above _ _ _ _ _ Hn) as [es ->]. done.
Qed.

Lemma makeFolders_creates_missing_dirs_witness :
  let p := Pathname ["home"; "a"; "b"] true in
  let w' := world_of (makeFolders p home_world) in
  makeFolders p home_world = Ret tt w' /\
  (calls w' = calls home_world ++ map EvMkdir (missing_dirs p (disk home_world)) /\
   Forall (fun q => lookup_path q (Some (disk home_world)) = None /\
                    is_dir (lookup_path q (Some (disk w'))) = true)
     (missing_dirs p (disk home_world)) /\
   (lookup_path p (Some (disk home_world)) = None ->
    lookup_path p (Some (disk w')) = Some (Dir ∅))).
Proof.
  assert (H : makeFolders (Pathname ["home"; "a"; "b"] true) home_world
              = Ret tt (world_of (makeFolders (Pathname ["home"; "a"; "b"] true)
                                    home_world)))
    by (by vm_compute).
  split; [ exact H | ].
  exact (makeFolders_creates_missing_dirs (Pathname ["home"; "a"; "b"] true)
           home_world
           (world_of (makeFolders (Pathname ["home"; "a"; "b"] true) home_world))
           H).
Defined.

Section MakeFileFacts.

(** Putting something at [p] changes nothing at the paths that are
    neither above nor below [p]. *)
Lemma graft_frame (p y : path) x on d' :
  graft p x on = Some d' ->
  ~ p `prefix_of` y -> ~ y `prefix_of` p ->
  lookup_path y (Some d') = lookup_path y on.
Proof.
  intros Hg Hpy Hyp.
  destruct (path_trichotomy p y)
    as [H | [H | (q & s & s' & r & r' & Hne & -> & ->)]]; [done | done | ].
  by eapply lookup_graft_aside.
Qed.

Lemma dirname_prefix (p : path) : dirname p `prefix_of` p.
Proof.
  destruct p as [|s q _] using rev_ind; [done | ].
  rewrite dirname_snoc. by exists [s].
Qed.

Lemma not_prefix_dirname (p : path) : p <> [] -> ~ p `prefix_of` dirname p.
Proof.
  destruct p as [|s q _] using rev_ind; [done | ].
  intros _. rewrite dirname_snoc. intros [k Hk].
  apply (f_equal length) in Hk. rewrite !length_app in Hk. simpl in Hk. lia.
Qed.

Lemma makeFile_run p (cwd : path) c w :
  makeFile p cwd c w
  = match makeFolders (dirname p) w with
    | Ret _ w1 => writeFile p c w1
    | Halt h w1 => Halt h w1
    end.
Proof. reflexivity. Qed.

(** A file can be written where its directory can be made and no
    directory has its name. *)
Lemma makeFile_ok p (cwd : path) c w :
  p <> [] ->
  creatable (dirname p) (Some (disk w)) = true ->
  is_dir (lookup_path p (Some (disk w))) = false ->
  exists w1 d',
    makeFolders (dirname p) w = Ret tt w1 /\
    lookup_path p (Some (disk w1)) = lookup_path p (Some (disk w)) /\
    graft p (File c) (Some (disk w1)) = Some d' /\
    makeFile p cwd c w = Ret tt (World d' (calls w1 ++ [EvWriteFile p c])).
Proof.
  intros Hp Hc Hnd.
  destruct (makeFolders_ok _ _ Hc) as (w1 & Hrun & Hd).
  assert (Hsame : lookup_path p (Some (disk w1)) = lookup_path p (Some (disk w))).
  { eapply makeFolders_frame; [done | by apply not_prefix_dirname]. }
  destruct p as [|s q _] using rev_ind; [done | ].
  rewrite dirname_snoc in *.
  destruct (lookup_path q (Some (disk w1))) as [[c0|es]|] eqn:Hq; try done.
  destruct (graft_into q s (File c) _ _ Hq) as (d' & Hg & _).
  exists w1, d'. split; [done | split; [done | split; [done | ]]].
  rewrite makeFile_run, dirname_snoc, Hrun, writeFile_run, Hsame, Hg. simpl.
  by destruct (lookup_path (q ++ [s]) (Some (disk w))) as [[c0|es0]|].
Qed.

(** When [makeFile] fails the disk is as it was. *)
Lemma makeFile_Halt p (cwd : path) c w h w' :
  makeFile p cwd c w = Halt h w' ->
  disk w' = disk w /\
  (h = Rejected (FsError ENOTDIR) /\
   (exists q s r c0,
       p = q ++ s :: r /\ lookup_path q (Some (disk w)) = Some (File c0)) \/
   h = Rejected (FsError EISDIR) /\
   is_dir (lookup_path p (Some (disk w))) = true /\
   calls w' = calls w ++ [EvWriteFile p c]).
Proof.
  rewrite makeFile_run.
  destruct (makeFolders (dirname p) w) as [[] w1|h1 w1] eqn:Hup.
  - intros Hrun.
    assert (Hw1 : w1 = w).
    { destruct (is_some_node (lookup_path (dirname p) (Some (disk w)))) eqn:He.
      - rewrite makeFolders_present in Hup by done. by injection Hup.
      - exfalso.
        assert (Hnone : lookup_path (dirname p) (Some (disk w)) = None)
          by (by destruct (lookup_path (dirname p) (Some (disk w)))).
        pose proof (makeFolders_fresh _ _ _ Hnone Hup) as Hfresh.
        revert Hrun. rewrite writeFile_run.
        destruct p as [|s q _] using rev_ind; [done | ].
        rewrite dirname_snoc in *.
        rewrite lookup_path_app, Hfresh. simpl. rewrite lookup_empty.
        destruct (graft_into q s (File c) _ _ Hfresh) as (d' & -> & _).
        done. }
    subst w1. revert Hrun. rewrite writeFile_run.
    destruct (lookup_path p (Some (disk w))) as [[c0|es]|] eqn:Hp; simpl.
    + destruct (graft_over p (File c) _ _ Hp) as [d' ->]. done.
    + intros [= <- <-]. split; [done | right; done].
    + destruct (graft p (File c) (Some (disk w))) as [d'|] eqn:Hg; [done | ].
      intros [= <- <-]. split; [done | left].
      destruct (lookup_path (dirname p) (Some (disk w))) as [[c0|es]|] eqn:Hq.
      * rewrite (why_missing_File _ _ _ Hq). split; [done | ].
        destruct p as [|s q _] using rev_ind; [done | ].
        rewrite dirname_snoc in Hq. by exists q, s, [], c0.
      * destruct p as [|s q _] using rev_ind; [done | ].
        rewrite dirname_snoc in Hq.
        destruct (graft_into q s (File c) _ _ Hq) as (d' & Hg' & _).
        congruence.
      * pose proof (makeFolders_exists _ _ _ Hup) as He. by rewrite Hq in He.
  - intros [= <- <-].
    destruct (makeFolders_Halt _ _ _ _ Hup) as (q & s & r & c0 & Hp & Hq).
    rewrite Hp, (makeFolders_below_File q s c0 w r Hq) in Hup.
    injection Hup as <- <-. split; [done | left]. split; [done | ].
    destruct p as [|t p' _] using rev_ind; [ by destruct q | ].
    rewrite dirname_snoc in Hp. subst p'.
    exists q, s, (r ++ [t]), c0. by rewrite <- app_assoc.
Qed.

End MakeFileFacts.

(** X3. Where the directory of a path can be made (no regular file
    stands on the way to it) and the path itself is not a directory,
    [makeFile] returns.  Its calls are the [mkdir] of each missing
    directory, the outermost first, then one [writeFile]; afterwards
    the path holds the given text, whatever file was there before,
    and nothing has changed at the paths that are neither above nor
    below it. *)
Theorem makeFile_writes_the_file p (cwd : path) c w :
  p <> [] ->
  creatable (dirname p) (Some (disk w)) = true ->
  is_dir (lookup_path p (Some (disk w))) = false ->
  exists w',
    makeFile p cwd c w = Ret tt w' /\
    calls w' = calls w
               ++ map EvMkdir (missing_dirs (dirname p) (disk w))
               ++ [EvWriteFile p c] /\
    lookup_path p (Some (disk w')) = Some (File c) /\
    (forall x, ~ x `prefix_of` p -> ~ p `prefix_of` x ->
               lookup_path x (Some (disk w')) = lookup_path x (Some (disk w))).
Proof.
  intros Hp Hc Hnd.
  destruct (makeFile_ok p cwd c w Hp Hc Hnd) as (w1 & d' & Hup & _ & Hg & ->).
  eexists. split; [done | ]. simpl.
  split; [ by rewrite (makeFolders_calls _ _ _ Hup), <- app_assoc | ].
  split; [ by eapply lookup_graft | ].
  intros x Hxp Hpx. rewrite (graft_frame _ _ _ _ _ Hg Hpx Hxp).
  eapply makeFolders_frame; [done | ].
  intros Hx. apply Hxp. etrans; [done | apply dirname_prefix].
Qed.

Lemma makeFile_writes_the_file_witness :
  let p := ["home"; "game"; "saves"; "save.dat"] in
  (p <> [] /\
   creatable (dirname p) (Some (disk taken_world)) = true /\
   is_dir (lookup_path p (Some (disk taken_world))) = false) /\
  exists w',
    makeFile p ["home"] "level 4" taken_world = Ret tt w' /\
    calls w' = calls taken_world
               ++ map EvMkdir (missing_dirs (dirname p) (disk taken_world))
               ++ [EvWriteFile p "level 4"] /\
    lookup_path p (Some (disk w')) = Some (File "level 4") /\
    (forall x, ~ x `prefix_of` p -> ~ p `prefix_of` x ->
               lookup_path x (Some (disk w'))
               = lookup_path x (Some (disk taken_world))).
Proof.
  assert (H1 : ["home"; "game"; "saves"; "save.dat"] <> ([] : path)) by done.
  assert (H2 : creatable (dirname ["home"; "game"; "saves"; "save.dat"])
                 (Some (disk taken_world)) = true) by (by vm_compute).
  assert (H3 : is_dir (lookup_path ["home"; "game"; "saves"; "save.dat"]
                         (Some (disk taken_world))) = false) by (by vm_compute).
  split; [ exact (conj H1 (conj H2 H3)) | ].
  exact (makeFile_writes_the_file ["home"; "game"; "saves"; "save.dat"] ["home"]
           "level 4" taken_world H1 H2 H3).
Defined.

(** X4. When [makeFile] fails.  It fails in two ways only: with
    [ENOTDIR], and then a regular file stands at a proper prefix of
    the path, or with [EISDIR], and then the path is a directory and
    the one call issued is the [writeFile]; and in these two
    situations it does fail.  A [makeFile] that fails leaves the
    disk as it was before the call: no directory has been made and
    no text written. *)
Theorem makeFile_fails_without_a_trace p (cwd : path) c w :
  (forall h w',
      makeFile p cwd c w = Halt h w' ->
      disk w' = disk w /\
      (h = Rejected (FsError ENOTDIR) /\
       (exists q s r c0,
           p = q ++ s :: r /\ lookup_path q (Some (disk w)) = Some (File c0)) \/
       h = Rejected (FsError EISDIR) /\
       is_dir (lookup_path p (Some (disk w))) = true /\
       calls w' = calls w ++ [EvWriteFile p c])) /\
  (is_dir (lookup_path p (Some (disk w))) = true ->
   makeFile p cwd c w
   = Halt (Rejected (FsError EISDIR))
       (World (disk w) (calls w ++ [EvWriteFile p c]))) /\
  (forall q s r c0,
      p = q ++ s :: r ->
      lookup_path q (Some (disk w)) = Some (File c0) ->
      exists w',
        makeFile p cwd c w = Halt (Rejected (FsError ENOTDIR)) w' /\
        disk w' = disk w).
Proof.
  split; [ intros h w'; apply makeFile_Halt | split ].
  - intros Hd. rewrite makeFile_run.
    assert (He : is_some_node (lookup_path p (Some (disk w))) = true)
      by (by destruct (lookup_path p (Some (disk w)))).
    rewrite (makeFolders_present _ _ (lookup_path_dirname _ _ He)).
    rewrite writeFile_run.
    by destruct (lookup_path p (Some (disk w))) as [[c0|es]|].
  - intros q s r c0 -> Hq. rewrite makeFile_run.
    destruct r as [|t r _] using rev_ind.
    + rewrite dirname_snoc.
      rewrite makeFolders_present by (by rewrite Hq).
      rewrite writeFile_run, lookup_path_app, Hq. cbn.
      rewrite (graft_below_File q s [] _ _ c0 Hq), dirname_snoc.
      rewrite (why_missing_File _ _ _ Hq). by eexists.
    + replace (q ++ s :: r ++ [t]) with ((q ++ s :: r) ++ [t])
        by (by rewrite <- app_assoc).
      rewrite dirname_snoc, (makeFolders_below_File q s c0 w r Hq).
      by eexists.
Qed.

Lemma makeFile_fails_without_a_trace_witness :
  let p := ["home"; "game"; "save.dat"; "slot"; "one.txt"] in
  let r := makeFile p ["home"] "level 4" taken_world in
  r = Halt (Rejected (FsError ENOTDIR)) (world_of r) /\
  (disk (world_of r) = disk taken_world /\
   (Rejected (FsError ENOTDIR) = Rejected (FsError ENOTDIR) /\
    (exists q s r c0,
        p = q ++ s :: r /\
        lookup_path q (Some (disk taken_world)) = Some (File c0)) \/
    Rejected (FsError ENOTDIR) = Rejected (FsError EISDIR) /\
    is_dir (lookup_path p (Some (disk taken_world))) = true /\
    calls (world_of r) = calls taken_world ++ [EvWriteFile p "level 4"])).
Proof.
  assert (H : makeFile ["home"; "game"; "save.dat"; "slot"; "one.txt"] ["home"]
                "level 4" taken_world
              = Halt (Rejected (FsError ENOTDIR))
                  (world_of (makeFile ["home"; "game"; "save.dat"; "slot"; "one.txt"]
                               ["home"] "level 4" taken_world)))
    by (by vm_compute).
  split; [ exact H | ].
  exact (proj1 (makeFile_fails_without_a_trace
                  ["home"; "game"; "save.dat"; "slot"; "one.txt"] ["home"]
                  "level 4" taken_world)
           (Rejected (FsError ENOTDIR))
           (world_of (makeFile ["home"; "game"; "save.dat"; "slot"; "one.txt"]
                        ["home"] "level 4" taken_world)) H).
Defined.

(* ================================================================= *)
(** ** [add] inside a project *)

Section AddRuns.

Lemma creatable_dir p : forall on es,
  lookup_path p on = Some (Dir es) -> creatable p on = true.
Proof.
  induction p as [|s p IH]; intros [[c|es0]|] es H; try done.
  simpl in *. by eapply IH.
Qed.

Lemma creatable_exists_dirname p s on :
  is_some_node (lookup_path (p ++ [s]) on) = true -> creatable p on = true.
Proof.
  intros He.
  destruct (lookup_path (p ++ [s]) on) as [n|] eqn:Hn; [ | done ].
  destruct (lookup_path_above p s [] on n Hn) as [es Hes].
  by eapply creatable_dir.
Qed.

Lemma capitalize_normalizeName name :
  name <> EmptyString ->
  exists cap, capitalize (normalizeName name) = Some cap.
Proof.
  intros H. destruct (normalizeName_nonempty _ H) as (c & r & ->).
  by eexists.
Qed.

Context (cwd : path).

(** Inside a project [add] is one [makeFile]. *)
Lemma add_in_project type sub name w :
  In (type, sub) kinds ->
  (type = "component" -> name <> EmptyString) ->
  is_some_node (lookup_path (join cwd ["src"; "scenes"]) (Some (disk w))) = true ->
  add cwd type name w
  = makeFile (join cwd ["src"; sub; name +:+ ".ts"]) cwd (stub_text type name) w.
Proof.
  intros Hin Hname He. unfold add, stub_text.
  cbn [kinds In] in Hin.
  destruct Hin as [[= <- <-]|[[= <- <-]|[[= <- <-]|[]]]];
    rewrite (bind_Ret _ _ w tt w) by reflexivity;
    rewrite (bind_Ret _ _ w true w)
      by (rewrite exists_untrailed by reflexivity; by rewrite He);
    rewrite (bind_Ret _ _ w tt w) by reflexivity;
    [ reflexivity | reflexivity | ].
  cbn [String.eqb Ascii.eqb Bool.eqb].
  destruct (capitalize_normalizeName name (Hname eq_refl)) as [cap ->].
  reflexivity.
Qed.

End AddRuns.

(** X5. Inside a project whose directory of the kind exists, [add]
    issues one call, the [writeFile] of the stub, and returns: the
    file then holds the stub, whether it is new or replaces an
    earlier file of that name (there is no test for a duplicate),
    and nothing has changed at the paths that are neither above nor
    below it.  This holds for the three kinds and every name without
    a slash that is not the name of a directory; for a component the
    name is not empty and of ASCII characters, on which the model of
    the case conversions is exact. *)
Theorem add_replaces_without_asking (cwd : path) type sub name w :
  In (type, sub) kinds ->
  has_slash name = false ->
  (type = "component" -> name <> EmptyString /\ ascii_only name = true) ->
  is_some_node (lookup_path (join cwd ["src"; "scenes"]) (Some (disk w))) = true ->
  is_dir (lookup_path (join cwd ["src"; sub]) (Some (disk w))) = true ->
  is_dir (lookup_path (join cwd ["src"; sub; name +:+ ".ts"]) (Some (disk w)))
  = false ->
  exists w',
    add cwd type name w = Ret tt w' /\
    calls w' = calls w
               ++ [EvWriteFile (join cwd ["src"; sub; name +:+ ".ts"])
                     (stub_text type name)] /\
    lookup_path (join cwd ["src"; sub; name +:+ ".ts"]) (Some (disk w'))
    = Some (File (stub_text type name)) /\
    (forall x,
        ~ x `prefix_of` join cwd ["src"; sub; name +:+ ".ts"] ->
        ~ join cwd ["src"; sub; name +:+ ".ts"] `prefix_of` x ->
        lookup_path x (Some (disk w')) = lookup_path x (Some (disk w))).
Proof.
  intros Hin Hslash Hname' He Hkind Hnd.
  assert (Hname : type = "component" -> name <> EmptyString)
    by (intros Ht; by destruct (Hname' Ht)).
  rewrite (add_in_project cwd type sub name w Hin Hname He).
  assert (Hj : components (join cwd ["src"; sub; name +:+ ".ts"])
               = join cwd ["src"; sub] ++ [name +:+ ".ts"]).
  { apply (join_snoc cwd ["src"; sub]); [ | apply plain_ts ].
    by rewrite has_slash_append, Hslash. }
  rewrite Hj in *.
  assert (Hc : creatable (dirname (join cwd ["src"; sub] ++ [name +:+ ".ts"]))
                 (Some (disk w)) = true).
  { rewrite dirname_snoc.
    destruct (lookup_path (join cwd ["src"; sub]) (Some (disk w)))
      as [[c|es]|] eqn:Hd; try done.
    by eapply creatable_dir. }
  assert (Hp : join cwd ["src"; sub] ++ [name +:+ ".ts"] <> [])
    by (by destruct (components (join cwd ["src"; sub]))).
  destruct (makeFile_ok _ cwd (stub_text type name) w Hp Hc Hnd)
    as (w1 & d' & Hup & _ & Hg & ->).
  rewrite dirname_snoc in Hup.
  rewrite makeFolders_present in Hup
    by (by destruct (lookup_path (join cwd ["src"; sub]) (Some (disk w)))
             as [[c|es]|]).
  injection Hup as <-.
  eexists. split; [done | ]. simpl. split; [done | ].
  split; [ by eapply lookup_graft | ].
  intros x Hxp Hpx. by eapply graft_frame.
Qed.

Lemma add_replaces_without_asking_witness :
  let target := join ["home"] ["src"; "scenes"; "main" +:+ ".ts"] in
  (In ("scene", "scenes") kinds /\
   has_slash "main" = false /\
   ("scene" = "component" ->
    "main" <> EmptyString /\ ascii_only "main" = true) /\
   is_some_node (lookup_path (join ["home"] ["src"; "scenes"])
                   (Some (disk project_world))) = true /\
   is_dir (lookup_path (join ["home"] ["src"; "scenes"])
             (Some (disk project_world))) = true /\
   is_dir (lookup_path target (Some (disk project_world))) = false) /\
  lookup_path target (Some (disk project_world)) = Some (File empty_main_ts) /\
  exists w',
    add ["home"] "scene" "main" project_world = Ret tt w' /\
    calls w' = calls project_world
               ++ [EvWriteFile target (stub_text "scene" "main")] /\
    lookup_path target (Some (disk w')) = Some (File (stub_text "scene" "main")) /\
    (forall x, ~ x `prefix_of` target -> ~ target `prefix_of` x ->
               lookup_path x (Some (disk w'))
               = lookup_path x (Some (disk project_world))).
Proof.
  assert (H1 : In ("scene", "scenes") kinds) by (left; reflexivity).
  assert (H2 : has_slash "main" = false) by reflexivity.
  assert (H3 : "scene" = "component" ->
               "main" <> EmptyString /\ ascii_only "main" = true)
    by discriminate.
  assert (H4 : is_some_node (lookup_path (join ["home"] ["src"; "scenes"])
                               (Some (disk project_world))) = true)
    by (by vm_compute).
  assert (H5 : is_dir (lookup_path (join ["home"] ["src"; "scenes"])
                         (Some (disk project_world))) = true)
    by (by vm_compute).
  assert (H6 : is_dir (lookup_path (join ["home"] ["src"; "scenes"; "main" +:+ ".ts"])
                         (Some (disk project_world))) = false)
    by (by vm_compute).
  split; [ exact (conj H1 (conj H2 (conj H3 (conj H4 (conj H5 H6))))) | ].
  split; [ by vm_compute | ].
  exact (add_replaces_without_asking ["home"] "scene" "scenes" "main"
           project_world H1 H2 H3 H4 H5 H6).
Defined.

(** X6. [add] fails in five ways only, and whenever it fails the disk
    is as it was.  It exits with status 1 for a type that is none of
    the three, and for a directory without src/scenes, issuing no
    call; it is rejected with a [TypeError] for a component with an
    empty name, issuing no call; otherwise the failure is that of
    [makeFile]: [ENOTDIR] or [EISDIR]. *)
Theorem add_fails_without_a_trace (cwd : path) type name w h w' :
  add cwd type name w = Halt h w' ->
  disk w' = disk w /\
  exit_status (add cwd type name w) = 1 /\
  (h = Exit 1 BadType /\ w' = w /\
   ~ In type ["scene"; "object"; "component"] \/
   h = Exit 1 NotInProject /\ w' = w /\
   lookup_path (join cwd ["src"; "scenes"]) (Some (disk w)) = None \/
   h = Rejected TypeError /\ w' = w /\
   type = "component" /\ name = EmptyString \/
   h = Rejected (FsError ENOTDIR) \/
   h = Rejected (FsError EISDIR)).
Proof.
  intros Hrun.
  assert (Hst : forall h0 w0, add cwd type name w = Halt h0 w0 ->
                  (exists c, h0 = Exit 1 c) \/ (exists f, h0 = Rejected f) ->
                  exit_status (add cwd type name w) = 1).
  { intros h0 w0 -> [[c ->]|[f ->]]; reflexivity. }
  destruct (existsb (String.eqb type) ["scene"; "object"; "component"]) eqn:Ht.
  2:{ unfold add in Hrun. rewrite Ht in Hrun. cbn in Hrun.
      injection Hrun as <- <-. split; [done | ].
      split; [ eapply Hst; [ unfold add; rewrite Ht; reflexivity | left; eauto ] | ].
      left. split; [done | split; [done | ]].
      intros Hin. apply not_true_iff_false in Ht. apply Ht.
      apply existsb_exists. exists type. split; [done | apply String.eqb_refl]. }
  destruct (lookup_path (join cwd ["src"; "scenes"]) (Some (disk w)))
    as [n|] eqn:Hs.
  2:{ pose proof Hrun as Hrun'.
      unfold add in Hrun. rewrite Ht in Hrun.
      rewrite (bind_Ret _ _ w tt w) in Hrun by reflexivity.
      rewrite (bind_Ret _ _ w false w) in Hrun
        by (rewrite exists_untrailed by reflexivity; by rewrite Hs).
      cbn in Hrun. injection Hrun as <- <-. split; [done | ].
      split; [ eapply Hst; [ exact Hrun' | left; eauto ] | ].
      right; left. done. }
  assert (He : is_some_node (lookup_path (join cwd ["src"; "scenes"])
                               (Some (disk w))) = true) by (by rewrite Hs).
  assert (Hkinds : exists sub, In (type, sub) kinds).
  { apply existsb_exists in Ht as (t & Hin & Heq).
    apply String.eqb_eq in Heq. subst t. cbn [In] in Hin.
    destruct Hin as [<-|[<-|[<-|[]]]]; eexists; unfold kinds; cbn [In]; eauto. }
  destruct Hkinds as [sub Hin].
  destruct (decide (type = "component" /\ name = EmptyString)) as [[-> ->]|Hne].
  - rewrite add_component_run in Hrun by done. cbn in Hrun.
    injection Hrun as <- <-. split; [done | ]. split.
    + rewrite add_component_run by done. reflexivity.
    + do 2 right; left. done.
  - assert (Hname : type = "component" -> name <> EmptyString)
      by (intros -> ->; by apply Hne).
    pose proof Hrun as Hrun'.
    rewrite (add_in_project cwd type sub name w Hin Hname He) in Hrun.
    destruct (makeFile_Halt _ _ _ _ _ _ Hrun) as (Hd & [[-> _]|[-> _]]).
    + split; [done | ]. split; [ eapply Hst; [ exact Hrun' | right; eauto ] | ].
      do 3 right; left. done.
    + split; [done | ]. split; [ eapply Hst; [ exact Hrun' | right; eauto ] | ].
      do 4 right. done.
Qed.

Lemma add_fails_without_a_trace_witness :
  let r := add ["home"] "component" EmptyString project_world in
  r = Halt (Rejected TypeError) project_world /\
  (disk project_world = disk project_world /\
   exit_status r = 1 /\
   (Rejected TypeError = Exit 1 BadType /\ project_world = project_world /\
    ~ In "component" ["scene"; "object"; "component"] \/
    Rejected TypeError = Exit 1 NotInProject /\ project_world = project_world /\
    lookup_path (join ["home"] ["src"; "scenes"]) (Some (disk project_world)) = None \/
    Rejected TypeError = Rejected TypeError /\ project_world = project_world /\
    "component" = "component" /\ EmptyString = EmptyString \/
    Rejected TypeError = Rejected (FsError ENOTDIR) \/
    Rejected TypeError = Rejected (FsError EISDIR))).
Proof.
  assert (H : add ["home"] "component" EmptyString project_world
              = Halt (Rejected TypeError) project_world) by (by vm_compute).
  split; [ exact H | ].
  exact (add_fails_without_a_trace ["home"] "component" EmptyString project_world
           (Rejected TypeError) project_world H).
Defined.

Section AddOutside.

Lemma split_slash_dotdot (rest : string) :
  split_slash (String "." (String "." (String "/" rest)))
  = ".." :: split_slash rest.
Proof. reflexivity. Qed.

Lemma rev_tail_rev {A} (l : list A) : rev (tail (rev l)) = removelast l.
Proof.
  destruct l as [|x l _] using rev_ind; [done | ].
  rewrite rev_app_distr. simpl. rewrite rev_involutive.
  by rewrite removelast_last.
Qed.

(** A name that climbs three levels leaves src/<kind>, src and the
    working directory. *)
Lemma join_climbs (cwd : path) sub n :
  forallb plain cwd = true -> plain sub = true -> has_slash sub = false ->
  has_slash n = false ->
  components (join cwd ["src"; sub; ("../../../" +:+ n) +:+ ".ts"])
  = dirname cwd ++ [n +:+ ".ts"].
Proof.
  intros Hcwd Hsub Hss Hn. unfold join. cbn [components Plain map concat].
  rewrite !append_cons, append_nil_l, !split_slash_dotdot.
  rewrite (split_slash_whole sub Hss).
  rewrite (split_slash_whole (n +:+ ".ts"))
    by (by rewrite has_slash_append, Hn).
  rewrite app_nil_r. cbn [split_slash Ascii.eqb Bool.eqb app].
  replace (cwd ++ ["src"; sub; ".."; ".."; ".."; n +:+ ".ts"])
    with ((cwd ++ ["src"; sub; ".."; ".."; ".."]) ++ [n +:+ ".ts"])
    by (by rewrite <- app_assoc).
  rewrite (normalize_onto_app (cwd ++ _)).
  rewrite normalize_onto_app, (normalize_onto_plain cwd []) by done.
  unfold plain in Hsub. apply negb_true_iff in Hsub.
  apply orb_false_iff in Hsub as [Hsub1 Hsub2].
  cbn [rev app normalize_onto String.eqb Ascii.eqb Bool.eqb orb].
  rewrite Hsub1, Hsub2.
  cbn [tail normalize_onto String.eqb Ascii.eqb Bool.eqb orb].
  pose proof (plain_ts n) as Hts. unfold plain in Hts.
  apply negb_true_iff in Hts. apply orb_false_iff in Hts as [Hts1 Hts2].
  rewrite Hts1, Hts2, !rev_involutive.
  unfold dirname. by rewrite rev_tail_rev.
Qed.

End AddOutside.

(** X7. The name given to [add] is not confined to the directory of
    the kind: joined to the path, a name that starts with ../../../
    leaves src/<kind>, src and the project.  Inside a project whose
    working directory is normalised and is not the root of the file
    system, for each kind and every [n] without a slash (of ASCII
    characters for a component, on which the model of the case
    conversions is exact) such that n.ts in the parent of the
    working directory is not a directory, [add <type> ../../../n]
    returns after one call, the [writeFile] of the stub at n.ts in
    the parent of the working directory, a path that is not below
    the working directory. *)
Theorem add_writes_outside_the_project (cwd : path) type sub n w :
  In (type, sub) kinds ->
  forallb plain cwd = true -> cwd <> [] ->
  has_slash n = false ->
  (type = "component" -> ascii_only n = true) ->
  is_some_node (lookup_path (join cwd ["src"; "scenes"]) (Some (disk w))) = true ->
  is_dir (lookup_path (dirname cwd ++ [n +:+ ".ts"]) (Some (disk w))) = false ->
  exists w',
    add cwd type ("../../../" +:+ n) w = Ret tt w' /\
    calls w' = calls w
               ++ [EvWriteFile (dirname cwd ++ [n +:+ ".ts"])
                     (stub_text type ("../../../" +:+ n))] /\
    lookup_path (dirname cwd ++ [n +:+ ".ts"]) (Some (disk w'))
    = Some (File (stub_text type ("../../../" +:+ n))) /\
    ~ cwd `prefix_of` dirname cwd ++ [n +:+ ".ts"].
Proof.
  intros Hin Hcwd Hne Hn _ He Hnd.
  assert (Hname : type = "component" -> "../../../" +:+ n <> EmptyString)
    by (intros _; by rewrite append_cons).
  rewrite (add_in_project cwd type sub _ w Hin Hname He).
  assert (Hj : components (join cwd ["src"; sub; ("../../../" +:+ n) +:+ ".ts"])
               = dirname cwd ++ [n +:+ ".ts"]).
  { cbn [kinds In] in Hin.
    destruct Hin as [[= <- <-]|[[= <- <-]|[[= <- <-]|[]]]];
      by apply join_climbs. }
  rewrite Hj.
  rewrite (join_under cwd ["src"; "scenes"] ["src"; "scenes"] Hcwd
             eq_refl eq_refl eq_refl), !components_Plain in He.
  assert (Hcwd_dir : exists es, lookup_path cwd (Some (disk w)) = Some (Dir es)).
  { destruct (lookup_path (cwd ++ ["src"; "scenes"]) (Some (disk w)))
      as [m|] eqn:Hm; [ | done ].
    by eapply lookup_path_above. }
  destruct Hcwd_dir as [es Hes].
  assert (Hparent : is_some_node (lookup_path (dirname cwd) (Some (disk w))) = true).
  { apply lookup_path_dirname. by rewrite Hes. }
  assert (Hp : dirname cwd ++ [n +:+ ".ts"] <> [])
    by (by destruct (dirname cwd)).
  assert (Hc : creatable (dirname (dirname cwd ++ [n +:+ ".ts"]))
                 (Some (disk w)) = true).
  { rewrite dirname_snoc.
    destruct cwd as [|s q _] using rev_ind; [done | ].
    rewrite dirname_snoc. apply (creatable_exists_dirname q s). by rewrite Hes. }
  destruct (makeFile_ok _ cwd (stub_text type ("../../../" +:+ n)) w Hp Hc Hnd)
    as (w1 & d' & Hup & _ & Hg & ->).
  rewrite dirname_snoc in Hup.
  rewrite makeFolders_present in Hup by done.
  injection Hup as <-.
  eexists. split; [done | ]. simpl. split; [done | ].
  split; [ by eapply lookup_graft | ].
  intros [k Hk].
  assert (k = []) as ->.
  { apply (f_equal length) in Hk. rewrite !length_app in Hk.
    destruct cwd as [|s q _] using rev_ind; [done | ].
    rewrite dirname_snoc, length_app in Hk. simpl in Hk.
    destruct k; [done | simpl in Hk; lia]. }
  rewrite app_nil_r in Hk. rewrite Hk, Hes in Hnd. done.
Qed.

Lemma add_writes_outside_the_project_witness :
  (In ("scene", "scenes") kinds /\
   forallb plain ["home"] = true /\ ["home"] <> ([] : path) /\
   has_slash "passwd" = false /\
   ("scene" = "component" -> ascii_only "passwd" = true) /\
   is_some_node (lookup_path (join ["home"] ["src"; "scenes"])
                   (Some (disk project_world))) = true /\
   is_dir (lookup_path (dirname ["home"] ++ ["passwd" +:+ ".ts"])
             (Some (disk project_world))) = false) /\
  exists w',
    add ["home"] "scene" ("../../../" +:+ "passwd") project_world = Ret tt w' /\
    calls w' = calls project_world
               ++ [EvWriteFile (dirname ["home"] ++ ["passwd" +:+ ".ts"])
                     (stub_text "scene" ("../../../" +:+ "passwd"))] /\
    lookup_path (dirname ["home"] ++ ["passwd" +:+ ".ts"]) (Some (disk w'))
    = Some (File (stub_text "scene" ("../../../" +:+ "passwd"))) /\
    ~ ["home"] `prefix_of` dirname ["home"] ++ ["passwd" +:+ ".ts"].
Proof.
  assert (H1 : In ("scene", "scenes") kinds) by (left; reflexivity).
  assert (H2 : forallb plain ["home"] = true) by reflexivity.
  assert (H3 : ["home"] <> ([] : path)) by discriminate.
  assert (H4 : has_slash "passwd" = false) by reflexivity.
  assert (H4' : "scene" = "component" -> ascii_only "passwd" = true)
    by discriminate.
  assert (H5 : is_some_node (lookup_path (join ["home"] ["src"; "scenes"])
                               (Some (disk project_world))) = true)
    by (by vm_compute).
  assert (H6 : is_dir (lookup_path (dirname ["home"] ++ ["passwd" +:+ ".ts"])
                         (Some (disk project_world))) = false)
    by (by vm_compute).
  split; [ exact (conj H1 (conj H2 (conj H3 (conj H4 (conj H4' (conj H5 H6)))))) | ].
  exact (add_writes_outside_the_project ["home"] "scene" "scenes" "passwd"
           project_world H1 H2 H3 H4 H4' H5 H6).
Defined.

(* ================================================================= *)
(** ** The names that [add] derives *)

Section Names.

Ltac each_char c :=
  destruct c as [[] [] [] [] [] [] [] []]; vm_compute; reflexivity.

Lemma lower_upper_char c :
  toLowerCase_char (toUpperCase_char c) = toLowerCase_char c.
Proof. each_char c. Qed.

Lemma upper_lower_char c :
  toUpperCase_char (toLowerCase_char c) = toUpperCase_char c.
Proof. each_char c. Qed.

Lemma upper_upper_char c :
  toUpperCase_char (toUpperCase_char c) = toUpperCase_char c.
Proof. each_char c. Qed.

Lemma lower_lower_char c :
  toLowerCase_char (toLowerCase_char c) = toLowerCase_char c.
Proof. each_char c. Qed.

Lemma toLowerCase_idemp s : toLowerCase (toLowerCase s) = toLowerCase s.
Proof.
  induction s as [|c s IH]; [done | ].
  cbn [toLowerCase]. by rewrite lower_lower_char, IH.
Qed.

Lemma toLowerCase_append s t :
  toLowerCase (s +:+ t) = toLowerCase s +:+ toLowerCase t.
Proof.
  induction s as [|c s IH]; [ by rewrite !append_nil_l | ].
  rewrite append_cons. cbn [toLowerCase]. by rewrite append_cons, IH.
Qed.

Lemma toLowerCase_length s : String.length (toLowerCase s) = String.length s.
Proof. induction s as [|c s IH]; [done | ]. cbn. by rewrite IH. Qed.

(** [capitalize] sees its argument up to the case of the letters. *)
Lemma capitalize_case s t :
  toLowerCase s = toLowerCase t -> capitalize s = capitalize t.
Proof.
  destruct s as [|c s], t as [|d t]; try done.
  cbn [toLowerCase capitalize]. intros [= Hc Hs].
  rewrite Hs. rewrite <- (upper_lower_char c), <- (upper_lower_char d).
  by rewrite Hc.
Qed.

(** A name either has no hyphen followed by a letter, or splits in
    one way at the leftmost one. *)
Lemma leftmost_hyphen_letter s :
  no_hyphen_letter s = true \/
  exists a d r,
    s = a +:+ String "-" (String d r) /\
    no_hyphen_letter a = true /\ is_letter d = true.
Proof.
  induction s as [|c s IH]; [ by left | ].
  destruct s as [|d s']; [ by left | ].
  destruct (Ascii.eqb c "-" && is_letter d) eqn:Hm.
  - right. apply andb_true_iff in Hm as [Hc Hd].
    apply Ascii.eqb_eq in Hc. subst c.
    exists EmptyString, d, s'. by rewrite append_nil_l.
  - destruct IH as [Hno | (a & d' & r & Hs & Ha & Hd)].
    + left.
      change (negb (Ascii.eqb c "-" && is_letter d)
              && no_hyphen_letter (String d s') = true).
      by rewrite Hm, Hno.
    + right. exists (String c a), d', r. rewrite append_cons, <- Hs.
      split; [done | split; [ | done ]].
      destruct a as [|e a']; [done | ].
      rewrite append_cons in Hs. injection Hs as <- _.
      change (negb (Ascii.eqb c "-" && is_letter d)
              && no_hyphen_letter (String d a') = true).
      by rewrite Hm, Ha.
Qed.

End Names.

(** X8. [normalizeName] on every name: a name that holds no hyphen
    followed by a letter is returned as it is; any other name splits
    at its leftmost such hyphen, and the result is the part before
    it, the letter in upper case, and the part after the letter
    copied without a change, one character shorter than the name. *)
Theorem normalizeName_rewrites_the_leftmost_match s :
  (no_hyphen_letter s = true /\ normalizeName s = s) \/
  (exists a d r,
      s = a +:+ String "-" (String d r) /\
      no_hyphen_letter a = true /\ is_letter d = true /\
      normalizeName s = a +:+ String (toUpperCase_char d) r /\
      S (String.length (normalizeName s)) = String.length s).
Proof.
  destruct (leftmost_hyphen_letter s) as [Hno | (a & d & r & -> & Ha & Hd)].
  - left. split; [done | by apply normalizeName_no_match].
  - right. exists a, d, r. rewrite (normalizeName_first_match a d r Ha Hd).
    do 4 (split; [done | ]).
    clear. induction a as [|c a IH]; [ by rewrite !append_nil_l | ].
    rewrite !append_cons. cbn [String.length]. by rewrite IH.
Qed.

(** X9. [capitalize] on a name of ASCII characters (on them the
    model of [toUpperCase] and [toLowerCase] is exact).  It throws
    on the empty name only.  Otherwise its result has the length of
    the name, is left as it is by a second [capitalize], and depends
    on the name only up to the case of its letters.  So the upper
    case that [normalizeName] gives the letter after the hyphen is
    lost in the type name of a component: the type name of
    [boss-fight] is made from [Bossfight], as that of [bossfight]
    is, while the function is called [bossFight]. *)
Theorem capitalize_forgets_the_case s :
  ascii_only s = true ->
  (capitalize s = None <-> s = EmptyString) /\
  (forall t, capitalize s = Some t ->
             String.length t = String.length s /\ capitalize t = Some t) /\
  (forall t, ascii_only t = true ->
             toLowerCase s = toLowerCase t -> capitalize s = capitalize t) /\
  (forall a d r,
      s = a +:+ String "-" (String d r) ->
      no_hyphen_letter a = true -> is_letter d = true ->
      capitalize (normalizeName s) = capitalize (a +:+ String d r)).
Proof.
  intros _. split; [ | split; [ | split ] ].
  - destruct s; by split.
  - destruct s as [|c s]; intros t; [done | ]. cbn [capitalize]. intros [= <-].
    cbn [String.length capitalize]. rewrite toLowerCase_length.
    by rewrite upper_upper_char, toLowerCase_idemp.
  - intros t _. apply capitalize_case.
  - intros a d r -> Ha Hd. rewrite (normalizeName_first_match a d r Ha Hd).
    apply capitalize_case. rewrite !toLowerCase_append. cbn [toLowerCase].
    by rewrite lower_upper_char.
Qed.

Lemma capitalize_forgets_the_case_witness :
  ascii_only "boss-fight" = true /\
  (capitalize "boss-fight" = None <-> "boss-fight" = EmptyString) /\
  (forall t, capitalize "boss-fight" = Some t ->
             String.length t = String.length "boss-fight" /\
             capitalize t = Some t) /\
  (forall t, ascii_only t = true ->
             toLowerCase "boss-fight" = toLowerCase t ->
             capitalize "boss-fight" = capitalize t) /\
  (forall a d r,
      "boss-fight" = a +:+ String "-" (String d r) ->
      no_hyphen_letter a = true -> is_letter d = true ->
      capitalize (normalizeName "boss-fight") = capitalize (a +:+ String d r)).
Proof.
  assert (H : ascii_only "boss-fight" = true) by reflexivity.
  split; [ exact H | ].
  exact (capitalize_forgets_the_case "boss-fight" H).
Defined.

(* ================================================================= *)
(** ** The language of [PACKAGE_NAME_REGEX] *)

Section PackageNames.

Ltac each_char c :=
  destruct c as [[] [] [] [] [] [] [] []]; vm_compute; try reflexivity;
  try discriminate.

Lemma head_in_tail c :
  class_has name_head c = true -> class_has name_tail c = true.
Proof. each_char c. Qed.

Lemma tail_no_slash c :
  class_has name_tail c = true -> Ascii.eqb c "/" = false.
Proof. each_char c. Qed.

Lemma head_no_at c :
  class_has name_head c = true -> Ascii.eqb c "@" = false.
Proof. each_char c. Qed.

Lemma name_char_plain c :
  name_char c = true -> json_escape_char c = String c EmptyString.
Proof. each_char c. Qed.

Lemma all_chars_append f s t :
  all_chars f (s +:+ t) = all_chars f s && all_chars f t.
Proof.
  induction s as [|c s IH]; [ by rewrite append_nil_l | ].
  rewrite append_cons. cbn [all_chars]. by rewrite IH, andb_assoc.
Qed.

Lemma all_chars_impl (f g : ascii -> bool) s :
  (forall c, f c = true -> g c = true) ->
  all_chars f s = true -> all_chars g s = true.
Proof.
  intros Hfg. induction s as [|c s IH]; [done | ].
  cbn [all_chars]. intros [Hc Hs]%andb_true_iff.
  by rewrite (Hfg _ Hc), IH.
Qed.

(** The words of a pattern are made of the characters of its
    classes. *)
Lemma matches_over f r s :
  Matches r s -> regex_over f r -> all_chars f s = true.
Proof.
  induction 1; cbn [regex_over]; intros Hr; try done.
  - cbn [all_chars]. by rewrite (Hr _ H).
  - destruct Hr as [H1 H2]. rewrite all_chars_append.
    by rewrite IHMatches1, IHMatches2.
  - destruct Hr as [H1 H2]. by apply IHMatches.
  - destruct Hr as [H1 H2]. by apply IHMatches.
  - rewrite all_chars_append. by rewrite IHMatches1, IHMatches2.
Qed.

Lemma json_escape_plain s :
  all_chars name_char s = true -> json_escape s = s.
Proof.
  induction s as [|c s IH]; [done | ].
  cbn [all_chars json_escape]. intros [Hc Hs]%andb_true_iff.
  by rewrite (name_char_plain _ Hc), IH, append_cons, append_nil_l.
Qed.

Lemma package_regex_over : regex_over name_char PACKAGE_NAME_REGEX.
Proof.
  assert (Ht : forall c, class_has name_tail c = true -> name_char c = true).
  { intros c H. unfold name_char. by rewrite H. }
  assert (Hh : forall c, class_has name_head c = true -> name_char c = true).
  { intros c H. by apply Ht, head_in_tail. }
  cbn [PACKAGE_NAME_REGEX regex_over ROpt RChar].
  repeat split; try done; intros c; clear; each_char c.
Qed.

Lemma matches_class items s :
  Matches (RClass items) s ->
  exists c, s = String c EmptyString /\ class_has items c = true.
Proof. inversion 1; subst. eauto. Qed.

Lemma matches_star_class items s :
  Matches (RStar (RClass items)) s <-> all_chars (class_has items) s = true.
Proof.
  split.
  - intros H. apply (matches_over _ _ _ H). cbn [regex_over]. done.
  - induction s as [|c s IH]; [ intros _; constructor | ].
    cbn [all_chars]. intros [Hc Hs]%andb_true_iff.
    change (String c s) with (String c EmptyString +:+ s).
    constructor; [ by constructor | by apply IH ].
Qed.

Lemma matches_bare s :
  Matches (RCat (RClass name_head) (RStar (RClass name_tail))) s
  <-> bare_name s = true.
Proof.
  split.
  - inversion 1 as [| |r1 r2 s1 s2 H1 H2| | | |]; subst.
    apply matches_class in H1 as (c & -> & Hc).
    apply matches_star_class in H2.
    rewrite append_cons, append_nil_l. cbn [bare_name]. by rewrite Hc, H2.
  - destruct s as [|c s]; [done | ]. cbn [bare_name].
    intros [Hc Hs]%andb_true_iff.
    change (String c s) with (String c EmptyString +:+ s).
    constructor; [ by constructor | by apply matches_star_class ].
Qed.

Lemma until_slash_bare a b :
  bare_name a = true -> until_slash (a +:+ String "/" b) = Some (a, b).
Proof.
  destruct a as [|c a]; [done | ]. cbn [bare_name].
  intros [Hc Ha]%andb_true_iff. apply head_in_tail in Hc.
  assert (H : all_chars (class_has name_tail) (String c a) = true)
    by (cbn [all_chars]; by rewrite Hc, Ha).
  clear Hc Ha. revert H. generalize (String c a). clear.
  intros s. induction s as [|c s IH]; intros H.
  - by rewrite append_nil_l.
  - cbn [all_chars] in H. apply andb_true_iff in H as [Hc Hs].
    rewrite append_cons. cbn [until_slash].
    by rewrite (tail_no_slash _ Hc), (IH Hs).
Qed.

Lemma until_slash_split s : forall a b,
  until_slash s = Some (a, b) -> s = a +:+ String "/" b.
Proof.
  induction s as [|c s IH]; intros a b; [done | ].
  cbn [until_slash]. destruct (Ascii.eqb c "/") eqn:Hc.
  - intros [= <- <-]. apply Ascii.eqb_eq in Hc. subst c.
    by rewrite append_nil_l.
  - destruct (until_slash s) as [[a' b']|]; [ | done ].
    intros [= <- <-]. by rewrite append_cons, (IH a' b').
Qed.

(** The pattern holds for the bare names and the scoped names, and
    for nothing else. *)
Lemma package_regex_language s :
  Matches PACKAGE_NAME_REGEX s <-> scoped_or_bare s = true.
Proof.
  unfold PACKAGE_NAME_REGEX, ROpt, RChar. split.
  - inversion 1 as [| |r1 r2 s1 s2 H1 H2| | | |]; subst.
    apply matches_bare in H2.
    inversion H1 as [| | |r1 r2 s0 Hs| r1 r2 s0 Hs | |]; subst.
    + inversion Hs as [| |r1 r2 sa sb Ha Hb| | | |]; subst.
      apply matches_class in Ha as (c & -> & Hc).
      cbn in Hc. rewrite orb_false_r in Hc. apply Ascii.eqb_eq in Hc. subst c.
      inversion Hb as [| |r1 r2 sc sd Hc Hd| | | |]; subst.
      apply matches_class in Hc as (c & -> & Hc).
      inversion Hd as [| |r1 r2 se sf He Hf| | | |]; subst.
      apply matches_star_class in He.
      apply matches_class in Hf as (d & -> & Hd').
      cbn in Hd'. rewrite orb_false_r in Hd'. apply Ascii.eqb_eq in Hd'. subst d.
      rewrite !append_cons, !append_nil_l. cbn [scoped_or_bare Ascii.eqb Bool.eqb].
      replace (String c (se +:+ "/") +:+ s2)
        with (String c se +:+ String "/" s2).
      2:{ rewrite !append_cons. f_equal. clear.
          induction se as [|x se IH]; [ by rewrite !append_nil_l | ].
          by rewrite !append_cons, IH. }
      rewrite until_slash_bare by (cbn [bare_name]; by rewrite Hc, He).
      cbn [bare_name]. by rewrite Hc, He, H2.
    + inversion Hs; subst. rewrite append_nil_l.
      destruct s2 as [|c s2]; [done | ].
      cbn [scoped_or_bare]. cbn [bare_name] in H2.
      apply andb_true_iff in H2 as [Hc Hs2].
      rewrite (head_no_at _ Hc). cbn [bare_name]. by rewrite Hc, Hs2.
  - destruct s as [|c s]; [done | ]. cbn [scoped_or_bare].
    destruct (Ascii.eqb c "@") eqn:Hat.
    + apply Ascii.eqb_eq in Hat. subst c.
      destruct (until_slash s) as [[a b]|] eqn:Hu; [ | done ].
      intros [Ha Hb]%andb_true_iff.
      apply until_slash_split in Hu. subst s.
      destruct a as [|c a]; [done | ].
      cbn [bare_name] in Ha. apply andb_true_iff in Ha as [Hc Ha].
      assert (Heq : String "@" (String c a +:+ String "/" b)
                    = (String "@" EmptyString
                       +:+ (String c EmptyString
                            +:+ (a +:+ String "/" EmptyString))) +:+ b).
      { repeat first [ rewrite append_cons | rewrite append_nil_l ].
        do 2 f_equal. clear.
        induction a as [|x a IH];
          repeat first [ rewrite append_cons | rewrite append_nil_l ];
          [ done | by rewrite IH ]. }
      rewrite Heq.
      constructor; [ | by apply matches_bare ].
      apply MAltL. constructor; [ by constructor | ].
      constructor; [ by constructor | ].
      constructor; [ by apply matches_star_class | by constructor ].
    + intros Hb. rewrite <- (append_nil_l (String c s)).
      constructor; [ apply MAltR; constructor | by apply matches_bare ].
Qed.

End PackageNames.

(** X10. [PACKAGE_NAME_REGEX] holds for a root exactly when the root
    is a bare name (one of a-z, 0-9, hyphen, tilde, then any of
    those, dots and underscores) or an at sign, a bare name, a slash
    and a bare name.  So a root that holds a slash names the package
    only when it starts with an at sign: a project made in a nested
    directory gets the name unnamed-game. *)
Theorem package_name_regex_language root :
  regex_test PACKAGE_NAME_REGEX root = scoped_or_bare root /\
  (has_slash root = true ->
   (forall r, root <> String "@" r) ->
   package_name root = "unnamed-game").
Proof.
  assert (Heq : regex_test PACKAGE_NAME_REGEX root = scoped_or_bare root).
  { destruct (scoped_or_bare root) eqn:Hs.
    - by apply regex_test_spec, package_regex_language.
    - apply not_true_iff_false. intros H. apply not_true_iff_false in Hs.
      by apply Hs, package_regex_language, regex_test_spec. }
  split; [done | ].
  intros Hslash Hat. unfold package_name. rewrite Heq.
  destruct (scoped_or_bare root) eqn:Hs; [ | done ]. exfalso.
  destruct root as [|c r]; [done | ]. cbn [scoped_or_bare] in Hs.
  destruct (Ascii.eqb c "@") eqn:Hc.
  { apply Ascii.eqb_eq in Hc. subst c. by apply (Hat r). }
  cbn [bare_name] in Hs. apply andb_true_iff in Hs as [Hh Ht].
  apply head_in_tail in Hh.
  assert (H : all_chars (class_has name_tail) (String c r) = true)
    by (cbn [all_chars]; by rewrite Hh, Ht).
  clear -H Hslash. revert H Hslash. generalize (String c r). intros s.
  induction s as [|x s IH]; [done | ].
  cbn [all_chars has_slash]. intros [Hx Hs]%andb_true_iff.
  rewrite (tail_no_slash _ Hx). cbn [orb]. by apply IH.
Qed.

(** X11. Whatever the root, the name that [init] puts into
    package.json is in the language of [PACKAGE_NAME_REGEX], is made
    of the characters a-z, 0-9, hyphen, dot, underscore, tilde, at
    sign and slash only, and is therefore written between the quotes
    as it is, with no escape; naming a package after the name of
    another gives that name again. *)
Theorem package_name_is_always_valid root :
  Matches PACKAGE_NAME_REGEX (package_name root) /\
  all_chars name_char (package_name root) = true /\
  json_quote (package_name root) = dq +:+ package_name root +:+ dq /\
  package_name (package_name root) = package_name root.
Proof.
  assert (Hm : Matches PACKAGE_NAME_REGEX (package_name root)).
  { unfold package_name.
    destruct (regex_test PACKAGE_NAME_REGEX root) eqn:Ht.
    - by apply regex_test_spec.
    - apply regex_test_spec. by vm_compute. }
  assert (Hc : all_chars name_char (package_name root) = true)
    by (exact (matches_over _ _ _ Hm package_regex_over)).
  split; [done | split; [done | split]].
  - unfold json_quote. by rewrite (json_escape_plain _ Hc).
  - apply regex_test_spec in Hm. unfold package_name at 1. by rewrite Hm.
Qed.

(* ================================================================= *)
(** ** Every run of [init] *)

Section InitRuns.

Lemma halted_relabel {A} (r : result A) w : halted (relabel r w) = halted r.
Proof. by destruct r. Qed.

Lemma world_of_relabel {A} (r : result A) w : world_of (relabel r w) = w.
Proof. by destruct r. Qed.

(** Pruning leaves alone what lies on another branch. *)
Lemma lookup_prune_aside q : forall s s' r r' on d',
  s <> s' ->
  prune (q ++ s :: r) on = Some d' ->
  lookup_path (q ++ s' :: r') (Some d') = lookup_path (q ++ s' :: r') on.
Proof.
  induction q as [|t q IH]; intros s s' r r' on d' Hne Hp; simpl in *.
  - destruct on as [[c|es]|]; try discriminate.
    destruct r as [|u r].
    + injection Hp as <-. by rewrite lookup_delete_ne.
    + destruct (prune (u :: r) (es !! s)) as [c'|]; [ | discriminate ].
      injection Hp as <-. by rewrite lookup_insert_ne.
  - destruct on as [[c|es]|]; try discriminate.
    destruct (q ++ s :: r) as [|u k] eqn:Hk; [ by destruct q | ].
    rewrite <- Hk in *.
    destruct (prune (q ++ s :: r) (es !! t)) as [c'|] eqn:Hc;
      [ | discriminate ].
    injection Hp as <-. rewrite lookup_insert_eq.
    destruct (es !! t) as [n|] eqn:Ht.
    + eapply IH; eauto.
    + destruct q; discriminate.
Qed.

Lemma prune_frame (p y : path) on d' :
  prune p on = Some d' ->
  ~ p `prefix_of` y -> ~ y `prefix_of` p ->
  lookup_path y (Some d') = lookup_path y on.
Proof.
  intros Hp Hpy Hyp.
  destruct (path_trichotomy p y)
    as [H | [H | (q & s & s' & r & r' & Hne & -> & ->)]]; [done | done | ].
  by eapply lookup_prune_aside.
Qed.

(** Where something has been pruned, a directory can be made. *)
Lemma prune_creatable p : forall on d',
  prune p on = Some d' -> creatable p (Some d') = true.
Proof.
  induction p as [|s p IH]; intros on d' Hp; simpl in *; [done | ].
  destruct on as [[c|es]|]; try discriminate.
  destruct p as [|s' p'].
  - injection Hp as <-. by rewrite lookup_delete_eq.
  - destruct (prune (s' :: p') (es !! s)) as [c'|] eqn:Hc; [ | discriminate ].
    injection Hp as <-. rewrite lookup_insert_eq. eauto.
Qed.

Context (cwd : path) (exec : string -> path -> completion).

(** On a root that is missing and can be made, [scaffold] is
    [makeFolders(projectRoot)] followed by the run of [scaffold] in
    an empty directory, grafted at the root. *)
Lemma scaffold_fresh (R : path) root opts w :
  forallb plain R = true ->
  lookup_path R (Some (disk w)) = None ->
  creatable R (Some (disk w)) = true ->
  let ml := scaffold (fun _ _ => exec "git init" R) [] root opts
              (World (Dir ∅) []) in
  exists w1 d',
    makeFolders R w = Ret tt w1 /\
    graft R (disk (world_of ml)) (Some (disk w1)) = Some d' /\
    scaffold exec R root opts w
    = relabel ml (World d' (calls w1 ++ map (shift R) (calls (world_of ml)))).
Proof.
  intros HR Hfresh Hc ml.
  destruct (makeFolders_ok R w Hc) as (w1 & Hmk & _).
  pose proof (makeFolders_fresh _ _ _ Hfresh Hmk) as Hroot.
  destruct (scaffold_local R HR exec (fun _ _ => exec "git init" R) root opts
              eq_refl w1 (World (Dir ∅) []) Hroot)
    as (d' & lnew & Hg & Hl & Hrun).
  cbn [calls app] in Hl. fold ml in Hg, Hl, Hrun.
  exists w1, d'. split; [done | split; [done | ]].
  rewrite (scaffold_after_makeFolders R exec root opts w w1 Hmk), Hrun.
  by rewrite Hl.
Qed.

(** In an empty directory, with a child that cannot be spawned,
    [scaffold] is rejected at the git step; the tree then holds the
    files written before it. *)
Lemma scaffold_spawn_error_in_empty_dir (exec' : string -> path -> completion)
    root opts :
  nogit opts = false -> exec' "git init" [] = ChildError ->
  let r := scaffold exec' [] root opts (World (Dir ∅) []) in
  halted r = Some (Rejected SpawnError) /\
  (forall rel c,
      lookup_path rel (Some (disk (world_of r))) = Some (File c) <->
      In (rel, c) (source_files opts)).
Proof.
  intros Hg Hexec. destruct opts as [f t g]. cbn [nogit] in Hg. subst g.
  unfold scaffold, write_sources, init_git, write_configs, runCommand,
    source_files.
  cbn [components Plain]. rewrite Hexec.
  destruct t;
    cbn [template nogit templates for_each fst snd negb];
    rewrite ?template_files_empty, ?template_files_basic;
    cbn [app];
    generalize empty_main_ts basic_message_ts basic_main_ts basic_other_ts
      index_ts_text constants_ts_text index_html_text vite_config_text
      gitignore_text (JSON_stringify manifest_json 4)
      (JSON_stringify prettierrc_json 4) (JSON_stringify tsconfig_json 4)
      (JSON_stringify (package_json root) 4);
    intros t1 t2 t3 t4 t5 t6 t7 t8 t9 t10 t11 t12 t13;
    lazymatch goal with
    | |- halted ?x = _ /\ _ =>
        let r := fresh "r" in
        set (r := x);
        let l := eval vm_compute in (files_of 4 (disk (world_of r))) in
        assert (Hfiles : files_of 4 (disk (world_of r)) = l)
          by (vm_compute; reflexivity);
        assert (Hshallow : shallow 4 (disk (world_of r)) = true)
          by (vm_compute; reflexivity);
        (split;
         [ vm_compute; reflexivity
         | intros rel c;
           rewrite (files_of_spec 4 _ rel c Hshallow), Hfiles;
           clear; same_elements ])
    end.
Qed.

(** The end of [scaffold] on a root that is missing and can be
    made. *)
Lemma scaffold_fresh_verdict (R : path) root opts w :
  forallb plain R = true ->
  lookup_path R (Some (disk w)) = None ->
  creatable R (Some (disk w)) = true ->
  halted (scaffold exec R root opts w) = git_verdict exec R opts.
Proof.
  intros HR Hfresh Hc.
  destruct (scaffold_fresh R root opts w HR Hfresh Hc) as (w1 & d' & _ & _ & ->).
  rewrite halted_relabel. unfold git_verdict.
  destruct (nogit opts) eqn:Hg.
  - apply scaffold_in_empty_dir. by rewrite Hg.
  - destruct (exec "git init" R) as [code repository|] eqn:He.
    + apply scaffold_in_empty_dir. intros _. by exists code, repository.
    + by apply scaffold_spawn_error_in_empty_dir.
Qed.

End InitRuns.

(** X12. How every run of [init] ends (the project root not being
    the root of the file system) is decided by what is at the root,
    the options and the child, as [init_verdict] says.  A root that
    [stat] finds ends the run at once with the report that it exists,
    unless [force] is set.  A root given with a separator at its end
    that names a regular file is not found by [stat]: the run is
    rejected with [EEXIST], with or without [force].  A root that is
    missing, with a regular file on the way to it, gets the run
    rejected with [ENOTDIR].  In every other case the run goes as far
    as the git step, and returns unless the child cannot be spawned.
    The process ends with status 1 when the run fails, in whichever
    of these ways, and with status 0 when it returns.  No other
    failure occurs in the model of the file system, where a call
    fails for what is or is not at a path only (not for a missing
    permission or a full disk): on a root that it has made or
    emptied, no write of [init] fails. *)
Theorem init_ends_as_the_verdict
    (cwd : path) (exec : string -> path -> completion) root opts w :
  components (join cwd [root]) <> [] ->
  halted (init cwd exec root opts w) = init_verdict cwd exec root opts (disk w) /\
  exit_status (init cwd exec root opts w)
  = match init_verdict cwd exec root opts (disk w) with
    | Some _ => 1
    | None => 0
    end.
Proof.
  intros HR0.
  assert (Hst : forall r : result unit,
            (forall s c, halted r = Some (Exit s c) -> s = 1) ->
            exit_status r = match halted r with Some _ => 1 | None => 0 end).
  { intros [[] w1|[s c|f] w1] Hs; cbn; try done. by apply (Hs s c). }
  assert (Hv : halted (init cwd exec root opts w)
               = init_verdict cwd exec root opts (disk w)).
  { unfold init_verdict.
    destruct (init_root_cases cwd exec root opts w)
      as [(_ & Hs & (c & Hc) & ->) | (Hs & ->)]; rewrite Hs.
    { by rewrite Hc. }
    set (R := components (join cwd [root])) in *.
    assert (HR : forallb plain R = true) by apply join_is_plain.
    destruct (lookup_path R (Some (disk w))) as [n|] eqn:Hl; cbn [is_some_node].
    - destruct (force opts); [ | done ].
      destruct (prune_over R _ _ HR0 Hl) as [d1 Hd1].
      rewrite rm_run, Hl, Hd1. cbn.
      apply scaffold_fresh_verdict; [done | | ]; cbn [disk].
      + by eapply prune_gone.
      + by eapply prune_creatable.
    - destruct (creatable R (Some (disk w))) eqn:Hc.
      + by apply scaffold_fresh_verdict.
      + destruct (not_creatable_File _ _ Hc) as (q & r & c & Hq & Hf).
        destruct r as [|s r].
        { rewrite app_nil_r in Hq. rewrite <- Hq in Hf. congruence. }
        rewrite Hq.
        by rewrite (scaffold_Halt exec _ root opts w _ _
                      (makeFolders_below_File q s c w r Hf)). }
  split; [done | ].
  rewrite Hst, Hv; [done | ].
  rewrite Hv. unfold init_verdict, git_verdict. intros s c.
  repeat match goal with
         | |- context [if ?b then _ else _] => destruct b
         | |- context [match ?e with ChildExit _ _ => _ | ChildError => _ end] =>
             destruct e
         end; congruence.
Qed.

Lemma init_ends_as_the_verdict_witness :
  components (join ["home"] ["game/save.dat/"]) <> [] /\
  halted (init ["home"] git_init "game/save.dat/" (Options true tpl_empty false)
            taken_world)
  = init_verdict ["home"] git_init "game/save.dat/"
      (Options true tpl_empty false) (disk taken_world) /\
  exit_status (init ["home"] git_init "game/save.dat/"
                 (Options true tpl_empty false) taken_world)
  = match init_verdict ["home"] git_init "game/save.dat/"
            (Options true tpl_empty false) (disk taken_world) with
    | Some _ => 1
    | None => 0
    end.
Proof.
  assert (H : components (join ["home"] ["game/save.dat/"]) <> [])
    by (by vm_compute).
  split; [ exact H | ].
  exact (init_ends_as_the_verdict ["home"] git_init "game/save.dat/"
           (Options true tpl_empty false) taken_world H).
Defined.

Section InitCases.

Context (cwd : path) (exec : string -> path -> completion).

(** A run of [init] either stops before anything is written, the
    disk being as it was, or is [scaffold] on a root that is missing
    and can be made: the root of a disk that was left alone, or of
    the disk without what [rm] has removed. *)
Lemma init_cases root opts w (R : path) :
  R = join cwd [root] ->
  (exists h l,
      init cwd exec root opts w = Halt h (World (disk w) (calls w ++ l)) /\
      (h = Exit 1 AlreadyExists /\ l = [] \/
       h = Rejected (FsError EBUSY) /\ l = [EvRm R] \/
       h = Rejected (FsError EEXIST) /\ l = [EvMkdir R] \/
       h = Rejected (FsError ENOTDIR) /\ exists q, l = [EvMkdir q])) \/
  (exists w0,
      R <> [] /\
      lookup_path R (Some (disk w0)) = None /\
      creatable R (Some (disk w0)) = true /\
      init cwd exec root opts w = scaffold exec R root opts w0 /\
      (w0 = w \/
       is_some_node (stat (join cwd [root]) (disk w)) = true /\
       force opts = true /\
       exists d1, prune R (Some (disk w)) = Some d1 /\
                  w0 = World d1 (calls w ++ [EvRm R])) /\
      (forall x, ~ R `prefix_of` x -> ~ x `prefix_of` R ->
                 lookup_path x (Some (disk w0)) = lookup_path x (Some (disk w)))).
Proof.
  intros HR.
  destruct (init_root_cases cwd exec root opts w)
    as [(_ & Hs & (c & Hc) & ->) | (Hs & ->)]; rewrite <- HR in *.
  { left. exists (Rejected (FsError EEXIST)), [EvMkdir R]. split; [done | ].
    do 2 right. by left. }
  destruct (lookup_path R (Some (disk w))) as [n|] eqn:Hl; cbn [is_some_node].
  - destruct (force opts) eqn:Hf.
    2:{ left. exists (Exit 1 AlreadyExists), []. rewrite app_nil_r.
        split; [ by destruct w | by left ]. }
    rewrite rm_run, Hl.
    destruct (prune R (Some (disk w))) as [d1|] eqn:Hp; cbn.
    + right. exists (World d1 (calls w ++ [EvRm R])). cbn [disk].
      split; [ intros H0; by rewrite H0 in Hp | ].
      split; [ by eapply prune_gone | ].
      split; [ by eapply prune_creatable | ].
      split; [ done | ].
      split; [ right; rewrite Hs; split; [ done | ]; split; [ done | ];
               by exists d1 | ].
      intros x H1 H2. by eapply prune_frame.
    + left. exists (Rejected (FsError EBUSY)), [EvRm R]. split; [done | ].
      right. by left.
  - destruct (creatable R (Some (disk w))) eqn:Hc.
    + right. exists w.
      split; [ intros H0; by rewrite H0 in Hl | ].
      split; [ done | ]. split; [ done | ]. split; [ done | ].
      split; [ by left | done ].
    + left. destruct (not_creatable_File _ _ Hc) as (q & r & c & Hq & Hf).
      destruct r as [|s r].
      { rewrite app_nil_r in Hq. rewrite <- Hq in Hf. congruence. }
      exists (Rejected (FsError ENOTDIR)), [EvMkdir (q ++ [s])].
      split; [ | do 3 right; split; [ done | by eexists ] ].
      rewrite Hq.
      by rewrite (scaffold_Halt exec _ root opts w _ _
                    (makeFolders_below_File q s c w r Hf)).
Qed.

(** The git step of the run in the empty directory, read off the
    way the run ends. *)
Lemma scaffold_in_empty_dir_ends (exec' : string -> path -> completion)
    root opts :
  let r := scaffold exec' [] root opts (World (Dir ∅) []) in
  (halted r = None /\
   (nogit opts = false ->
    exists code repository, exec' "git init" [] = ChildExit code repository)) \/
  (halted r = Some (Rejected SpawnError) /\
   nogit opts = false /\ exec' "git init" [] = ChildError).
Proof.
  intros r. destruct (nogit opts) eqn:Hg.
  - left. split; [ | done ]. apply scaffold_in_empty_dir. by rewrite Hg.
  - destruct (exec' "git init" []) as [code repository|] eqn:He.
    + left. split; [ | by eauto ].
      apply scaffold_in_empty_dir. intros _. by exists code, repository.
    + right. split; [ | done ].
      by apply scaffold_spawn_error_in_empty_dir.
Qed.

(** At that point none of the three configuration files is there. *)
Lemma scaffold_spawn_error_no_configs (exec' : string -> path -> completion)
    root opts :
  nogit opts = false -> exec' "git init" [] = ChildError ->
  forall p, In p (config_paths []) ->
    lookup_path p
      (Some (disk (world_of (scaffold exec' [] root opts (World (Dir ∅) [])))))
    = None.
Proof.
  intros Hg Hexec. destruct opts as [f t g]. cbn [nogit] in Hg. subst g.
  unfold scaffold, write_sources, init_git, write_configs, runCommand.
  cbn [components Plain]. rewrite Hexec.
  destruct t;
    cbn [template nogit templates for_each fst snd negb];
    generalize empty_main_ts basic_message_ts basic_main_ts basic_other_ts
      index_ts_text constants_ts_text index_html_text vite_config_text
      gitignore_text (JSON_stringify manifest_json 4)
      (JSON_stringify prettierrc_json 4) (JSON_stringify tsconfig_json 4)
      (JSON_stringify (package_json root) 4);
    intros t1 t2 t3 t4 t5 t6 t7 t8 t9 t10 t11 t12 t13 p Hin;
    cbn [config_paths In app] in Hin;
    repeat (destruct Hin as [Hin|Hin];
            [ rewrite <- Hin; vm_compute; reflexivity | ]);
    destruct Hin.
Qed.

End InitCases.

(** X13. Every run of [init] that returns leaves, below the project
    root, exactly the files of the two tables with their texts and
    the files of the repository that the child has left under [.git]
    (none with [nogit]), and the directories of the template.  With
    [force] on a root that existed, nothing of what the root held
    before is left, except under the names that [init] writes
    itself. *)
Theorem init_result_is_the_project
    (cwd : path) (exec : string -> path -> completion) root opts w w' :
  init cwd exec root opts w = Ret tt w' ->
  (forall rel c,
      lookup_path (join cwd [root] ++ rel) (Some (disk w')) = Some (File c) <->
      project_file root opts (repository_of exec (join cwd [root]) opts) rel c) /\
  (forall rel,
      In rel (template_dirs (template opts)) ->
      is_dir (lookup_path (join cwd [root] ++ rel) (Some (disk w'))) = true).
Proof.
  intros Hrun. set (R := components (join cwd [root])) in *.
  assert (HR : forallb plain R = true) by apply join_is_plain.
  destruct (init_cases cwd exec root opts w R eq_refl)
    as [(h & l & Hh & _) | (w0 & _ & Hfresh & Hc & Hinit & _)];
    [ congruence | ].
  rewrite Hinit in Hrun.
  destruct (scaffold_fresh exec R root opts w0 HR Hfresh Hc)
    as (w1 & d' & _ & Hg & Hsc).
  rewrite Hsc in Hrun.
  destruct (scaffold_in_empty_dir_ends (fun _ _ => exec "git init" R) root opts)
    as [[Hnone Hexec] | [Hhalt _]].
  2:{ destruct (scaffold _ [] root opts (World (Dir ∅) [])); done. }
  destruct (scaffold_in_empty_dir (fun _ _ => exec "git init" R) root opts Hexec)
    as (_ & Hfiles & Hdirs).
  destruct (scaffold _ [] root opts (World (Dir ∅) [])) as [[] wl|h wl];
    [ | done ].
  cbn [relabel world_of] in *. injection Hrun as <-. cbn [disk]. split.
  - intros rel c. rewrite (lookup_graft_below _ _ _ _ _ Hg). apply Hfiles.
  - intros rel Hin. rewrite (lookup_graft_below _ _ _ _ _ Hg). by apply Hdirs.
Qed.

Lemma init_result_is_the_project_witness :
  let opts := Options true tpl_empty false in
  let r := init ["home"] git_init "game/" opts taken_world in
  r = Ret tt (world_of r) /\
  (forall rel c,
      lookup_path (join ["home"] ["game/"] ++ rel) (Some (disk (world_of r)))
      = Some (File c) <->
      project_file "game/" opts
        (repository_of git_init (join ["home"] ["game/"]) opts) rel c) /\
  (forall rel,
      In rel (template_dirs (template opts)) ->
      is_dir (lookup_path (join ["home"] ["game/"] ++ rel)
                (Some (disk (world_of r)))) = true).
Proof.
  assert (H : init ["home"] git_init "game/" (Options true tpl_empty false)
                taken_world
              = Ret tt (world_of (init ["home"] git_init "game/"
                                    (Options true tpl_empty false) taken_world)))
    by (by vm_compute).
  split; [ exact H | ].
  exact (init_result_is_the_project ["home"] git_init "game/"
           (Options true tpl_empty false) taken_world
           (world_of (init ["home"] git_init "game/"
                        (Options true tpl_empty false) taken_world)) H).
Defined.

(** X14. No run of [init], however it ends, changes anything at a
    path that is neither the project root, nor below it, nor above
    it: what is found there afterwards is what was found there
    before. *)
Theorem init_changes_nothing_elsewhere (cwd : path)
    (exec : string -> path -> completion) root opts w x :
  ~ join cwd [root] `prefix_of` x ->
  ~ x `prefix_of` join cwd [root] ->
  lookup_path x (Some (disk (world_of (init cwd exec root opts w))))
  = lookup_path x (Some (disk w)).
Proof.
  intros H1 H2. set (R := components (join cwd [root])) in *.
  assert (HR : forallb plain R = true) by apply join_is_plain.
  destruct (init_cases cwd exec root opts w R eq_refl)
    as [(h & l & -> & _) | (w0 & _ & Hfresh & Hc & -> & _ & Hframe)];
    [ done | ].
  destruct (scaffold_fresh exec R root opts w0 HR Hfresh Hc)
    as (w1 & d' & Hmk & Hg & ->).
  rewrite world_of_relabel. cbn [disk].
  rewrite (graft_frame _ _ _ _ _ Hg H1 H2).
  rewrite (makeFolders_frame _ _ _ _ Hmk H2).
  by apply Hframe.
Qed.

Lemma init_changes_nothing_elsewhere_witness :
  let w := World (Dir {[ "home" := Dir {[ "game" := Dir ∅;
                                          "notes.txt" := File "keep" ]} ]}) [] in
  (~ join ["home"] ["game"] `prefix_of` ["home"; "notes.txt"] /\
   ~ ["home"; "notes.txt"] `prefix_of` join ["home"] ["game"]) /\
  lookup_path ["home"; "notes.txt"]
    (Some (disk (world_of (init ["home"] git_init "game"
                             (Options true tpl_basic false) w))))
  = lookup_path ["home"; "notes.txt"] (Some (disk w)).
Proof.
  assert (H1 : ~ join ["home"] ["game"] `prefix_of` ["home"; "notes.txt"]).
  { intros [k Hk]. vm_compute in Hk. discriminate Hk. }
  assert (H2 : ~ ["home"; "notes.txt"] `prefix_of` join ["home"] ["game"]).
  { intros [k Hk]. vm_compute in Hk. discriminate Hk. }
  split; [ exact (conj H1 H2) | ].
  exact (init_changes_nothing_elsewhere ["home"] git_init "game"
           (Options true tpl_basic false) _ ["home"; "notes.txt"] H1 H2).
Defined.

(** X15. When [init] is rejected because the child of the git step
    cannot be spawned, nothing is rolled back: below the project
    root the disk then holds exactly the files written before that
    step (the manifest, the files of the template, the two modules,
    the HTML entry, the formatting configuration and the ignore
    file), and none of package.json, tsconfig.json and
    vite.config.js. *)
Theorem init_spawn_failure_keeps_the_sources (cwd : path)
    (exec : string -> path -> completion) root opts w w' :
  init cwd exec root opts w = Halt (Rejected SpawnError) w' ->
  nogit opts = false /\
  exec "git init" (join cwd [root]) = ChildError /\
  (forall rel c,
      lookup_path (join cwd [root] ++ rel) (Some (disk w')) = Some (File c) <->
      In (rel, c) (source_files opts)) /\
  (forall p, In p (config_paths (join cwd [root])) ->
             lookup_path p (Some (disk w')) = None).
Proof.
  intros Hrun. set (R := components (join cwd [root])) in *.
  assert (HR : forallb plain R = true) by apply join_is_plain.
  destruct (init_cases cwd exec root opts w R eq_refl)
    as [(h & l & Hh & [[-> _] | [[-> _] | [[-> _] | [-> _]]]])
       | (w0 & _ & Hfresh & Hc & Hinit & _)];
    [ congruence | congruence | congruence | congruence | ].
  rewrite Hinit in Hrun.
  destruct (scaffold_fresh exec R root opts w0 HR Hfresh Hc)
    as (w1 & d' & _ & Hg & Hsc).
  rewrite Hsc in Hrun.
  destruct (scaffold_in_empty_dir_ends (fun _ _ => exec "git init" R) root opts)
    as [[Hnone _] | [_ [Hgit Hexec]]].
  { destruct (scaffold _ [] root opts (World (Dir ∅) [])); done. }
  destruct (scaffold_spawn_error_in_empty_dir (fun _ _ => exec "git init" R)
              root opts Hgit Hexec) as (_ & Hfiles).
  destruct (scaffold _ [] root opts (World (Dir ∅) [])) as [[] wl|h wl] eqn:Heqr;
    [ done | ].
  cbn [relabel world_of] in *. injection Hrun as Hh Hw. subst h w'.
  cbn [disk].
  split; [done | split; [done | split]].
  - intros rel c. rewrite (lookup_graft_below _ _ _ _ _ Hg). apply Hfiles.
  - intros p Hin. cbn [config_paths In] in Hin.
    pose proof (scaffold_spawn_error_no_configs (fun _ _ => exec "git init" R)
                  root opts Hgit Hexec) as Hno.
    rewrite Heqr in Hno. cbn [world_of] in Hno.
    destruct Hin as [<-|[<-|[<-|[]]]];
      rewrite (lookup_graft_below _ _ _ _ _ Hg); apply Hno;
      cbn [config_paths In app]; tauto.
Qed.

Lemma init_spawn_failure_keeps_the_sources_witness :
  let r := init ["home"] cannot_spawn "game" default_options home_world in
  r = Halt (Rejected SpawnError) (world_of r) /\
  (nogit default_options = false /\
   cannot_spawn "git init" (join ["home"] ["game"]) = ChildError /\
   (forall rel c,
       lookup_path (join ["home"] ["game"] ++ rel) (Some (disk (world_of r)))
       = Some (File c) <->
       In (rel, c) (source_files default_options)) /\
   (forall p, In p (config_paths (join ["home"] ["game"])) ->
              lookup_path p (Some (disk (world_of r))) = None)).
Proof.
  assert (H : init ["home"] cannot_spawn "game" default_options home_world
              = Halt (Rejected SpawnError)
                  (world_of (init ["home"] cannot_spawn "game" default_options
                               home_world)))
    by (by vm_compute).
  split; [ exact H | ].
  exact (init_spawn_failure_keeps_the_sources ["home"] cannot_spawn "game"
           default_options home_world
           (world_of (init ["home"] cannot_spawn "game" default_options
                        home_world)) H).
Defined.

(* ================================================================= *)
(** ** The calls of [init], in their order *)

Section InitScript.

Lemma ancestry_app (q r : path) :
  ancestry (q ++ r) = ancestry q ++ map (app q) (ancestry r).
Proof.
  induction q as [|t q IH]; simpl.
  - by rewrite map_id.
  - rewrite IH, map_app, map_map. done.
Qed.

(** Below a regular file everything is missing, the entry just below
    the file first. *)
Lemma missing_dirs_below_File q s r d c :
  lookup_path q (Some d) = Some (File c) ->
  exists rest, missing_dirs (q ++ s :: r) d = (q ++ [s]) :: rest.
Proof.
  intros Hq. unfold missing_dirs. rewrite ancestry_app, List.filter_app.
  fold (missing_dirs q d). rewrite missing_dirs_present by (by rewrite Hq).
  cbn [ancestry map List.filter app].
  rewrite lookup_path_app, Hq. cbn. eauto.
Qed.

(** What is above a pruned entry is still there. *)
Lemma prune_above q : forall s r on d',
  prune (q ++ s :: r) on = Some d' ->
  is_some_node (lookup_path q (Some d')) = true.
Proof.
  induction q as [|t q IH]; intros s r on d' Hp; [done | ]. simpl in *.
  destruct on as [[c|es]|]; try discriminate.
  destruct (q ++ s :: r) as [|u k] eqn:Hk; [ by destruct q | ].
  rewrite <- Hk in *.
  destruct (prune (q ++ s :: r) (es !! t)) as [c'|] eqn:Hc; [ | discriminate ].
  injection Hp as <-. rewrite lookup_insert_eq. eauto.
Qed.

(** After [rm] the root is the one directory to make. *)
Lemma missing_dirs_pruned R on d1 :
  prune R on = Some d1 -> missing_dirs R d1 = [R].
Proof.
  intros Hp.
  destruct R as [|s q _] using rev_ind; [done | ].
  unfold missing_dirs. rewrite ancestry_snoc, List.filter_app.
  fold (missing_dirs q d1).
  rewrite missing_dirs_present by (by eapply (prune_above q s [])).
  cbn [List.filter app]. by rewrite (prune_gone _ _ _ Hp).
Qed.

(** In an empty directory the calls of [scaffold] are an initial
    segment of the script, and the whole of it when [scaffold]
    returns. *)
Lemma scaffold_in_empty_dir_calls (exec' : string -> path -> completion) root
    opts :
  let r := scaffold exec' [] root opts (World (Dir ∅) []) in
  calls (world_of r) `prefix_of` init_script root opts /\
  (halted r = None -> calls (world_of r) = init_script root opts).
Proof.
  destruct opts as [f t g].
  unfold scaffold, write_sources, init_git, write_configs, runCommand,
    init_script.
  cbn [components Plain].
  destruct (exec' "git init" []) as [code [tree|]|];
    destruct t, g;
    cbn [template nogit templates for_each fst snd negb template_script];
    generalize empty_main_ts basic_message_ts basic_main_ts basic_other_ts
      index_ts_text constants_ts_text index_html_text vite_config_text
      gitignore_text (JSON_stringify manifest_json 4)
      (JSON_stringify prettierrc_json 4) (JSON_stringify tsconfig_json 4)
      (JSON_stringify (package_json root) 4);
    intros t1 t2 t3 t4 t5 t6 t7 t8 t9 t10 t11 t12 t13;
    (split;
     [ eexists; vm_compute; reflexivity
     | first [ intros _; vm_compute; reflexivity
             | intros H; vm_compute in H; discriminate H ] ]).
Qed.

(** The script writes the files of the two tables, and it writes no
    path twice. *)
Lemma init_script_writes root opts rel c :
  In (EvWriteFile rel c) (init_script root opts) <->
  In (rel, c) (auxiliary_files root (nogit opts)
               ++ template_files (template opts)).
Proof.
  destruct opts as [f t g]. unfold init_script, auxiliary_files.
  destruct t, g; cbn [template nogit template_script];
    rewrite ?template_files_empty, ?template_files_basic; cbn [app];
    generalize empty_main_ts basic_message_ts basic_main_ts basic_other_ts
      index_ts_text constants_ts_text index_html_text vite_config_text
      gitignore_text (JSON_stringify manifest_json 4)
      (JSON_stringify prettierrc_json 4) (JSON_stringify tsconfig_json 4)
      (JSON_stringify (package_json root) 4);
    intros t1 t2 t3 t4 t5 t6 t7 t8 t9 t10 t11 t12 t13;
    (split; intros H; cbn [In] in H;
     repeat (destruct H as [H|H];
             [ first [ discriminate H
                     | injection H as <- <-; solve [ in_list ] ] | ]);
     destruct H).
Qed.

Lemma init_script_written_once root opts :
  NoDup (written (init_script root opts)).
Proof.
  destruct opts as [f t g]. unfold init_script.
  destruct t, g; cbn [template nogit template_script app written omap];
    apply (bool_decide_unpack _); vm_compute; exact I.
Qed.

Lemma written_app l1 l2 : written (l1 ++ l2) = written l1 ++ written l2.
Proof. apply omap_app. Qed.

Lemma written_mkdirs ps : written (map EvMkdir ps) = [].
Proof. induction ps as [|p ps IH]; [done | exact IH]. Qed.

Lemma written_shift R l : written (map (shift R) l) = map (app R) (written l).
Proof.
  unfold written. induction l as [|e l IH]; [done | ].
  destruct e; simpl; first [ exact IH | f_equal; exact IH ].
Qed.

Lemma In_shift_write R rel c l :
  In (EvWriteFile (R ++ rel) c) (map (shift R) l) <-> In (EvWriteFile rel c) l.
Proof.
  rewrite in_map_iff. split.
  - intros (e & He & Hin). destruct e; cbn [shift] in He; try discriminate.
    injection He as Hp ->. apply app_inv_head in Hp. by subst.
  - intros Hin. by exists (EvWriteFile rel c).
Qed.

Context (cwd : path) (exec : string -> path -> completion).

(** On a root that [stat] finds as [lookup_path] does, [init_calls]
    is the sequence for the root without its separator. *)
Lemma init_calls_Plain root opts d :
  stat (join cwd [root]) d = lookup_path (join cwd [root]) (Some d) ->
  let R : path := join cwd [root] in
  init_calls cwd root opts d
  = if is_some_node (lookup_path R (Some d)) then
      if force opts
      then EvRm R :: EvMkdir R :: map (shift R) (init_script root opts)
      else []
    else map EvMkdir (missing_dirs R d) ++ map (shift R) (init_script root opts).
Proof.
  intros Hs R. unfold init_calls. rewrite Hs. fold R.
  by destruct (is_some_node (lookup_path R (Some d))).
Qed.

Lemma init_calls_behind_file root opts d c :
  trailing (join cwd [root]) = true ->
  lookup_path (join cwd [root]) (Some d) = Some (File c) ->
  init_calls cwd root opts d = [EvMkdir (join cwd [root])].
Proof.
  intros Ht Hc. unfold init_calls.
  assert (Hs : stat (join cwd [root]) d = None)
    by (apply stat_None; right; eauto).
  by rewrite Hs, Hc.
Qed.

(** The calls of every run of [init] are an initial segment of
    [init_calls], and the whole of it when the run returns. *)
Lemma init_calls_prefix root opts w l :
  calls (world_of (init cwd exec root opts w)) = calls w ++ l ->
  l `prefix_of` init_calls cwd root opts (disk w) /\
  (halted (init cwd exec root opts w) = None ->
   l = init_calls cwd root opts (disk w)).
Proof.
  destruct (init_root_cases cwd exec root opts w)
    as [(Ht & _ & [c Hc] & Hrun) | [Hs Hrun]].
  { rewrite Hrun, (init_calls_behind_file root opts (disk w) c Ht Hc).
    cbn [world_of calls halted]. intros Hl. apply app_inv_head in Hl.
    by subst l. }
  rewrite Hrun, (init_calls_Plain root opts (disk w) Hs). clear Hrun Hs.
  assert (HR : forallb plain (components (join cwd [root])) = true)
    by apply join_is_plain.
  revert HR. generalize (components (join cwd [root])). intros R HR.
  assert (Hfresh : forall w0 l0,
    lookup_path R (Some (disk w0)) = None ->
    creatable R (Some (disk w0)) = true ->
    calls (world_of (scaffold exec R root opts w0)) = calls w0 ++ l0 ->
    l0 `prefix_of` map EvMkdir (missing_dirs R (disk w0))
                   ++ map (shift R) (init_script root opts) /\
    (halted (scaffold exec R root opts w0) = None ->
     l0 = map EvMkdir (missing_dirs R (disk w0))
          ++ map (shift R) (init_script root opts))).
  { intros w0 l0 Hnone Hc Hl0.
    destruct (scaffold_fresh exec R root opts w0 HR Hnone Hc)
      as (w1 & d' & Hmk & _ & Hsc).
    rewrite Hsc, world_of_relabel in Hl0. cbn [calls] in Hl0.
    rewrite (makeFolders_calls _ _ _ Hmk), <- app_assoc in Hl0.
    apply app_inv_head in Hl0. subst l0.
    rewrite Hsc, halted_relabel.
    destruct (scaffold_in_empty_dir_calls (fun _ _ => exec "git init" R)
                root opts) as [[k Hk] Hall].
    split.
    - exists (map (shift R) k). rewrite Hk, map_app, app_assoc. done.
    - intros Hh. by rewrite (Hall Hh). }
  intros Hl.
  destruct (lookup_path R (Some (disk w))) as [n|] eqn:Hlook;
    cbn [is_some_node] in *.
  - destruct (force opts).
    2:{ cbn [world_of] in Hl. rewrite <- (app_nil_r (calls w)) in Hl at 1.
        apply app_inv_head in Hl. subst l. done. }
    rewrite rm_run, Hlook in Hl |- *.
    destruct (prune R (Some (disk w))) as [d1|] eqn:Hp;
      cbv beta iota zeta in Hl |- *.
    + assert (He : exists l',
                calls (world_of (scaffold exec R root opts
                                   (World d1 (calls w ++ [EvRm R]))))
                = (calls w ++ [EvRm R]) ++ l').
      { destruct (scaffold_accounted exec R root opts HR
                    (World d1 (calls w ++ [EvRm R]))) as (l' & Hl' & _).
        by exists l'. }
      destruct He as [l' Hl'].
      rewrite Hl', <- app_assoc in Hl. apply app_inv_head in Hl. subst l.
      destruct (Hfresh (World d1 (calls w ++ [EvRm R])) l') as [Hpre Hall];
        [ by eapply prune_gone | by eapply prune_creatable | exact Hl' | ].
      cbn [disk] in Hpre, Hall.
      rewrite (missing_dirs_pruned _ _ _ Hp) in Hpre, Hall.
      cbn [map app] in Hpre, Hall. split.
      * destruct Hpre as [k Hk]. exists k. cbn [app]. by rewrite Hk.
      * intros Hh. cbn [app]. by rewrite (Hall Hh).
    + cbn [world_of calls] in Hl. apply app_inv_head in Hl. subst l.
      split; [ | done ]. by eexists.
  - destruct (creatable R (Some (disk w))) eqn:Hc.
    + by apply Hfresh.
    + destruct (not_creatable_File _ _ Hc) as (q & r & c & Hq & Hf).
      destruct r as [|s r].
      { rewrite app_nil_r in Hq. rewrite <- Hq in Hf. congruence. }
      rewrite Hq in Hl |- *.
      rewrite (scaffold_Halt exec _ root opts w _ _
                 (makeFolders_below_File q s c w r Hf)) in Hl |- *.
      cbn [world_of calls] in Hl. apply app_inv_head in Hl. subst l.
      split; [ | done ].
      destruct (missing_dirs_below_File q s r (disk w) c Hf) as [rest ->].
      by eexists.
Qed.

End InitScript.

(** With a child that cannot be spawned, the calls of [scaffold] in
    an empty directory stop before the end of the script. *)
Lemma scaffold_spawn_error_calls (exec' : string -> path -> completion) root
    opts :
  nogit opts = false -> exec' "git init" [] = ChildError ->
  (length (calls (world_of (scaffold exec' [] root opts (World (Dir ∅) []))))
   < length (init_script root opts))%nat.
Proof.
  intros Hg Hexec. destruct opts as [f t g]. cbn [nogit] in Hg. subst g.
  unfold scaffold, write_sources, init_git, write_configs, runCommand,
    init_script.
  cbn [components Plain]. rewrite Hexec.
  destruct t;
    cbn [template nogit templates for_each fst snd negb template_script];
    generalize empty_main_ts basic_message_ts basic_main_ts basic_other_ts
      index_ts_text constants_ts_text index_html_text vite_config_text
      gitignore_text (JSON_stringify manifest_json 4)
      (JSON_stringify prettierrc_json 4) (JSON_stringify tsconfig_json 4)
      (JSON_stringify (package_json root) 4);
    intros t1 t2 t3 t4 t5 t6 t7 t8 t9 t10 t11 t12 t13;
    apply Nat.ltb_lt; vm_compute; reflexivity.
Qed.

Lemma init_script_length root opts : (3 <= length (init_script root opts))%nat.
Proof. unfold init_script. rewrite length_app. simpl. lia. Qed.

(** X16. The calls of every run of [init] are an initial segment of
    one sequence, fixed by the working directory, the root, the
    options and the disk; the run returns exactly when they are the
    whole of it and the root, if there is something at it, is found
    by [stat] and is to be removed.  The sequence: for a root that
    [stat] finds no call without [force], and with it the [rm] and
    the [mkdir] of the root; for a regular file that [stat] does not
    find, the root being given with a trailing separator, the one
    [mkdir] of the root, which fails; for a root that is missing the
    [mkdir] of each missing directory on the way to it; then, in
    this order, the manifest, assets, the entries of the template,
    the two modules, the HTML entry, the formatting configuration,
    unless [nogit] the ignore file and [git init], and last
    package.json, tsconfig.json and vite.config.js, each directory
    being made just before the first entry in it. *)
Theorem init_follows_the_script (cwd : path)
    (exec : string -> path -> completion) root opts w l :
  calls (world_of (init cwd exec root opts w)) = calls w ++ l ->
  l `prefix_of` init_calls cwd root opts (disk w) /\
  (halted (init cwd exec root opts w) = None <->
   l = init_calls cwd root opts (disk w) /\
   (is_some_node (lookup_path (join cwd [root]) (Some (disk w))) = true ->
    is_some_node (stat (join cwd [root]) (disk w)) = true /\
    force opts = true)).
Proof.
  intros Hl.
  destruct (init_calls_prefix cwd exec root opts w l Hl) as [Hpre Hall].
  split; [done | ].
  destruct (init_root_cases cwd exec root opts w)
    as [(Ht & Hs & [c Hc] & Hrun) | [Hs Hrun]].
  { rewrite Hrun, Hs, Hc. cbn [halted is_some_node]. split; [ done | ].
    intros [_ H]. by destruct (H eq_refl). }
  split.
  { intros Hh. split; [ by apply Hall | ].
    intros He. rewrite Hs. split; [ done | ].
    rewrite Hrun, He in Hh. by destruct (force opts). }
  intros [-> Hforce].
  destruct (halted (init cwd exec root opts w)) as [h|] eqn:Hh; [ | done ].
  exfalso. clear Hpre Hall. revert Hl Hh Hforce.
  rewrite Hrun, (init_calls_Plain cwd root opts (disk w) Hs), Hs.
  clear Hrun Hs.
  assert (HR : forallb plain (components (join cwd [root])) = true)
    by apply join_is_plain.
  revert HR. generalize (components (join cwd [root])). intros R HR.
  assert (Hfresh : forall w0,
            lookup_path R (Some (disk w0)) = None ->
            creatable R (Some (disk w0)) = true ->
            halted (scaffold exec R root opts w0) = Some h ->
            calls (world_of (scaffold exec R root opts w0))
            <> calls w0 ++ map EvMkdir (missing_dirs R (disk w0))
               ++ map (shift R) (init_script root opts)).
  { intros w0 Hnone Hc Hh Hl.
    destruct (scaffold_fresh exec R root opts w0 HR Hnone Hc)
      as (w1 & d' & Hmk & _ & Heq).
    rewrite Heq, halted_relabel in Hh.
    rewrite Heq, world_of_relabel in Hl. cbn [calls] in Hl.
    rewrite (makeFolders_calls _ _ _ Hmk), <- app_assoc in Hl.
    do 2 apply app_inv_head in Hl.
    destruct (scaffold_in_empty_dir_ends (fun _ _ => exec "git init" R)
                root opts) as [[Hnone' _] | [_ [Hg He]]]; [ congruence | ].
    pose proof (scaffold_spawn_error_calls (fun _ _ => exec "git init" R)
                  root opts Hg He) as Hlen.
    apply (f_equal length) in Hl. rewrite !length_map in Hl. lia. }
  destruct (lookup_path R (Some (disk w))) as [n|] eqn:Hlook;
    cbn [is_some_node].
  - intros Hl Hh Hforce. destruct (Hforce eq_refl) as [_ Hf].
    rewrite Hf in Hl, Hh.
    rewrite rm_run, Hlook in Hl, Hh.
    destruct (prune R (Some (disk w))) as [d1|] eqn:Hp;
      cbv beta iota zeta in Hl, Hh.
    + apply (Hfresh (World d1 (calls w ++ [EvRm R]))
               (prune_gone _ _ _ Hp) (prune_creatable _ _ _ Hp) Hh).
      cbn [disk calls]. rewrite (missing_dirs_pruned _ _ _ Hp), Hl.
      by rewrite <- app_assoc.
    + cbn [world_of calls] in Hl. apply app_inv_head in Hl. discriminate Hl.
  - intros Hl Hh _. destruct (creatable R (Some (disk w))) eqn:Hc.
    + by apply (Hfresh w).
    + destruct (not_creatable_File _ _ Hc) as (q & r & c & Hq & Hf).
      destruct r as [|s r].
      { rewrite app_nil_r in Hq. rewrite <- Hq in Hf. congruence. }
      rewrite Hq in Hl.
      rewrite (scaffold_Halt exec _ root opts w _ _
                 (makeFolders_below_File q s c w r Hf)) in Hl.
      cbn [world_of calls] in Hl. apply app_inv_head in Hl.
      destruct (missing_dirs_below_File q s r (disk w) c Hf) as [rest Hm].
      rewrite Hm in Hl. apply (f_equal length) in Hl.
      rewrite length_app, !length_map in Hl. cbn [length] in Hl.
      pose proof (init_script_length root opts). lia.
Qed.

Lemma init_follows_the_script_witness :
  let r := init ["home"] git_init "game/save.dat/" default_options
             taken_world in
  calls (world_of r) = calls taken_world ++ calls (world_of r) /\
  (calls (world_of r)
   `prefix_of` init_calls ["home"] "game/save.dat/" default_options
                 (disk taken_world) /\
   (halted r = None <->
    calls (world_of r) = init_calls ["home"] "game/save.dat/" default_options
                           (disk taken_world) /\
    (is_some_node (lookup_path (join ["home"] ["game/save.dat/"])
                     (Some (disk taken_world))) = true ->
     is_some_node (stat (join ["home"] ["game/save.dat/"])
                     (disk taken_world)) = true /\
     force default_options = true))).
Proof.
  assert (H : calls (world_of (init ["home"] git_init "game/save.dat/"
                                 default_options taken_world))
              = calls taken_world
                ++ calls (world_of (init ["home"] git_init "game/save.dat/"
                                      default_options taken_world)))
    by reflexivity.
  split; [ exact H | ].
  exact (init_follows_the_script ["home"] git_init "game/save.dat/"
           default_options taken_world
           (calls (world_of (init ["home"] git_init "game/save.dat/"
                               default_options taken_world))) H).
Defined.

(** X17. In every run of [init] no path is written twice, and every
    [writeFile] is that of a file of the two tables, below the
    project root, with its text; a run that returns has written
    each file of the two tables, so each exactly once. *)
Theorem init_writes_each_file_once (cwd : path)
    (exec : string -> path -> completion) root opts w l :
  calls (world_of (init cwd exec root opts w)) = calls w ++ l ->
  NoDup (written l) /\
  (forall p c, In (EvWriteFile p c) l ->
     exists rel, p = join cwd [root] ++ rel /\
       In (rel, c) (auxiliary_files root (nogit opts)
                    ++ template_files (template opts))) /\
  (halted (init cwd exec root opts w) = None ->
   forall rel c,
     In (rel, c) (auxiliary_files root (nogit opts)
                  ++ template_files (template opts)) ->
     In (EvWriteFile (join cwd [root] ++ rel) c) l).
Proof.
  intros Hl.
  destruct (init_calls_prefix cwd exec root opts w l Hl) as [[k Hk] Hall].
  assert (Hend : halted (init cwd exec root opts w) = None ->
                 forall e,
                   In e (map (shift (join cwd [root])) (init_script root opts)) ->
                   In e l).
  { intros Hh e He. rewrite (Hall Hh). revert Hh.
    destruct (init_root_cases cwd exec root opts w)
      as [(_ & _ & _ & ->) | [Hs ->]]; [ done | ].
    rewrite (init_calls_Plain cwd root opts (disk w) Hs).
    destruct (is_some_node (lookup_path (join cwd [root]) (Some (disk w)))).
    - destruct (force opts); [ | done ]. intros _. by do 2 right.
    - intros _. apply in_or_app. by right. }
  revert Hk Hall Hend. unfold init_calls.
  generalize (is_some_node (stat (join cwd [root]) (disk w))).
  generalize (components (join cwd [root])). intros R found.
  set (script := if found then
                   if force opts
                   then EvRm R :: EvMkdir R
                          :: map (shift R) (init_script root opts)
                   else []
                 else if is_some_node (lookup_path R (Some (disk w)))
                      then [EvMkdir R]
                      else map EvMkdir (missing_dirs R (disk w))
                           ++ map (shift R) (init_script root opts)).
  intros Hk Hall Hend.
  assert (Hw : written script
               `prefix_of` map (app R) (written (init_script root opts))
               \/ written script = []).
  { unfold script. destruct found.
    - destruct (force opts); [ left | by right ].
      change (EvRm R :: EvMkdir R :: map (shift R) (init_script root opts))
        with ([EvRm R; EvMkdir R] ++ map (shift R) (init_script root opts)).
      rewrite written_app, written_shift. done.
    - destruct (is_some_node (lookup_path R (Some (disk w))));
        [ by right | left ].
      by rewrite written_app, written_mkdirs, written_shift. }
  assert (Hin : forall p c,
             In (EvWriteFile p c) script ->
             exists rel, p = R ++ rel /\
               In (EvWriteFile rel c) (init_script root opts)).
  { unfold script. intros p c.
    assert (Hs : In (EvWriteFile p c) (map (shift R) (init_script root opts)) ->
                 exists rel, p = R ++ rel /\
                   In (EvWriteFile rel c) (init_script root opts)).
    { rewrite in_map_iff. intros (e & He & Hin).
      destruct e; cbn [shift] in He; try discriminate.
      injection He as <- <-. eauto. }
    destruct found.
    - destruct (force opts); [ | done ].
      cbn [In]. intros [H|[H|H]]; [done | done | by apply Hs].
    - destruct (is_some_node (lookup_path R (Some (disk w)))).
      + cbn [In]. by intros [H|H].
      + rewrite in_app_iff, in_map_iff.
        intros [(q & Hq & _)|H]; [done | by apply Hs]. }
  split; [ | split ].
  - assert (Hnd : NoDup (written script)).
    { destruct Hw as [[k' Hk']| ->]; [ | constructor ].
      eapply (NoDup_app (written script) k').
      rewrite <- Hk'. apply NoDup_fmap_2; [ | apply init_script_written_once ].
      intros a b Hab. by apply app_inv_head in Hab. }
    rewrite Hk, written_app in Hnd. by apply NoDup_app in Hnd as [Hnd _].
  - intros p c Hpc.
    destruct (Hin p c) as (rel & -> & Hrel).
    { rewrite Hk. apply in_or_app. by left. }
    exists rel. split; [done | by apply init_script_writes].
  - intros Hh rel c Hrel. apply init_script_writes in Hrel.
    apply (Hend Hh). by apply In_shift_write.
Qed.

Lemma init_writes_each_file_once_witness :
  let r := init ["home"] git_init "game" default_options home_world in
  let opts := default_options in
  calls (world_of r) = calls home_world ++ calls (world_of r) /\
  (NoDup (written (calls (world_of r))) /\
   (forall p c, In (EvWriteFile p c) (calls (world_of r)) ->
      exists rel, p = join ["home"] ["game"] ++ rel /\
        In (rel, c) (auxiliary_files "game" (nogit opts)
                     ++ template_files (template opts))) /\
   (halted r = None ->
    forall rel c,
      In (rel, c) (auxiliary_files "game" (nogit opts)
                   ++ template_files (template opts)) ->
      In (EvWriteFile (join ["home"] ["game"] ++ rel) c) (calls (world_of r)))).
Proof.
  assert (H : calls (world_of (init ["home"] git_init "game"
                                 default_options home_world))
              = calls home_world
                ++ calls (world_of (init ["home"] git_init "game"
                                      default_options home_world)))
    by reflexivity.
  split; [ exact H | ].
  exact (init_writes_each_file_once ["home"] git_init "game"
           default_options home_world
           (calls (world_of (init ["home"] git_init "game" default_options
                               home_world))) H).
Defined.

Section InitFlags.

(** The script removes nothing, and the one command it runs is
    [git init], unless [nogit]. *)
Lemma init_script_effects root opts e :
  In e (init_script root opts) ->
  match e with
  | EvRm _ => False
  | EvExec command dir =>
      nogit opts = false /\ command = "git init" /\ dir = []
  | _ => True
  end.
Proof.
  destruct opts as [f t g]. unfold init_script.
  destruct t, g; cbn [template nogit template_script app In];
    intros H;
    repeat (destruct H as [H|H]; [ by subst e | ]);
    destruct H.
Qed.

Lemma gitignore_in_table root opts c :
  In ([".gitignore"], c)
     (auxiliary_files root (nogit opts) ++ template_files (template opts)) ->
  nogit opts = false.
Proof.
  destruct opts as [f t g]. unfold auxiliary_files.
  destruct t, g; cbn [template nogit];
    rewrite ?template_files_empty, ?template_files_basic; cbn [app In];
    intros H; try reflexivity;
    repeat (destruct H as [H|H]; [ discriminate H | ]);
    destruct H.
Qed.

Lemma In_shift R e l :
  In e (map (shift R) l) -> exists e0, e = shift R e0 /\ In e0 l.
Proof. rewrite in_map_iff. intros (e0 & <- & Hin). eauto. Qed.

Lemma init_calls_effects (cwd : path) root opts d e :
  In e (init_calls cwd root opts d) ->
  match e with
  | EvRm p =>
      p = components (join cwd [root]) /\ force opts = true /\
      is_some_node (stat (join cwd [root]) d) = true /\
      is_some_node (lookup_path (join cwd [root]) (Some d)) = true
  | EvExec command dir =>
      nogit opts = false /\ command = "git init" /\
      dir = components (join cwd [root])
  | _ => True
  end.
Proof.
  unfold init_calls.
  assert (Hfound : is_some_node (stat (join cwd [root]) d) = true ->
                   is_some_node (lookup_path (join cwd [root]) (Some d)) = true).
  { intros H. destruct (stat (join cwd [root]) d) as [n|] eqn:Hn; [ | done ].
    by rewrite (stat_found _ _ _ Hn). }
  revert Hfound.
  remember (is_some_node (stat (join cwd [root]) d)) as found eqn:Hfd.
  clear Hfd. generalize (components (join cwd [root])). intros R Hfound.
  assert (Hs : In e (map (shift R) (init_script root opts)) ->
               match e with
               | EvRm _ => False
               | EvExec command dir =>
                   nogit opts = false /\ command = "git init" /\ dir = R
               | _ => True
               end).
  { intros (e0 & -> & Hin)%In_shift.
    apply init_script_effects in Hin. destruct e0; cbn [shift]; try done.
    destruct Hin as (Hg & -> & ->). by rewrite app_nil_r. }
  destruct found.
  - destruct (force opts); [ | done ].
    cbn [In]. intros [<-|[<-|H]]; [by auto | done | ].
    apply Hs in H. by destruct e.
  - destruct (is_some_node (lookup_path R (Some d))).
    { cbn [In]. by intros [<-|H]. }
    rewrite in_app_iff, in_map_iff.
    intros [(q & <- & _)|H]; [done | ].
    apply Hs in H. by destruct e.
Qed.

End InitFlags.

(** X18. The two flags guard the side effects of [init] in every
    run, however it ends.  Something is removed only with [force]:
    the one [rm] is then the first call of the run and its target
    is the project root, which existed.  A command is run only
    without [nogit], and it is [git init] in the project root; and
    the ignore file is written only without [nogit]. *)
Theorem init_flags_guard_the_side_effects (cwd : path)
    (exec : string -> path -> completion) root opts w l :
  calls (world_of (init cwd exec root opts w)) = calls w ++ l ->
  (forall pre p post,
      l = pre ++ EvRm p :: post ->
      pre = [] /\ p = join cwd [root] /\ force opts = true /\
      is_some_node (lookup_path (join cwd [root]) (Some (disk w))) = true) /\
  (forall command dir,
      In (EvExec command dir) l ->
      nogit opts = false /\ command = "git init" /\ dir = join cwd [root]) /\
  (forall c,
      In (EvWriteFile (join cwd [root] ++ [".gitignore"]) c) l ->
      nogit opts = false).
Proof.
  intros Hl. set (R := components (join cwd [root])).
  destruct (init_calls_prefix cwd exec root opts w l Hl) as [[k Hk] _].
  assert (Hin : forall e, In e l -> In e (init_calls cwd root opts (disk w))).
  { intros e He. rewrite Hk. apply in_or_app. by left. }
  split; [ | split ].
  - intros pre p post ->.
    assert (Hp : In (EvRm p) (init_calls cwd root opts (disk w))).
    { apply Hin, in_or_app. right. by left. }
    pose proof (init_calls_effects _ _ _ _ _ Hp) as (-> & Hf & Hs & He).
    split; [ | done ].
    unfold init_calls in Hk. rewrite Hs, Hf in Hk. fold R in Hk.
    destruct pre as [|e pre]; [done | exfalso].
    remember (EvMkdir R :: map (shift R) (init_script root opts)) as rest
      eqn:Hrest.
    rewrite <- !app_assoc in Hk. cbn [app] in Hk. injection Hk as _ Hk.
    assert (Hr : In (EvRm R) rest).
    { rewrite Hk. apply in_or_app. right. by left. }
    subst rest. destruct Hr as [H|H]; [done | ].
    apply In_shift in H as (e0 & He0 & Hin0).
    apply init_script_effects in Hin0. by destruct e0.
  - intros command dir He. apply Hin in He.
    by apply init_calls_effects in He.
  - intros c He. eapply gitignore_in_table.
    by eapply (written_in_table cwd exec root opts w l [".gitignore"] c).
Qed.

Lemma init_flags_guard_the_side_effects_witness :
  let opts := Options true tpl_empty false in
  let r := init ["home"] git_init "game" opts taken_world in
  calls (world_of r) = calls taken_world ++ calls (world_of r) /\
  ((forall pre p post,
       calls (world_of r) = pre ++ EvRm p :: post ->
       pre = [] /\ p = join ["home"] ["game"] /\ force opts = true /\
       is_some_node (lookup_path (join ["home"] ["game"])
                       (Some (disk taken_world))) = true) /\
   (forall command dir,
       In (EvExec command dir) (calls (world_of r)) ->
       nogit opts = false /\ command = "git init" /\
       dir = join ["home"] ["game"]) /\
   (forall c,
       In (EvWriteFile (join ["home"] ["game"] ++ [".gitignore"]) c)
          (calls (world_of r)) ->
       nogit opts = false)).
Proof.
  assert (H : calls (world_of (init ["home"] git_init "game"
                                 (Options true tpl_empty false) taken_world))
              = calls taken_world
                ++ calls (world_of (init ["home"] git_init "game"
                                      (Options true tpl_empty false)
                                      taken_world)))
    by reflexivity.
  split; [ exact H | ].
  exact (init_flags_guard_the_side_effects ["home"] git_init "game"
           (Options true tpl_empty false) taken_world
           (calls (world_of (init ["home"] git_init "game"
                               (Options true tpl_empty false) taken_world))) H).
Defined.

(* ================================================================= *)
(** ** [add] in a project made by [init] *)

Section InitThenAdd.

Lemma holds_files_only_spec p n :
  holds_files_only p n = true ->
  is_dir (lookup_path p (Some n)) = true /\
  forall s, is_dir (lookup_path (p ++ [s]) (Some n)) = false.
Proof.
  unfold holds_files_only.
  destruct (lookup_path p (Some n)) as [[c|es]|] eqn:Hp; try done.
  intros Hall. split; [done | ]. intros s.
  rewrite lookup_path_app, Hp. cbn [lookup_path].
  destruct (es !! s) as [[c|es']|] eqn:Hs; try done.
  rewrite forallb_forall in Hall.
  assert (Hin : In (s, Dir es') (map_to_list es)).
  { apply list_elem_of_In. by apply elem_of_map_to_list. }
  by apply Hall in Hin.
Qed.

(** The three directories of [add] in the tree that [scaffold]
    leaves. *)
Lemma scaffold_in_empty_dir_kinds (exec' : string -> path -> completion) root
    opts sub :
  (nogit opts = false ->
   exists code repository, exec' "git init" [] = ChildExit code repository) ->
  In sub ["scenes"; "objects"; "components"] ->
  holds_files_only ["src"; sub]
    (disk (world_of (scaffold exec' [] root opts (World (Dir ∅) [])))) = true.
Proof.
  intros Hexec Hsub. destruct opts as [f t g].
  assert (Hc : g = false -> exists code repository,
                 exec' "git init" [] = ChildExit code repository)
    by exact Hexec.
  clear Hexec.
  unfold scaffold, write_sources, init_git, write_configs, runCommand.
  cbn [components Plain].
  destruct t, g;
    try (destruct (Hc eq_refl) as (code & [tree|] & ->)); clear Hc;
    cbn [template nogit templates for_each fst snd negb];
    generalize empty_main_ts basic_message_ts basic_main_ts basic_other_ts
      index_ts_text constants_ts_text index_html_text vite_config_text
      gitignore_text (JSON_stringify manifest_json 4)
      (JSON_stringify prettierrc_json 4) (JSON_stringify tsconfig_json 4)
      (JSON_stringify (package_json root) 4);
    intros t1 t2 t3 t4 t5 t6 t7 t8 t9 t10 t11 t12 t13;
    cbn [In] in Hsub;
    repeat (destruct Hsub as [Hsub|Hsub];
            [ rewrite <- Hsub; vm_compute; reflexivity | ]);
    destruct Hsub.
Qed.

End InitThenAdd.

(** X19. [add] works in every project that [init] has made.  After a
    run of [init] that returns, with any template and options, [add]
    run in the project root returns for each of the three kinds and
    every name without a slash (for a component: not empty and of
    ASCII characters): it issues one call, the [writeFile] of the
    stub, no directory being missing, and the stub is then in the
    directory of the kind. *)
Theorem add_works_after_init (cwd : path)
    (exec : string -> path -> completion) root opts w w' type sub name :
  init cwd exec root opts w = Ret tt w' ->
  In (type, sub) kinds ->
  has_slash name = false ->
  (type = "component" -> name <> EmptyString /\ ascii_only name = true) ->
  exists w'',
    add (join cwd [root]) type name w' = Ret tt w'' /\
    calls w'' = calls w'
                ++ [EvWriteFile (join cwd [root] ++ ["src"; sub; name +:+ ".ts"])
                      (stub_text type name)] /\
    lookup_path (join cwd [root] ++ ["src"; sub; name +:+ ".ts"])
      (Some (disk w''))
    = Some (File (stub_text type name)).
Proof.
  intros Hrun Hin Hslash Hname'.
  set (R := components (join cwd [root])) in *.
  assert (Hname : type = "component" -> name <> EmptyString)
    by (intros Ht; by destruct (Hname' Ht)).
  assert (HR : forallb plain R = true) by apply join_is_plain.
  (* the tree below the root *)
  destruct (init_cases cwd exec root opts w R eq_refl)
    as [(h & l & Hh & _) | (w0 & _ & Hfresh & Hc & Hinit & _)];
    [ congruence | ].
  rewrite Hinit in Hrun.
  destruct (scaffold_fresh exec R root opts w0 HR Hfresh Hc)
    as (w1 & d' & _ & Hg & Hsc).
  rewrite Hsc in Hrun.
  destruct (scaffold_in_empty_dir_ends (fun _ _ => exec "git init" R) root opts)
    as [[Hnone Hexec] | [Hhalt _]].
  2:{ destruct (scaffold _ [] root opts (World (Dir ∅) [])); done. }
  assert (Hkinds : forall s, In s ["scenes"; "objects"; "components"] ->
            is_dir (lookup_path (R ++ ["src"; s]) (Some (disk w'))) = true /\
            forall f, is_dir (lookup_path (R ++ ["src"; s; f]) (Some (disk w')))
                      = false).
  { intros s Hs.
    pose proof (scaffold_in_empty_dir_kinds (fun _ _ => exec "git init" R)
                  root opts s Hexec Hs) as Hk.
    apply holds_files_only_spec in Hk as [Hd Hf].
    destruct (scaffold _ [] root opts (World (Dir ∅) [])) as [[] wl|h wl];
      [ | done ].
    cbn [relabel world_of] in *. injection Hrun as <-. cbn [disk].
    split.
    - by rewrite (lookup_graft_below _ _ _ _ _ Hg).
    - intros f. rewrite (lookup_graft_below _ _ _ _ _ Hg). apply (Hf f). }
  clear Hrun Hsc Hg Hinit.
  (* the run of add *)
  assert (Hsub : In sub ["scenes"; "objects"; "components"]).
  { cbn [kinds In] in Hin |- *.
    destruct Hin as [[= _ <-]|[[= _ <-]|[[= _ <-]|[]]]]; tauto. }
  assert (Hj1 : components (join R ["src"; "scenes"]) = R ++ ["src"; "scenes"])
    by (by apply (join_plain R ["src"; "scenes"])).
  assert (Hj2 : components (join R ["src"; sub; name +:+ ".ts"])
                = (R ++ ["src"; sub]) ++ [name +:+ ".ts"]).
  { transitivity (components (join R ["src"; sub]) ++ [name +:+ ".ts"]).
    - apply (join_snoc R ["src"; sub]);
        [ by rewrite has_slash_append, Hslash | apply plain_ts ].
    - f_equal. cbn [In] in Hsub.
      destruct Hsub as [<-|[<-|[<-|[]]]];
        [ by apply (join_plain R ["src"; "scenes"])
        | by apply (join_plain R ["src"; "objects"])
        | by apply (join_plain R ["src"; "components"]) ]. }
  destruct (Hkinds "scenes") as [Hscenes _]; [ cbn [In]; tauto | ].
  destruct (Hkinds sub Hsub) as [Hdir Hfile].
  assert (He : is_some_node (lookup_path (join R ["src"; "scenes"])
                               (Some (disk w'))) = true).
  { rewrite Hj1.
    by destruct (lookup_path (R ++ ["src"; "scenes"]) (Some (disk w')))
         as [[c|es]|]. }
  rewrite (add_in_project R type sub name w' Hin Hname He), Hj2.
  assert (Hp : (R ++ ["src"; sub]) ++ [name +:+ ".ts"] <> [])
    by (by destruct (R ++ ["src"; sub])).
  assert (Hcr : creatable (dirname ((R ++ ["src"; sub]) ++ [name +:+ ".ts"]))
                  (Some (disk w')) = true).
  { rewrite dirname_snoc.
    destruct (lookup_path (R ++ ["src"; sub]) (Some (disk w')))
      as [[c|es]|] eqn:Hd; try done.
    by eapply creatable_dir. }
  assert (Hnd : is_dir (lookup_path ((R ++ ["src"; sub]) ++ [name +:+ ".ts"])
                          (Some (disk w'))) = false).
  { rewrite <- app_assoc. apply Hfile. }
  destruct (makeFile_ok _ R (stub_text type name) w' Hp Hcr Hnd)
    as (w2 & d2 & Hup & _ & Hg2 & ->).
  rewrite dirname_snoc in Hup.
  rewrite makeFolders_present in Hup
    by (by destruct (lookup_path (R ++ ["src"; sub]) (Some (disk w')))
             as [[c|es]|]).
  injection Hup as <-.
  eexists. split; [done | ]. cbn [calls disk].
  rewrite <- app_assoc. cbn [app]. split; [done | ].
  rewrite <- app_assoc in Hg2. by eapply lookup_graft.
Qed.

Lemma add_works_after_init_witness :
  let r := init ["home"] git_init "game" default_options home_world in
  (r = Ret tt (world_of r) /\
   In ("component", "components") kinds /\
   has_slash "boss-fight" = false /\
   ("component" = "component" ->
    "boss-fight" <> EmptyString /\ ascii_only "boss-fight" = true)) /\
  exists w'',
    add (join ["home"] ["game"]) "component" "boss-fight" (world_of r)
    = Ret tt w'' /\
    calls w'' = calls (world_of r)
                ++ [EvWriteFile (join ["home"] ["game"]
                                 ++ ["src"; "components"; "boss-fight" +:+ ".ts"])
                      (stub_text "component" "boss-fight")] /\
    lookup_path (join ["home"] ["game"]
                 ++ ["src"; "components"; "boss-fight" +:+ ".ts"])
      (Some (disk w''))
    = Some (File (stub_text "component" "boss-fight")).
Proof.
  assert (H1 : init ["home"] git_init "game" default_options home_world
               = Ret tt (world_of (init ["home"] git_init "game"
                                     default_options home_world)))
    by (by vm_compute).
  assert (H2 : In ("component", "components") kinds)
    by (right; right; left; reflexivity).
  assert (H3 : has_slash "boss-fight" = false) by reflexivity.
  assert (H4 : "component" = "component" ->
               "boss-fight" <> EmptyString /\ ascii_only "boss-fight" = true)
    by (intros _; split; [ discriminate | reflexivity ]).
  split; [ exact (conj H1 (conj H2 (conj H3 H4))) | ].
  exact (add_works_after_init ["home"] git_init "game" default_options
           home_world
           (world_of (init ["home"] git_init "game" default_options
                        home_world))
           "component" "components" "boss-fight" H1 H2 H3 H4).
Defined.

(* ================================================================= *)
(** ** [init] run again on its own result *)

Section InitAgain.

(** Putting something where an entry was pruned gives what putting
    it over the entry gives. *)
Lemma graft_prune R : forall on x d1,
  prune R on = Some d1 -> graft R x (Some d1) = graft R x on.
Proof.
  induction R as [|s R IH]; intros on x d1 Hp; simpl in *; [done | ].
  destruct on as [[c|es]|]; try discriminate.
  destruct R as [|s' R'].
  - injection Hp as <-. simpl. by rewrite insert_delete_eq.
  - destruct (prune (s' :: R') (es !! s)) as [c'|] eqn:Hc; [ | discriminate ].
    injection Hp as <-. rewrite lookup_insert_eq.
    rewrite (IH _ x _ Hc).
    destruct (graft (s' :: R') x (es !! s)); [ | done ].
    by rewrite insert_insert_eq.
Qed.

(** The options of [scaffold] are the template and [nogit]. *)
Lemma scaffold_force (exec : string -> path -> completion) (R : path) root
    opts f :
  scaffold exec R root (Options f (template opts) (nogit opts))
  = scaffold exec R root opts.
Proof. by destruct opts. Qed.

(** After [rm], [makeFolders] makes the one directory that was
    removed. *)
Lemma makeFolders_after_prune (R : path) on d1 w0 w3 :
  prune R on = Some d1 -> disk w0 = d1 ->
  makeFolders R w0 = Ret tt w3 ->
  graft R (Dir ∅) (Some d1) = Some (disk w3).
Proof.
  intros Hd1 Hw0 Hmk. subst d1.
  rewrite makeFolders_step in Hmk.
  destruct R as [|s q _] using rev_ind; [done | ].
  rewrite dirname_snoc in Hmk.
  rewrite (prune_above q s [] _ _ Hd1) in Hmk.
  rewrite (prune_gone _ _ _ Hd1) in Hmk. cbn [is_some_node] in Hmk.
  by apply mkdir_inv in Hmk as (_ & Hgr & _).
Qed.

End InitAgain.

(** X20. [init] run again on the project it has made.  Without
    [force] the second run exits with status 1 and touches nothing.
    With [force] it returns, and the disk is then the very disk the
    first run left: the project is removed and made again the same,
    and nothing else changes. *)
Theorem init_again (cwd : path) (exec : string -> path -> completion) root
    opts w w' :
  init cwd exec root opts w = Ret tt w' ->
  init cwd exec root (Options false (template opts) (nogit opts)) w'
  = Halt (Exit 1 AlreadyExists) w' /\
  exists w'',
    init cwd exec root (Options true (template opts) (nogit opts)) w'
    = Ret tt w'' /\
    disk w'' = disk w'.
Proof.
  intros Hrun. set (R := components (join cwd [root])) in *.
  assert (HR : forallb plain R = true) by apply join_is_plain.
  (* the first run *)
  destruct (init_cases cwd exec root opts w R eq_refl)
    as [(h & l & Hh & _) | (w0 & HR0 & Hfresh & Hc & Hinit & _)];
    [ congruence | ].
  rewrite Hinit in Hrun.
  destruct (scaffold_fresh exec R root opts w0 HR Hfresh Hc)
    as (w1 & d' & _ & Hg & Hsc).
  rewrite Hsc in Hrun.
  destruct (scaffold_in_empty_dir_ends (fun _ _ => exec "git init" R) root opts)
    as [[_ Hexec] | [Hhalt _]].
  2:{ destruct (scaffold _ [] root opts (World (Dir ∅) [])); done. }
  destruct (scaffold_in_empty_dir (fun _ _ => exec "git init" R) root opts Hexec)
    as (_ & _ & Hdirs).
  set (ml := scaffold (fun _ _ => exec "git init" R) [] root opts
               (World (Dir ∅) [])) in *.
  assert (Hml : exists wl, ml = Ret tt wl).
  { destruct ml as [[] wl|h wl]; [ by exists wl | done ]. }
  destruct Hml as [wl Hml]. rewrite Hml in Hrun, Hg, Hdirs.
  cbn [relabel world_of] in Hrun, Hg, Hdirs. injection Hrun as <-. cbn [disk].
  pose proof (lookup_graft _ _ _ _ Hg) as Hroot.
  assert (Hproject : exists es, disk wl = Dir es).
  { assert (Ha : is_dir (lookup_path ([] ++ "assets" :: []) (Some (disk wl)))
                 = true).
    { apply Hdirs. destruct (template opts); cbn; tauto. }
    destruct (lookup_path ([] ++ "assets" :: []) (Some (disk wl)))
      as [n|] eqn:Hn; [ | done ].
    destruct (lookup_path_above [] "assets" [] _ _ Hn) as [es Hes].
    exists es. by injection Hes. }
  destruct Hproject as [es Hes]. clear Hdirs Hexec.
  remember (World d' (calls w1 ++ map (shift R) (calls wl))) as w' eqn:Hw'.
  assert (Hdisk : disk w' = d') by (by subst w').
  clear Hw'.
  assert (He : is_some_node (lookup_path R (Some (disk w'))) = true)
    by (by rewrite Hdisk, Hroot).
  assert (Hs : stat (join cwd [root]) (disk w')
               = lookup_path (join cwd [root]) (Some (disk w'))).
  { apply stat_dir. fold R. by rewrite Hdisk, Hroot, Hes. }
  pose proof (fun o => init_Plain cwd exec root o w' Hs) as Hi.
  cbv zeta in Hi. fold R in Hi.
  split.
  - by rewrite Hi, He.
  - rewrite Hi, He. cbn [force].
    destruct (prune_over R _ _ HR0 Hroot) as [d1 Hd1].
    rewrite rm_run, Hdisk, Hroot, Hd1. cbv beta iota zeta.
    set (w2 := World d1 (calls w' ++ [EvRm R])).
    destruct (scaffold_fresh exec R root
                (Options true (template opts) (nogit opts)) w2 HR
                (prune_gone _ _ _ Hd1) (prune_creatable _ _ _ Hd1))
      as (w3 & d'' & Hmk & Hg2 & ->).
    rewrite scaffold_force in Hg2 |- *. fold ml in Hg2 |- *.
    rewrite Hml in Hg2 |- *. cbn [relabel world_of] in Hg2 |- *.
    eexists. split; [done | ]. cbn [disk].
    (* the disk after the second run *)
    assert (Hmkdir : graft R (Dir ∅) (Some d1) = Some (disk w3))
      by (by eapply (makeFolders_after_prune R _ d1 w2 w3)).
    rewrite (graft_graft R _ _ _ _ Hmkdir) in Hg2.
    rewrite (graft_prune R _ _ _ Hd1) in Hg2.
    rewrite (graft_same R _ _ Hroot) in Hg2.
    by injection Hg2.
Qed.

Lemma init_again_witness :
  let r := init ["home"] git_init "game" default_options home_world in
  r = Ret tt (world_of r) /\
  (init ["home"] git_init "game"
     (Options false (template default_options) (nogit default_options))
     (world_of r)
   = Halt (Exit 1 AlreadyExists) (world_of r) /\
   exists w'',
     init ["home"] git_init "game"
       (Options true (template default_options) (nogit default_options))
       (world_of r)
     = Ret tt w'' /\
     disk w'' = disk (world_of r)).
Proof.
  assert (H : init ["home"] git_init "game" default_options home_world
              = Ret tt (world_of (init ["home"] git_init "game"
                                    default_options home_world)))
    by (by vm_compute).
  split; [ exact H | ].
  exact (init_again ["home"] git_init "game" default_options home_world
           (world_of (init ["home"] git_init "game" default_options
                        home_world)) H).
Defined.

(* ================================================================= *)
(** ** The closing lines of [init] *)

Section HintFacts.

Lemma split_space_nonempty s : split_space s <> [].
Proof.
  destruct s as [|c r]; [done | ]. cbn [split_space].
  destruct (Ascii.eqb c " "); [done | ]. by destruct (split_space r).
Qed.

(** Joining the pieces with the separator gives the text back. *)
Lemma join_split_space s : join_with " " (split_space s) = s.
Proof.
  induction s as [|c r IH]; [done | ]. cbn [split_space].
  destruct (Ascii.eqb c " ") eqn:Hc.
  - apply Ascii.eqb_eq in Hc. subst c.
    pose proof (split_space_nonempty r) as Hne.
    destruct (split_space r) as [|w ws]; [done | ].
    change (join_with " " (EmptyString :: w :: ws))
      with (EmptyString +:+ " " +:+ join_with " " (w :: ws)).
    by rewrite IH, append_nil_l, append_cons, append_nil_l.
  - pose proof (split_space_nonempty r) as Hne.
    destruct (split_space r) as [|w ws]; [done | ].
    rewrite <- IH. destruct ws as [|w' ws]; [done | ].
    change (join_with " " (String c w :: w' :: ws))
      with (String c w +:+ " " +:+ join_with " " (w' :: ws)).
    change (join_with " " (w :: w' :: ws))
      with (w +:+ " " +:+ join_with " " (w' :: ws)).
    by rewrite append_cons.
Qed.

Lemma split_space_no_space s : has_space s = false -> split_space s = [s].
Proof.
  induction s as [|c r IH]; [done | ]. cbn [has_space split_space].
  intros [Hc Hr]%orb_false_iff. rewrite Hc, (IH Hr). done.
Qed.

End HintFacts.

(** X21. The closing lines of [init].  A command is split at its
    spaces to colour its first word, and the words are joined
    again: the line printed is the command as it is, the first word
    in colour, even with runs of spaces.  So for every root,
    one that holds spaces included, the first line is the word cd
    in colour followed by the root unchanged; a command of one word
    would be followed by a space. *)
Theorem hint_lines_print_the_commands green root :
  hint_lines green root
  = [ "    " +:+ green "cd" +:+ " " +:+ root;
      "    " +:+ green "npm" +:+ " " +:+ "i";
      "    " +:+ green "npm" +:+ " " +:+ "run dev" ] /\
  (forall word rest,
      has_space word = false ->
      hint_line green (word +:+ " " +:+ rest)
      = "    " +:+ green word +:+ " " +:+ rest) /\
  (forall word,
      has_space word = false ->
      hint_line green word = "    " +:+ green word +:+ " ").
Proof.
  assert (Hline : forall word rest,
             has_space word = false ->
             hint_line green (word +:+ " " +:+ rest)
             = "    " +:+ green word +:+ " " +:+ rest).
  { intros word rest Hw. unfold hint_line.
    assert (Hs : split_space (word +:+ " " +:+ rest)
                 = word :: split_space rest).
    { induction word as [|c r IH].
      - by rewrite append_nil_l, append_cons, append_nil_l.
      - cbn [has_space] in Hw. apply orb_false_iff in Hw as [Hc Hr].
        rewrite append_cons. cbn [split_space]. by rewrite Hc, (IH Hr). }
    by rewrite Hs, join_split_space. }
  split; [ | split; [ exact Hline | ] ].
  - unfold hint_lines, recommendedCommands. cbn [map].
    change ("cd " +:+ root) with ("cd" +:+ " " +:+ root).
    change "npm i" with ("npm" +:+ " " +:+ "i").
    change "npm run dev" with ("npm" +:+ " " +:+ "run dev").
    by rewrite !Hline.
  - intros word Hw. unfold hint_line.
    by rewrite (split_space_no_space _ Hw).
Qed.

(* ================================================================= *)
(** ** The text of package.json *)

Section PackageText.

Lemma append_assoc (a b c : string) : (a +:+ b) +:+ c = a +:+ (b +:+ c).
Proof.
  induction a as [|x a IH]; [ by rewrite !append_nil_l | ].
  by rewrite !append_cons, IH.
Qed.

Lemma json_ser_object gap ind key v fields :
  json_ser gap ind (JObj ((key, v) :: fields))
  = "{" +:+ nl +:+ (ind +:+ gap)
    +:+ join_with ("," +:+ nl +:+ (ind +:+ gap))
          (map (fun kv => json_quote (fst kv) +:+ ": "
                          +:+ json_ser gap (ind +:+ gap) (snd kv))
               ((key, v) :: fields))
    +:+ nl +:+ ind +:+ "}".
Proof. reflexivity. Qed.

Lemma package_name_quote root :
  json_quote (package_name root) = dq +:+ package_name root +:+ dq.
Proof.
  unfold json_quote. rewrite json_escape_plain; [done | ].
  apply (matches_over _ PACKAGE_NAME_REGEX); [ | apply package_regex_over ].
  unfold package_name.
  destruct (regex_test PACKAGE_NAME_REGEX root) eqn:Ht.
  - by apply regex_test_spec.
  - apply regex_test_spec. by vm_compute.
Qed.

(** An object whose first member is a name that needs no escape. *)
Lemma json_ser_named (n : string) (y : string * json)
    (l : list (string * json)) :
  json_quote n = dq +:+ n +:+ dq ->
  json_ser (spaces 4) EmptyString (JObj (("name", JStr n) :: y :: l))
  = ("{" +:+ nl +:+ "    " +:+ dq +:+ "name" +:+ dq +:+ ": " +:+ dq)
    +:+ n
    +:+ (dq +:+ "," +:+ nl
         +:+ ("    "
              +:+ join_with ("," +:+ nl +:+ "    ")
                    (map (fun kv => json_quote (fst kv) +:+ ": "
                                    +:+ json_ser (spaces 4) "    " (snd kv))
                         (y :: l))
              +:+ nl +:+ "}")).
Proof.
  intros Hq. rewrite json_ser_object. cbn [map fst snd].
  change (json_ser (spaces 4) (EmptyString +:+ spaces 4) (JStr n))
    with (json_quote n).
  rewrite Hq.
  lazymatch goal with
  | |- context [join_with ?sep (?x :: ?y :: ?l)] =>
      change (join_with sep (x :: y :: l))
        with (x +:+ sep +:+ join_with sep (y :: l))
  end.
  change (json_quote "name") with (dq +:+ "name" +:+ dq).
  change (EmptyString +:+ spaces 4) with "    ".
  rewrite !append_assoc. reflexivity.
Qed.

End PackageText.

(** X22. The text of package.json, for every root: an opening brace,
    then the line of the name, which is four spaces, the key in
    quotes, a colon and a space, and the package name in quotes as
    it is; what follows the name is the same text for every root.
    So two projects differ in package.json by the name only. *)
Theorem package_json_differs_by_the_name_only :
  exists rest,
    forall root,
      JSON_stringify (package_json root) 4
      = ("{" +:+ nl +:+ "    " +:+ dq +:+ "name" +:+ dq +:+ ": " +:+ dq)
        +:+ package_name root
        +:+ (dq +:+ "," +:+ nl +:+ rest).
Proof.
  unfold JSON_stringify, package_json. eexists. intros root.
  rewrite (json_ser_named _ _ _ (package_name_quote root)). reflexivity.
Qed.

(* ================================================================= *)
(** ** Where [init] can fail *)

(** X23. A run of [init] fails either before it has changed anything
    or at the git step, and nowhere between.  When it fails for
    another reason than a child that cannot be spawned, the disk is
    as it was, at most one call has been issued, and the reason is
    the root that exists (without [force]), a root that cannot be
    removed, a regular file at the root that [stat] does not find
    (the root being given with a trailing separator, [mkdir] fails
    with EEXIST), or a regular file on the way to the root; in the
    model of the file system no call fails for a missing permission
    or a full disk. *)
Theorem init_fails_at_once_or_at_the_git_step (cwd : path)
    (exec : string -> path -> completion) root opts w h w' :
  init cwd exec root opts w = Halt h w' ->
  h = Rejected SpawnError /\
  nogit opts = false /\ exec "git init" (join cwd [root]) = ChildError \/
  disk w' = disk w /\
  (exists l, calls w' = calls w ++ l /\ (length l <= 1)%nat) /\
  (h = Exit 1 AlreadyExists \/ h = Rejected (FsError EBUSY) \/
   h = Rejected (FsError EEXIST) \/ h = Rejected (FsError ENOTDIR)).
Proof.
  intros Hrun. set (R := components (join cwd [root])) in *.
  assert (HR : forallb plain R = true) by apply join_is_plain.
  destruct (init_cases cwd exec root opts w R eq_refl)
    as [(h0 & l & Hh & Hwhy) | (w0 & _ & Hnone & Hc & Hinit & _)].
  - rewrite Hh in Hrun. injection Hrun as <- <-. right. cbn [disk calls].
    split; [ done | ]. split.
    + exists l. split; [ done | ].
      destruct Hwhy as [[_ ->] | [[_ ->] | [[_ ->] | [_ [q ->]]]]];
        cbn [length]; lia.
    + destruct Hwhy as [[-> _] | [[-> _] | [[-> _] | [-> _]]]]; tauto.
  - left. rewrite Hinit in Hrun.
    destruct (scaffold_fresh exec R root opts w0 HR Hnone Hc)
      as (w1 & d' & _ & _ & Heq).
    rewrite Heq in Hrun.
    destruct (scaffold_in_empty_dir_ends (fun _ _ => exec "git init" R)
                root opts) as [[Hnone' _] | [Hhalt [Hg He]]].
    + destruct (scaffold _ [] root opts (World (Dir ∅) [])); done.
    + destruct (scaffold _ [] root opts (World (Dir ∅) [])) as [[] wl|h0 wl];
        [ done | ].
      cbn [relabel halted] in *. injection Hhalt as Hh0. subst h0.
      injection Hrun as Hh _. by subst h.
Qed.

Lemma init_fails_at_once_or_at_the_git_step_witness :
  let r := init ["home"] git_init "game/save.dat/" default_options
             taken_world in
  r = Halt (Rejected (FsError EEXIST)) (world_of r) /\
  (Rejected (FsError EEXIST) = Rejected SpawnError /\
   nogit default_options = false /\
   git_init "git init" (join ["home"] ["game/save.dat/"]) = ChildError \/
   disk (world_of r) = disk taken_world /\
   (exists l, calls (world_of r) = calls taken_world ++ l /\
              (length l <= 1)%nat) /\
   (Rejected (FsError EEXIST) = Exit 1 AlreadyExists \/
    Rejected (FsError EEXIST) = Rejected (FsError EBUSY) \/
    Rejected (FsError EEXIST) = Rejected (FsError EEXIST) \/
    Rejected (FsError EEXIST) = Rejected (FsError ENOTDIR))).
Proof.
  assert (H : init ["home"] git_init "game/save.dat/" default_options
                taken_world
              = Halt (Rejected (FsError EEXIST))
                  (world_of
                     (init ["home"] git_init "game/save.dat/" default_options
                        taken_world)))
    by (by vm_compute).
  split; [ exact H | ].
  exact (init_fails_at_once_or_at_the_git_step ["home"] git_init
           "game/save.dat/" default_options taken_world
           (Rejected (FsError EEXIST))
           (world_of
              (init ["home"] git_init "game/save.dat/" default_options
                 taken_world)) H).
Defined.
(* ================================================================= *)
(** ** The git step of [init] (claim C1) *)

Section GitStepOfInit.

(** The place of the only command in a log. *)
Lemma exec_position (R : path) (pre post l1 l2 : list event) cmd dir :
  pre ++ EvExec cmd dir :: post = l1 ++ EvExec "git init" R :: l2 ->
  Forall (before_git R) l1 -> Forall (after_git R) l2 ->
  pre = l1 /\ cmd = "git init" /\ dir = R /\ post = l2.
Proof.
  revert l1. induction pre as [|e pre IH]; intros [|e1 l1] Heq H1 H2.
  - by injection Heq as -> -> ->.
  - injection Heq as <- _. by inversion H1.
  - injection Heq as -> Heq. exfalso.
    assert (Hin : EvExec cmd dir ∈ l2).
    { rewrite <- Heq. apply list_elem_of_In, in_or_app. right. by left. }
    rewrite Forall_forall in H2. by apply H2 in Hin.
  - injection Heq as -> Heq. inversion H1; subst.
    destruct (IH l1 Heq) as (-> & -> & -> & ->); done.
Qed.

(** The first command of a log is where the log says. *)
Lemma first_exec (pre a x y : list event) c d c' d' :
  pre ++ EvExec c d :: x = a ++ EvExec c' d' :: y ->
  (forall c0 d0, ~ In (EvExec c0 d0) pre) ->
  (forall c0 d0, ~ In (EvExec c0 d0) a) ->
  pre = a.
Proof.
  revert a. induction pre as [|e pre IH]; intros [|e1 a] Heq Hp Ha.
  - done.
  - injection Heq as <- _. exfalso. apply (Ha c d). by left.
  - injection Heq as -> _. exfalso. apply (Hp c' d'). by left.
  - injection Heq as -> Heq. f_equal. apply (IH a Heq).
    + intros c0 d0 H. apply (Hp c0 d0). by right.
    + intros c0 d0 H. apply (Ha c0 d0). by right.
Qed.

(** With [nogit] off the files of [source_files] are files of the
    two tables. *)
Lemma source_files_in_tables root opts rel c :
  nogit opts = false ->
  In (rel, c) (source_files opts) ->
  In (rel, c) (auxiliary_files root (nogit opts)
               ++ template_files (template opts)).
Proof.
  destruct opts as [f t g]. cbn [nogit template]. intros ->.
  unfold source_files, auxiliary_files.
  destruct t; cbn [template];
    rewrite ?template_files_empty, ?template_files_basic; cbn [app];
    generalize empty_main_ts basic_message_ts basic_main_ts basic_other_ts
      index_ts_text constants_ts_text index_html_text vite_config_text
      gitignore_text (JSON_stringify manifest_json 4)
      (JSON_stringify prettierrc_json 4) (JSON_stringify tsconfig_json 4)
      (JSON_stringify (package_json root) 4);
    intros t1 t2 t3 t4 t5 t6 t7 t8 t9 t10 t11 t12 t13;
    intros H; cbn [In] in H;
    repeat (destruct H as [H|H];
            [ injection H as <- <-; solve [ in_list ] | ]);
    destruct H.
Qed.

(** With [nogit] off the script runs its command once, after the
    [writeFile] of every file of [source_files]. *)
Lemma init_script_git_step root opts :
  nogit opts = false ->
  exists s1 s2,
    init_script root opts = s1 ++ EvExec "git init" [] :: s2 /\
    (forall c0 d0, ~ In (EvExec c0 d0) s1) /\
    (forall rel c, In (rel, c) (source_files opts) ->
                   In (EvWriteFile rel c) s1).
Proof.
  destruct opts as [f t g]. cbn [nogit template]. intros ->.
  unfold init_script, source_files.
  destruct t; cbn [template nogit template_script];
    rewrite ?template_files_empty, ?template_files_basic; cbn [app];
    generalize empty_main_ts basic_message_ts basic_main_ts basic_other_ts
      index_ts_text constants_ts_text index_html_text vite_config_text
      gitignore_text (JSON_stringify manifest_json 4)
      (JSON_stringify prettierrc_json 4) (JSON_stringify tsconfig_json 4)
      (JSON_stringify (package_json root) 4);
    intros t1 t2 t3 t4 t5 t6 t7 t8 t9 t10 t11 t12 t13.
  - exists [ EvMkdir ["public"]; EvWriteFile ["public"; "manifest.json"] t10;
             EvMkdir ["assets"]; EvMkdir ["src"]; EvMkdir ["src"; "objects"];
             EvMkdir ["src"; "components"]; EvMkdir ["src"; "scenes"];
             EvWriteFile ["src"; "scenes"; "main.ts"] t1;
             EvWriteFile ["src"; "index.ts"] t5;
             EvWriteFile ["src"; "constants.ts"] t6;
             EvWriteFile ["index.html"] t7; EvWriteFile [".prettierrc"] t11;
             EvWriteFile [".gitignore"] t9 ].
    eexists. split; [ reflexivity | ]. split.
    + intros c0 d0 H. cbn [In] in H.
      repeat (destruct H as [H|H]; [ discriminate H | ]). exact H.
    + intros rel c H. cbn [In] in H.
      repeat (destruct H as [H|H];
              [ injection H as <- <-; solve [ in_list ] | ]).
      destruct H.
  - exists [ EvMkdir ["public"]; EvWriteFile ["public"; "manifest.json"] t10;
             EvMkdir ["assets"]; EvMkdir ["src"]; EvMkdir ["src"; "components"];
             EvMkdir ["src"; "objects"];
             EvWriteFile ["src"; "objects"; "message.ts"] t2;
             EvMkdir ["src"; "scenes"];
             EvWriteFile ["src"; "scenes"; "main.ts"] t3;
             EvWriteFile ["src"; "scenes"; "other.ts"] t4;
             EvWriteFile ["src"; "index.ts"] t5;
             EvWriteFile ["src"; "constants.ts"] t6;
             EvWriteFile ["index.html"] t7; EvWriteFile [".prettierrc"] t11;
             EvWriteFile [".gitignore"] t9 ].
    eexists. split; [ reflexivity | ]. split.
    + intros c0 d0 H. cbn [In] in H.
      repeat (destruct H as [H|H]; [ discriminate H | ]). exact H.
    + intros rel c H. cbn [In] in H.
      repeat (destruct H as [H|H];
              [ injection H as <- <-; solve [ in_list ] | ]).
      destruct H.
Qed.

(** In the calls of [init_calls] the command comes after the
    [writeFile] of every file of [source_files]. *)
Lemma init_calls_git_step (cwd : path) root opts d pre cmd dir rest :
  nogit opts = false ->
  init_calls cwd root opts d = pre ++ EvExec cmd dir :: rest ->
  (forall c0 d0, ~ In (EvExec c0 d0) pre) ->
  forall rel c,
    In (rel, c) (source_files opts) ->
    In (EvWriteFile (components (join cwd [root]) ++ rel) c) pre.
Proof.
  intros Hg Heq Hpre rel c Hin.
  destruct (init_script_git_step root opts Hg) as (s1 & s2 & Hs & Hno & Hall).
  revert Heq. unfold init_calls. rewrite Hs.
  generalize (is_some_node (stat (join cwd [root]) d)).
  generalize (components (join cwd [root])). intros R found.
  assert (Hshift : forall c0 d0, ~ In (EvExec c0 d0) (map (shift R) s1)).
  { intros c0 d0 (e & He & Hine)%in_map_iff.
    destruct e; cbn [shift] in He; try discriminate. by eapply Hno. }
  assert (Hwrite : In (EvWriteFile (R ++ rel) c) (map (shift R) s1)).
  { apply In_shift_write. by apply Hall. }
  rewrite map_app. cbn [map shift]. intros Heq.
  destruct found.
  - destruct (force opts); [ | by destruct pre ].
    change (EvRm R :: EvMkdir R
              :: map (shift R) s1
                 ++ EvExec "git init" (R ++ []) :: map (shift R) s2)
      with (([EvRm R; EvMkdir R] ++ map (shift R) s1)
              ++ EvExec "git init" (R ++ []) :: map (shift R) s2) in Heq.
    symmetry in Heq.
    rewrite (first_exec _ _ _ _ _ _ _ _ Heq Hpre).
    + apply in_or_app. by right.
    + intros c0 d0 [H | [H | H]]; [ done | done | by apply (Hshift c0 d0) ].
  - destruct (is_some_node (lookup_path R (Some d))).
    { destruct pre as [|e [|e' pre]]; done. }
    rewrite app_assoc in Heq.
    symmetry in Heq.
    rewrite (first_exec _ _ _ _ _ _ _ _ Heq Hpre).
    + apply in_or_app. by right.
    + intros c0 d0 [H | H]%in_app_or; [ | by apply (Hshift c0 d0) ].
      by apply in_map_iff in H as (q & Hq & _).
Qed.

(** A run of [init] that reaches the command leaves every file of
    [source_files] on the disk, however it ends. *)
Lemma init_keeps_the_sources (cwd : path)
    (exec : string -> path -> completion) root opts w l cmd dir :
  nogit opts = false ->
  calls (world_of (init cwd exec root opts w)) = calls w ++ l ->
  In (EvExec cmd dir) l ->
  forall rel c,
    In (rel, c) (source_files opts) ->
    lookup_path (components (join cwd [root]) ++ rel)
      (Some (disk (world_of (init cwd exec root opts w))))
    = Some (File c).
Proof.
  intros Hg Hl Hexec rel c Hin.
  set (R := components (join cwd [root])) in *.
  assert (HR : forallb plain R = true) by apply join_is_plain.
  destruct (init_cases cwd exec root opts w R eq_refl)
    as [(h & l0 & Hh & Hwhy) | (w0 & _ & Hnone & Hc & Hinit & _)].
  { exfalso. rewrite Hh in Hl. cbn [world_of calls] in Hl.
    apply app_inv_head in Hl. subst l0.
    destruct Hwhy as [[_ ->] | [[_ ->] | [[_ ->] | [_ [q ->]]]]];
      cbn [In] in Hexec; by intuition. }
  rewrite Hinit.
  destruct (scaffold_fresh exec R root opts w0 HR Hnone Hc)
    as (w1 & d' & _ & Hgr & ->).
  rewrite world_of_relabel. cbn [disk].
  rewrite (lookup_graft_below _ _ _ _ _ Hgr).
  destruct (scaffold_in_empty_dir_ends (fun _ _ => exec "git init" R) root opts)
    as [[_ Hchild] | (_ & _ & Herr)].
  - destruct (scaffold_in_empty_dir (fun _ _ => exec "git init" R) root opts
                Hchild) as (_ & Hfiles & _).
    apply Hfiles. left. by apply source_files_in_tables.
  - destruct (scaffold_spawn_error_in_empty_dir
                (fun _ _ => exec "git init" R) root opts Hg Herr)
      as [_ Hfiles].
    by apply Hfiles.
Qed.

End GitStepOfInit.

(** C1, amended.  In a run of [init] with [nogit] off: (1) if the
    child cannot be spawned the operation fails, and when the run got
    as far as the command, the command is its last call and the
    failure is the spawn error; (2) the exit code of the child, zero
    or not, is ignored: the run is the one that exit code 0 gives;
    (3) the command is [git init] in the project root, and at the
    moment it runs package.json, tsconfig.json and vite.config.js
    have not been written: they are the only files written after
    it, while every file of [source_files] (the manifest, the
    entries of the template, the two modules, the HTML entry, the
    formatting configuration and the ignore file) has been written
    before it; (4) nothing is rolled back: after the command the run
    only makes directories and writes files, and the files of
    [source_files] are on the disk when the run ends, whether the
    child could be spawned or not. *)
Theorem git_step_of_init (cwd : path) (exec : string -> path -> completion)
    root opts w l :
  nogit opts = false ->
  calls (world_of (init cwd exec root opts w)) = calls w ++ l ->
  (exec "git init" (join cwd [root]) = ChildError ->
     halted (init cwd exec root opts w) <> None /\
     forall pre cmd dir post,
       l = pre ++ EvExec cmd dir :: post ->
       post = [] /\
       halted (init cwd exec root opts w) = Some (Rejected SpawnError)) /\
  init cwd exec root opts w
  = init cwd (fun command dir => exit_code_zero (exec command dir))
      root opts w /\
  (forall pre cmd dir post,
      l = pre ++ EvExec cmd dir :: post ->
      cmd = "git init" /\ dir = components (join cwd [root]) /\
      Forall (before_git (join cwd [root])) pre /\
      Forall (after_git (join cwd [root])) post /\
      forall rel c,
        In (rel, c) (source_files opts) ->
        In (EvWriteFile (components (join cwd [root]) ++ rel) c) pre /\
        lookup_path (components (join cwd [root]) ++ rel)
          (Some (disk (world_of (init cwd exec root opts w))))
        = Some (File c)).
Proof.
  intros Hg Hl.
  destruct (init_around cwd exec root opts Hg w) as (l' & Hl' & Hshape).
  rewrite Hl in Hl'. apply app_inv_head in Hl' as <-.
  set (R := components (join cwd [root])) in *.
  split; [ | split ].
  - intros Herr. rewrite Herr in Hshape. split.
    + destruct Hshape as [[Ho _] | (l1 & l2 & _ & _ & _ & _ & Ho)];
        [ done | by rewrite Ho ].
    + intros pre cmd dir post ->.
      destruct Hshape as [[_ Hall] | (l1 & l2 & Heq & H1 & H2 & -> & Ho)].
      * rewrite Forall_forall in Hall.
        exfalso. apply (Hall (EvExec cmd dir)).
        apply list_elem_of_In, in_or_app. right. by left.
      * by destruct (exec_position _ _ _ _ _ _ _ Heq H1 H2) as (_ & _ & _ & ->).
  - apply init_exit_ignored.
  - intros pre cmd dir post Hsplit.
    assert (Hpos : cmd = "git init" /\ dir = R /\
                   Forall (before_git R) pre /\ Forall (after_git R) post).
    { subst l.
      destruct Hshape as [[_ Hall] | (l1 & l2 & Heq & H1 & H2 & _)].
      - rewrite Forall_forall in Hall.
        exfalso. apply (Hall (EvExec cmd dir)).
        apply list_elem_of_In, in_or_app. right. by left.
      - by destruct (exec_position _ _ _ _ _ _ _ Heq H1 H2)
          as (-> & -> & -> & ->). }
    destruct Hpos as (Hcmd & Hdir & Hbefore & Hafter).
    do 4 (split; [ done | ]).
    intros rel c Hin. split.
    + destruct (init_calls_prefix cwd exec root opts w l Hl) as [[k Hk] _].
      rewrite Hsplit, <- app_assoc in Hk. cbn [app] in Hk.
      apply (init_calls_git_step cwd root opts (disk w) pre cmd dir (post ++ k)
               Hg Hk); [ | done ].
      intros c0 d0 H0. rewrite Forall_forall in Hbefore.
      apply list_elem_of_In in H0. by apply Hbefore in H0.
    + apply (init_keeps_the_sources cwd exec root opts w l cmd dir Hg Hl);
        [ | done ].
      rewrite Hsplit. apply in_or_app. right. by left.
Qed.

Lemma git_step_of_init_witness :
  let run := init ["home"] cannot_spawn "game" default_options home_world in
  (nogit default_options = false /\
   calls (world_of run) = calls home_world ++ calls (world_of run)) /\
  ((cannot_spawn "git init" (join ["home"] ["game"]) = ChildError ->
      halted run <> None /\
      forall pre cmd dir post,
        calls (world_of run) = pre ++ EvExec cmd dir :: post ->
        post = [] /\ halted run = Some (Rejected SpawnError)) /\
   run = init ["home"]
           (fun command dir => exit_code_zero (cannot_spawn command dir))
           "game" default_options home_world /\
   (forall pre cmd dir post,
       calls (world_of run) = pre ++ EvExec cmd dir :: post ->
       cmd = "git init" /\ dir = components (join ["home"] ["game"]) /\
       Forall (before_git (join ["home"] ["game"])) pre /\
       Forall (after_git (join ["home"] ["game"])) post /\
       forall rel c,
         In (rel, c) (source_files default_options) ->
         In (EvWriteFile (components (join ["home"] ["game"]) ++ rel) c) pre /\
         lookup_path (components (join ["home"] ["game"]) ++ rel)
           (Some (disk (world_of run)))
         = Some (File c))).
Proof.
  intros run. split; [ exact (conj eq_refl eq_refl) | ].
  exact (git_step_of_init ["home"] cannot_spawn "game" default_options
           home_world (calls (world_of run)) eq_refl eq_refl).
Defined.

(** C1 as stated fails twice on one run: with a child that exits with
    code 1 on a fresh root, [init] completes (exit status 0), and
    package.json is written after the command, not before it. *)
Lemma nonzero_exit_does_not_fail_init :
  let run := init ["home"] (exits_with 1) "game" default_options home_world in
  halted run = None /\ exit_status run = 0 /\
  exists pre post,
    calls (world_of run) = pre ++ EvExec "git init" ["home"; "game"] :: post /\
    In (EvWriteFile ["home"; "game"; "package.json"]
          (JSON_stringify (package_json "game") 4)) post /\
    ~ (exists c, In (EvWriteFile ["home"; "game"; "package.json"] c) pre).
Proof.
  intros run. split; [ by vm_compute | ]. split; [ by vm_compute | ].
  exists (take 16 (calls (world_of run))), (drop 17 (calls (world_of run))).
  split; [ vm_compute; reflexivity | ]. split; [ in_log | ].
  intros [c H]. vm_compute in H.
  repeat (destruct H as [H|H]; [ discriminate H | ]). exact H.
Qed.
